(** * ReDroid trace comparator: a shallow embedding of
      [anti_sandbox_detector/scripts/trace_comparator.py]

    The script compares the per-thread method traces of one application run
    on a real device and on an emulator.  The embedding follows the script
    function by function:

    - [trace_str_to_class_method], [clean_trace], [process_trace],
      [trace_similarity] and [compare_trace] keep their names;
    - a Python exception is a value of [exn] carried by the error monad
      [result];
    - the [thread_info] dictionary is a [gmap Z thread], a Python [set] of
      strings a [gset string];
    - the float scores are modelled by exact rationals [Q] (their rounding
      is not modelled); the matched fraction [sim_max_common] is given a
      second time in IEEE 754 binary64, as [sim_max_common_binary64], over
      the Standard Library's [SpecFloat];
    - [scipy.optimize.linear_sum_assignment] is a library routine: it is a
      parameter of [compare_trace], and its documented contract is the
      predicate [optimal_assignment].

    The script is Python 2 ([print] statements, [dict.keys()] returning a
    list), strings are byte strings. *)

From Stdlib Require Import Ascii String QArith SpecFloat.
From stdpp Require Import gmap strings list sorting.

Local Open Scope string_scope.
Local Open Scope Z_scope.
Local Open Scope nat_scope.
Local Open Scope list_scope.

(** ** Exceptions and the error monad *)

Inductive exn : Type :=
| IndexError          (* sequence index out of range *)
| KeyError            (* missing dictionary key *)
| ZeroDivisionError.  (* float division by zero *)

Inductive result (A : Type) : Type :=
| Ok (a : A)
| Raise (e : exn).
Arguments Ok {A} a.
Arguments Raise {A} e.

Definition rbind {A B : Type} (r : result A) (k : A -> result B) : result B :=
  match r with
  | Ok a => k a
  | Raise e => Raise e
  end.

Notation "'let*' x ':=' r 'in' k" := (rbind r (fun x => k))
  (at level 10, x pattern, r at level 100, k at level 200).

(** [for x in xs: acc = f(acc, x)] where the body may raise. *)
Fixpoint rfold {A B : Type} (f : B -> A -> result B) (acc : B) (xs : list A)
  : result B :=
  match xs with
  | [] => Ok acc
  | x :: xs' => let* acc' := f acc x in rfold f acc' xs'
  end.

(** [[f(x) for x in xs]], evaluated left to right, where [f] may raise. *)
Fixpoint rmap {A B : Type} (f : A -> result B) (xs : list A) : result (list B) :=
  match xs with
  | [] => Ok []
  | x :: xs' => let* y := f x in let* ys := rmap f xs' in Ok (y :: ys)
  end.

(** ** Byte strings *)

(** [c.isalpha()] on a one-byte string (C locale): an ASCII letter. *)
Definition isalpha (c : ascii) : bool :=
  let n := nat_of_ascii c in
  ((65 <=? n) && (n <=? 90)) || ((97 <=? n) && (n <=? 122)).

(** [s[n:]] for [0 <= n]. *)
Fixpoint str_from (n : nat) (s : string) : string :=
  match n, s with
  | 0, _ => s
  | S _, EmptyString => EmptyString
  | S n', String _ s' => str_from n' s'
  end.

(** [s2.startswith(s1)] *)
Definition startswith (s2 s1 : string) : bool := String.prefix s1 s2.

(** [os.path.commonprefix([a, b])]: the longest common leading substring,
    compared character by character. *)
Fixpoint commonprefix (a b : string) : string :=
  match a, b with
  | String c a', String d b' =>
      if Ascii.eqb c d then String c (commonprefix a' b') else EmptyString
  | _, _ => EmptyString
  end.

(** ** [trace_str_to_class_method] *)

(** The [while] loop: [trace_str[trace_idx]] raises [IndexError] past the end
    of the string; [remaining] is the part of the string not yet visited
    ([trace_str[trace_idx:]]), returned as soon as it starts with a letter. *)
Fixpoint skip_to_alpha (remaining : string) : result string :=
  match remaining with
  | EmptyString => Raise IndexError
  | String c rest => if isalpha c then Ok remaining else skip_to_alpha rest
  end.

Definition trace_str_to_class_method (trace_str : string) : result string :=
  let trace_idx := String.length "ent " in
  skip_to_alpha (str_from trace_idx trace_str).

(** ** [clean_trace] *)

Definition ex_class_list : list string :=
  [ "android.";
    "com.android";
    "com.google.android.collect";
    "dalvik.system";
    "java.";
    "libcore.";
    "sun." ].

(** The inner loop sets [trace_removed] as soon as one prefix matches. *)
Definition trace_removed (trimmed_trace_str : string) : bool :=
  existsb (startswith trimmed_trace_str) ex_class_list.

Definition clean_trace (trace_list : list string) : result (list string) :=
  rfold (fun ret_trace_list trace_str =>
           let* trimmed_trace_str := trace_str_to_class_method trace_str in
           if trace_removed trimmed_trace_str
           then Ok ret_trace_list
           else Ok (ret_trace_list ++ [trace_str]))
        [] trace_list.

(** ** Containers *)

(** [d[k]] on a dictionary. *)
Definition dict_get {V : Type} (d : gmap Z V) (k : Z) : result V :=
  match d !! k with
  | Some v => Ok v
  | None => Raise KeyError
  end.

(** [l[i]] on a list or array, for a non-negative index. *)
Definition list_get {A : Type} (l : list A) (i : nat) : result A :=
  match l !! i with
  | Some a => Ok a
  | None => Raise IndexError
  end.

(** [sorted(d.keys())] *)
Definition sorted_keys {V : Type} (d : gmap Z V) : list Z :=
  merge_sort Z.le (map fst (map_to_list d)).

(** Python slicing [l[lo:hi]]: a negative bound counts from the end, and both
    bounds are clamped to the list. *)
Definition slice_bound (len i : Z) : Z :=
  if (i <? 0)%Z then Z.max 0 (i + len) else Z.min i len.

Definition py_slice {A : Type} (l : list A) (lo hi : Z) : list A :=
  let len := Z.of_nat (length l) in
  let lo' := slice_bound len lo in
  let hi' := slice_bound len hi in
  take (Z.to_nat (hi' - lo')) (drop (Z.to_nat lo') l).

(** [float(a) / b] for integers [a], [b]. *)
Definition float_div (a b : Z) : result Q :=
  if (b =? 0)%Z then Raise ZeroDivisionError
  else Ok (inject_Z a / inject_Z b)%Q.

(** ** [process_trace] *)

(** One thread of a trace: the values stored under the keys ["name"] and
    ["trace"]. *)
Record thread : Type := {
  name : string;
  trace : list string
}.

(** The dictionary returned by [process_trace]. *)
Record trace_obj : Type := {
  version : Z;
  thread_info : gmap Z thread
}.

(** The groups captured by [TRACE_ITEM_RE] on one event line, the thread id
    and the depth already converted by [int]. *)
Record trace_item : Type := {
  item_tid : Z;          (* group 1 *)
  item_kind : string;    (* group 2: ent, xit or unr *)
  item_excl : string;    (* group 3: the run of exclamation marks *)
  item_depth : Z;        (* group 4, not used *)
  item_method : string;  (* group 5 *)
  item_sig : string;     (* group 6 *)
  item_loc : string      (* group 7 *)
}.

(** The text produced by [dmtracedump -o], after the three regular
    expressions have been matched: the version, one (tid, name) pair per
    thread line, and the event lines up to the first empty line.  The lexing
    itself (regular expressions, [int], [str.find]) is not modelled. *)
Record decoded_trace : Type := {
  dt_version : Z;
  dt_threads : list (Z * string);
  dt_items : list trace_item
}.

(** ["%s%s %s %s %s" % (g2, g3, g5, g6, g7)] *)
Definition format_item (it : trace_item) : string :=
  item_kind it +:+ item_excl it +:+ " " +:+ item_method it +:+ " "
    +:+ item_sig it +:+ " " +:+ item_loc it.

(** The first loop: every declared thread starts with an empty trace; a
    later line with the same id replaces the earlier entry. *)
Definition declare_threads (decls : list (Z * string)) : gmap Z thread :=
  foldl (fun info decl => <[decl.1 := {| name := decl.2; trace := [] |}]> info)
        ∅ decls.

(** The body of the [while] loop: append the event to its thread. *)
Definition append_item (info : gmap Z thread) (it : trace_item)
  : result (gmap Z thread) :=
  let* thr := dict_get info (item_tid it) in
  Ok (<[item_tid it := {| name := name thr;
                         trace := trace thr ++ [format_item it] |}]> info).

(** "get rid of empty traces": every key whose trace is empty is popped. *)
Definition drop_empty_traces (info : gmap Z thread) : gmap Z thread :=
  filter (fun kv => trace kv.2 ≠ []) info.

Definition process_trace (dt : decoded_trace) : result trace_obj :=
  let info := declare_threads (dt_threads dt) in
  let* info := rfold append_item info (dt_items dt) in
  Ok {| version := dt_version dt; thread_info := drop_empty_traces info |}.

(** ** [trace_similarity] *)

(** [for trace_str in trace: s.add(trace_str_to_class_method(trace_str))] *)
Definition class_methods (trace_list : list string) : result (gset string) :=
  rfold (fun s trace_str =>
           let* cm := trace_str_to_class_method trace_str in
           Ok (s ∪ {[ cm ]}))
        ∅ trace_list.

Definition trace_similarity (name_a : string) (trace_a : list string)
           (name_b : string) (trace_b : list string) : result Q :=
  let* class_methods_a := class_methods trace_a in
  let* class_methods_b := class_methods trace_b in
  let* name_sim :=
    float_div (Z.of_nat (String.length (commonprefix name_a name_b)))
              (Z.of_nat (String.length name_a `max` String.length name_b)) in
  let* cov_sim :=
    float_div (Z.of_nat (size (class_methods_a ∩ class_methods_b)))
              (Z.of_nat (size (class_methods_a ∪ class_methods_b))) in
  Ok (name_sim * cov_sim)%Q.

(** ** [compare_trace] *)

(** One element of [trace_similarity_list], with the keys of the JSON
    object.  [None] is Python's [None] (JSON [null]). *)
Record ComparisonRecord : Type := {
  real_id : Z;
  real_name : string;
  real_trace : option (list string);
  emu_id : Z;
  emu_name : string;
  e_trace : option (list string);
  sim_cov : Q;
  max_common_len : nat;
  diverge_idx : nat;
  sim_max_common : Q
}.

(** [len(a) == 0 or len(b) == 0 or a[0] == b[0]]; [or] is short-circuit, so
    the first elements are read only when both lists have one. *)
Definition trace_aligned (real_device_trace emulator_trace : list string) : bool :=
  bool_decide (length real_device_trace = 0)
  || bool_decide (length emulator_trace = 0)
  || bool_decide (real_device_trace !! 0 = emulator_trace !! 0).

(** The lockstep [while trace_idx < max_common_len] loop.  [remaining] is
    [max_common_len - trace_idx]: when it is [0] the loop condition fails,
    otherwise both lists have an element at [trace_idx] and the loop either
    breaks or increments [trace_idx]. *)
Fixpoint scan_loop (remaining trace_idx : nat)
         (real_device_trace emulator_trace : list string) : nat :=
  match remaining with
  | 0 => trace_idx
  | S remaining' =>
      if bool_decide (real_device_trace !! trace_idx ≠ emulator_trace !! trace_idx)
      then trace_idx
      else scan_loop remaining' (S trace_idx) real_device_trace emulator_trace
  end.

(** The context window [t[max(0, trace_idx - 1):trace_idx + 1]] when the
    loop stopped early, [None] otherwise. *)
Definition context (t : list string) (trace_idx max_common_len : nat)
  : option (list string) :=
  if trace_idx <? max_common_len
  then Some (py_slice t (Z.max 0 (Z.of_nat trace_idx - 1)) (Z.of_nat trace_idx + 1))
  else None.

(** [float(trace_idx) / max_common_len if max_common_len else 1.0] *)
Definition fraction_matched (trace_idx max_common_len : nat) : Q :=
  if max_common_len =? 0 then 1%Q
  else (inject_Z (Z.of_nat trace_idx) / inject_Z (Z.of_nat max_common_len))%Q.

(** The body of [if trace_aligned:] for one matched pair, the two traces
    already cleaned. *)
Definition scan_pair (tid_r : Z) (name_r : string) (real_device_trace : list string)
           (tid_e : Z) (name_e : string) (emulator_trace : list string)
           (sim : Q) : ComparisonRecord :=
  let max_common_len := length real_device_trace `min` length emulator_trace in
  let trace_idx := scan_loop max_common_len 0 real_device_trace emulator_trace in
  {| real_id := tid_r;
     real_name := name_r;
     real_trace := context real_device_trace trace_idx max_common_len;
     emu_id := tid_e;
     emu_name := name_e;
     e_trace := context emulator_trace trace_idx max_common_len;
     sim_cov := sim;
     max_common_len := max_common_len;
     diverge_idx := trace_idx;
     sim_max_common := fraction_matched trace_idx max_common_len |}.

(** [sim_matrix]: entry [(i, j)] is minus the similarity of the [i]-th real
    thread and the [j]-th emulator thread, computed on the traces stored in
    the two trace objects.  Rows are filled in order, so the first exception
    in row-major order is the one that propagates. *)
Definition build_sim_matrix (real_info emu_info : gmap Z thread)
           (r_tid_list e_tid_list : list Z) : result (list (list Q)) :=
  rmap (fun tid_r =>
    rmap (fun tid_e =>
      let* thr_r := dict_get real_info tid_r in
      let* thr_e := dict_get emu_info tid_e in
      let* s := trace_similarity (name thr_r) (trace thr_r)
                                 (name thr_e) (trace thr_e) in
      Ok (- s)%Q)
    e_tid_list)
  r_tid_list.

(** [m[x][y]] *)
Definition matrix_get (m : list (list Q)) (x y : nat) : result Q :=
  let* row := list_get m x in list_get row y.

(** One iteration of [for x, y in zip(r_idx, e_idx)]: the record appended
    to [trace_similarity_list], or nothing when the pair is not aligned. *)
Definition compare_matched (real_info emu_info : gmap Z thread)
           (r_tid_list e_tid_list : list Z) (sim_matrix : list (list Q))
           (xy : nat * nat) : result (option ComparisonRecord) :=
  let '(x, y) := xy in
  let* tid_r := list_get r_tid_list x in
  let* thr_r := dict_get real_info tid_r in
  let* real_device_trace := clean_trace (trace thr_r) in
  let* tid_e := list_get e_tid_list y in
  let* thr_e := dict_get emu_info tid_e in
  let* emulator_trace := clean_trace (trace thr_e) in
  if trace_aligned real_device_trace emulator_trace then
    let* c := matrix_get sim_matrix x y in
    Ok (Some (scan_pair tid_r (name thr_r) real_device_trace
                        tid_e (name thr_e) emulator_trace (- c)%Q))
  else Ok None.

Section Solver.

(** [scipy.optimize.linear_sum_assignment]: from a cost matrix to the arrays
    of row indices and of column indices of the chosen entries. *)
Variable linear_sum_assignment : list (list Q) -> list nat * list nat.

(** The part of [compare_trace] after the two trace objects are built and
    before the list is written out: the value of [trace_similarity_list]. *)
Definition compare_trace_objs (real_device_trace_obj emulator_trace_obj : trace_obj)
  : result (list ComparisonRecord) :=
  let real_info := thread_info real_device_trace_obj in
  let emu_info := thread_info emulator_trace_obj in
  let r_tid_list := sorted_keys real_info in
  let e_tid_list := sorted_keys emu_info in
  let* sim_matrix := build_sim_matrix real_info emu_info r_tid_list e_tid_list in
  let '(r_idx, e_idx) := linear_sum_assignment sim_matrix in
  rfold (fun trace_similarity_list xy =>
           let* rec := compare_matched real_info emu_info r_tid_list e_tid_list
                                       sim_matrix xy in
           Ok (trace_similarity_list ++ option_list rec))
        [] (zip r_idx e_idx).

(** [compare_trace], from the decoded text of the two trace files to the
    list that is serialised into the output file. *)
Definition compare_trace (real_device_trace emulator_trace : decoded_trace)
  : result (list ComparisonRecord) :=
  let* real_device_trace_obj := process_trace real_device_trace in
  let* emulator_trace_obj := process_trace emulator_trace in
  compare_trace_objs real_device_trace_obj emulator_trace_obj.

End Solver.

(** ** The contract of the assignment solver *)

(** [rows] and [cols] pair distinct rows of an [m] x [n] matrix with distinct
    columns. *)
Definition is_assignment (m n : nat) (rows cols : list nat) : Prop :=
  length rows = length cols /\ NoDup rows /\ NoDup cols
  /\ Forall (fun x => x < m) rows /\ Forall (fun y => y < n) cols.

(** The entry [(x, y)] of a matrix, [0] outside of it. *)
Definition entry (mat : list (list Q)) (xy : nat * nat) : Q :=
  match mat !! xy.1 with
  | Some row => default 0%Q (row !! xy.2)
  | None => 0%Q
  end.

(** [cost_matrix[row_ind, col_ind].sum()] *)
Definition total (mat : list (list Q)) (pairs : list (nat * nat)) : Q :=
  foldr (fun xy acc => (entry mat xy + acc)%Q) 0%Q pairs.

(** What the documentation of [linear_sum_assignment] promises of its result
    [out] on an [m] x [n] cost matrix: a complete assignment of the smaller
    side, of minimal total cost among those. *)
Definition optimal_assignment (m n : nat) (cost : list (list Q))
           (out : list nat * list nat) : Prop :=
  is_assignment m n out.1 out.2
  /\ length out.1 = m `min` n
  /\ forall rows cols,
      is_assignment m n rows cols -> length rows = m `min` n ->
      (total cost (zip out.1 out.2) <= total cost (zip rows cols))%Q.

(** ** Notions used to state the properties *)

(** A computation that returns. *)
Definition returns {A : Type} (r : result A) : Prop := exists a, r = Ok a.

(** The similarity of the [x]-th real thread and the [y]-th emulator thread
    (in the order of their sorted ids), on the traces stored in the trace
    objects; [0] when there is no such thread or the computation raises. *)
Definition thread_similarity (real_info emu_info : gmap Z thread)
           (xy : nat * nat) : Q :=
  match sorted_keys real_info !! xy.1, sorted_keys emu_info !! xy.2 with
  | Some tid_r, Some tid_e =>
      match real_info !! tid_r, emu_info !! tid_e with
      | Some thr_r, Some thr_e =>
          match trace_similarity (name thr_r) (trace thr_r)
                                 (name thr_e) (trace thr_e) with
          | Ok s => s
          | Raise _ => 0%Q
          end
      | _, _ => 0%Q
      end
  | _, _ => 0%Q
  end.

Definition total_similarity (real_info emu_info : gmap Z thread)
           (pairs : list (nat * nat)) : Q :=
  foldr (fun xy acc => (thread_similarity real_info emu_info xy + acc)%Q) 0%Q pairs.

(** The event before index [i], when there is one, and the event at [i]. *)
Definition window (t : list string) (i : nat) : list string :=
  match i with
  | 0 => option_list (t !! 0)
  | S k => option_list (t !! k) ++ option_list (t !! i)
  end.

(** The Jaccard index of two finite sets. *)
Definition jaccard (a b : gset string) : Q :=
  (inject_Z (Z.of_nat (size (a ∩ b))) / inject_Z (Z.of_nat (size (a ∪ b))))%Q.

(** [n] exclamation marks: what group 3 of [TRACE_ITEM_RE] can capture. *)
Fixpoint bangs (n : nat) : string :=
  match n with
  | 0 => EmptyString
  | S n' => String "!" (bangs n')
  end.

(** What group 2 of [TRACE_ITEM_RE] can capture. *)
Definition is_kind (k : string) : Prop := k = "ent" \/ k = "xit" \/ k = "unr".

(** ** Sample inputs *)

Definition mk_item (tid : Z) (kind excl meth sig loc : string) : trace_item :=
  {| item_tid := tid; item_kind := kind; item_excl := excl; item_depth := 0%Z;
     item_method := meth; item_sig := sig; item_loc := loc |}.

(** The sequences of the specification's divergence example. *)
Definition example_A : list string := ["ent Foo.bar"; "ent Foo.baz"; "xit Foo.baz"].
Definition example_B : list string := ["ent Foo.bar"; "ent Foo.qux"; "xit Foo.qux"].

(** One application thread on each side; the first events differ. *)
Definition misaligned_real : decoded_trace :=
  {| dt_version := 3%Z;
     dt_threads := [(1%Z, "main")];
     dt_items := [mk_item 1 "ent" EmptyString "com.app.Main.onCreate" "()V" "Main.java";
                  mk_item 1 "ent" EmptyString "com.app.Check.isDevice" "()Z" "Check.java"] |}.
Definition misaligned_emu : decoded_trace :=
  {| dt_version := 3%Z;
     dt_threads := [(1%Z, "main")];
     dt_items := [mk_item 1 "ent" EmptyString "com.app.Check.isDevice" "()Z" "Check.java";
                  mk_item 1 "ent" EmptyString "com.app.Main.onCreate" "()V" "Main.java"] |}.

(** The real thread also calls a framework method. *)
Definition framework_real : decoded_trace :=
  {| dt_version := 3%Z;
     dt_threads := [(1%Z, "main")];
     dt_items := [mk_item 1 "ent" EmptyString "com.app.Main.onCreate" "()V" "Main.java";
                  mk_item 1 "ent" EmptyString "android.os.Handler.post" "()V" "Handler.java"] |}.
Definition framework_emu : decoded_trace :=
  {| dt_version := 3%Z;
     dt_threads := [(1%Z, "main")];
     dt_items := [mk_item 1 "ent" EmptyString "com.app.Main.onCreate" "()V" "Main.java"] |}.

(** The real thread calls framework methods only. *)
Definition only_framework_real : decoded_trace :=
  {| dt_version := 3%Z;
     dt_threads := [(7%Z, "Binder_1")];
     dt_items := [mk_item 7 "ent" EmptyString "android.os.Binder.execTransact" "(IIII)Z" "Binder.java";
                  mk_item 7 "xit" EmptyString "android.os.Binder.execTransact" "(IIII)Z" "Binder.java"] |}.
Definition only_framework_emu : decoded_trace :=
  {| dt_version := 3%Z;
     dt_threads := [(9%Z, "Binder_1")];
     dt_items := [mk_item 9 "ent" EmptyString "com.app.Service.onBind" "()V" "Service.java"] |}.

(** Two threads on each side, paired by name. *)
Definition two_threads_real : decoded_trace :=
  {| dt_version := 3%Z;
     dt_threads := [(1%Z, "main"); (2%Z, "worker")];
     dt_items := [mk_item 1 "ent" EmptyString "com.app.Main.onCreate" "()V" "Main.java";
                  mk_item 2 "ent" EmptyString "com.app.Job.run" "()V" "Job.java";
                  mk_item 1 "xit" EmptyString "com.app.Main.onCreate" "()V" "Main.java";
                  mk_item 2 "ent" "!" "com.app.Job.real" "()V" "Job.java"] |}.
Definition two_threads_emu : decoded_trace :=
  {| dt_version := 3%Z;
     dt_threads := [(5%Z, "worker"); (6%Z, "main")];
     dt_items := [mk_item 6 "ent" EmptyString "com.app.Main.onCreate" "()V" "Main.java";
                  mk_item 5 "ent" EmptyString "com.app.Job.run" "()V" "Job.java";
                  mk_item 6 "xit" EmptyString "com.app.Main.onCreate" "()V" "Main.java";
                  mk_item 5 "ent" EmptyString "com.app.Job.emu" "()V" "Job.java"] |}.

(** The only way to assign a single row to a single column. *)
Definition assign_1x1 (cost : list (list Q)) : list nat * list nat := ([0], [0]).

(** The trace object of a sample input, and the matrix of two of them. *)
Definition trace_obj_of (dt : decoded_trace) : trace_obj :=
  match process_trace dt with
  | Ok obj => obj
  | Raise _ => {| version := dt_version dt; thread_info := ∅ |}
  end.

Definition sim_matrix_of (real_obj emu_obj : trace_obj) : list (list Q) :=
  match build_sim_matrix (thread_info real_obj) (thread_info emu_obj)
                         (sorted_keys (thread_info real_obj))
                         (sorted_keys (thread_info emu_obj)) with
  | Ok sim_matrix => sim_matrix
  | Raise _ => []
  end.

(** The assignment of row 0 to column 1 and of row 1 to column 0. *)
Definition assign_swap (cost : list (list Q)) : list nat * list nat := ([0; 1], [1; 0]).

(** The event lines of thread [tid], formatted, in file order. *)
Definition events_of (tid : Z) (items : list trace_item) : list string :=
  map format_item (filter (fun it => item_tid it = tid) items).

(** The list written out for a sample input. *)
Definition records_of (lsa : list (list Q) -> list nat * list nat)
           (real emu : decoded_trace) : list ComparisonRecord :=
  match compare_trace lsa real emu with
  | Ok out => out
  | Raise _ => []
  end.

(** ** Notions used to state further properties *)

(** The event has an identifier: [trace_str_to_class_method] returns. *)
Definition has_identifier (trace_str : string) : bool :=
  match trace_str_to_class_method trace_str with
  | Ok _ => true
  | Raise _ => false
  end.

(** The event has an identifier that starts with an excluded prefix. *)
Definition is_noise (trace_str : string) : bool :=
  match trace_str_to_class_method trace_str with
  | Ok trimmed_trace_str => trace_removed trimmed_trace_str
  | Raise _ => false
  end.

(** The set of identifiers built by [trace_similarity] for one trace, when
    every event has one. *)
Definition identifiers (trace_list : list string) : gset string :=
  match class_methods trace_list with
  | Ok s => s
  | Raise _ => ∅
  end.

(** The name factor of the similarity. *)
Definition name_ratio (name_a name_b : string) : Q :=
  (inject_Z (Z.of_nat (String.length (commonprefix name_a name_b)))
   / inject_Z (Z.of_nat (String.length name_a `max` String.length name_b)))%Q.

(** The trace stored for thread [tid], empty when there is no such thread. *)
Definition trace_of (obj : trace_obj) (tid : Z) : list string :=
  match thread_info obj !! tid with
  | Some thr => trace thr
  | None => []
  end.

(** No character of the string is a space. *)
Definition no_space (s : string) : bool :=
  forallb (fun c => negb (Ascii.eqb c " ")) (list_ascii_of_string s).

(** The name given to thread [tid] by the last thread line that declares
    it. *)
Definition declared_name (decls : list (Z * string)) (tid : Z) : option string :=
  snd <$> last (filter (fun decl => decl.1 = tid) decls).

(** ** [run]: the comparison jobs of one application *)

(** [s.endswith(suffix)] *)
Definition endswith (s suffix : string) : bool :=
  (String.length suffix <=? String.length s)
  && String.eqb (str_from (String.length s - String.length suffix) s) suffix.

(** [s[lo:hi]] on a string, with Python's treatment of negative bounds. *)
Definition str_slice (s : string) (lo hi : Z) : string :=
  string_of_list_ascii (py_slice (list_ascii_of_string s) lo hi).

(** [x[len("event_trace_"):-len(".trace")]] *)
Definition trace_tag (x : string) : string :=
  str_slice x (Z.of_nat (String.length "event_trace_"))
              (- Z.of_nat (String.length ".trace")).

(** [sorted([x for x in files if x.endswith(".trace")])], where [files] is
    the list of file names that [os.walk] gives for the events directory;
    [String.le] is the lexicographic order on bytes, the order of [sorted] on
    byte strings. *)
Definition sorted_traces (files : list string) : list string :=
  merge_sort String.le (filter (fun x => endswith x ".trace" = true) files).

(** The argument list handed to [pool.apply_async(compare_trace, ...)] for
    the pair of trace files [x], [y]. *)
Definition job_args (real_device_path emulator_path output_dir app_name x y : string)
  : string * string * string :=
  let x_tag := trace_tag x in
  let y_tag := trace_tag y in
  (real_device_path +:+ "/" +:+ x,
   emulator_path +:+ "/" +:+ y,
   output_dir +:+ "/" +:+ app_name +:+ "_" +:+ x_tag +:+ "_" +:+ y_tag +:+ ".json").

(** The body of [for app_name in both_apps]: the jobs submitted for one
    application, from the two directory listings.  Reading the configuration
    and the directories, the worker pool and the printing of the results are
    not modelled. *)
Definition app_jobs (real_device_droidbot_out_dir emulator_droidbot_out_dir
                     output_dir app_name : string)
           (real_files emu_files : list string) : list (string * string * string) :=
  let real_device_path := real_device_droidbot_out_dir +:+ "/" +:+ app_name +:+ "/events" in
  let emulator_path := emulator_droidbot_out_dir +:+ "/" +:+ app_name +:+ "/events" in
  let real_device_traces := sorted_traces real_files in
  let emulator_traces := sorted_traces emu_files in
  map (fun xy => job_args real_device_path emulator_path output_dir app_name xy.1 xy.2)
      (zip real_device_traces emulator_traces).

(** ** Further sample inputs *)

(** A named and an unnamed thread on each side. *)
Definition unnamed_real : decoded_trace :=
  {| dt_version := 3%Z;
     dt_threads := [(1%Z, "main"); (2%Z, EmptyString)];
     dt_items := [mk_item 1 "ent" EmptyString "com.app.Main.onCreate" "()V" "Main.java";
                  mk_item 2 "ent" EmptyString "com.app.Job.run" "()V" "Job.java"] |}.
Definition unnamed_emu : decoded_trace :=
  {| dt_version := 3%Z;
     dt_threads := [(1%Z, "main"); (3%Z, EmptyString)];
     dt_items := [mk_item 1 "ent" EmptyString "com.app.Main.onCreate" "()V" "Main.java";
                  mk_item 3 "ent" EmptyString "com.app.Job.run" "()V" "Job.java"] |}.

(** A trace whose threads have no event. *)
Definition no_events : decoded_trace :=
  {| dt_version := 3%Z;
     dt_threads := [(1%Z, "main")];
     dt_items := [] |}.

(** A solver result with no pair. *)
Definition assign_none (cost : list (list Q)) : list nat * list nat := ([], []).

(** ** The matched fraction in binary64 *)

(** A Python [float] is an IEEE 754 binary64: precision 53, [emax] 1024.
    [float(n)] rounds the integer [n] to the nearest binary64, ties to
    even. *)
Definition float_of_int (n : Z) : spec_float := binary_normalize 53 1024 n 0 false.

(** The literal [1.0]. *)
Definition float_one : spec_float := SFone 53 1024.

(** [float(trace_idx) / max_common_len if max_common_len else 1.0], with the
    division of binary64: [max_common_len] is converted to a float, and the
    quotient is rounded to the nearest binary64. *)
Definition fraction_matched_binary64 (trace_idx max_common_len : nat) : spec_float :=
  if max_common_len =? 0 then float_one
  else SFdiv 53 1024 (float_of_int (Z.of_nat trace_idx))
                     (float_of_int (Z.of_nat max_common_len)).

(** The float stored under ["sim_max_common"] for a record: line 161 on the
    record's [diverge_idx] and [max_common_len]. *)
Definition sim_max_common_binary64 (rec : ComparisonRecord) : spec_float :=
  fraction_matched_binary64 (diverge_idx rec) (max_common_len rec).

(** The rational number a finite float stands for: [m * 2 ^ e], with its
    sign. *)
Definition float_value (x : spec_float) : option Q :=
  match x with
  | S754_zero _ => Some 0%Q
  | S754_finite s m e =>
      let v := match e with
               | Z0 => inject_Z (Zpos m)
               | Zpos k => inject_Z (Zpos m * 2 ^ Zpos k)
               | Zneg k => (Zpos m # 2 ^ k)%Q
               end in
      Some (if s then (- v)%Q else v)
  | S754_infinity _ | S754_nan => None
  end.

(** Two traces that agree on their first event only, out of three. *)
Definition one_of_three_real : list string :=
  ["ent a.B.c ()V B.java"; "ent a.B.d ()V B.java"; "xit a.B.d ()V B.java"].
Definition one_of_three_emu : list string :=
  ["ent a.B.c ()V B.java"; "ent a.B.e ()V B.java"; "xit a.B.e ()V B.java"].

(** * Properties *)

(** ** The error monad *)

Lemma rbind_Ok {A B : Type} (r : result A) (k : A -> result B) (b : B) :
  rbind r k = Ok b <-> exists a, r = Ok a /\ k a = Ok b.
Proof.
  destruct r as [a|e]; simpl; split.
  - intros H. exists a. split; [reflexivity | exact H].
  - intros (a' & Ha & H). injection Ha as <-. exact H.
  - discriminate.
  - intros (a' & Ha & _). discriminate.
Qed.

Lemma rmap_length {A B : Type} (f : A -> result B) (xs : list A) (ys : list B) :
  rmap f xs = Ok ys -> length ys = length xs.
Proof.
  revert ys. induction xs as [|x xs IH]; simpl; intros ys H.
  - injection H as <-. reflexivity.
  - apply rbind_Ok in H as (y & Hy & H). apply rbind_Ok in H as (ys' & Hys & H).
    injection H as <-. simpl. f_equal. apply IH. assumption.
Qed.

Lemma rmap_lookup {A B : Type} (f : A -> result B) (xs : list A) (ys : list B)
      (i : nat) (x : A) :
  rmap f xs = Ok ys -> xs !! i = Some x ->
  exists y, ys !! i = Some y /\ f x = Ok y.
Proof.
  revert ys i. induction xs as [|x0 xs IH]; simpl; intros ys i H Hi.
  - discriminate.
  - apply rbind_Ok in H as (y & Hy & H). apply rbind_Ok in H as (ys' & Hys & H).
    injection H as <-. destruct i as [|i]; simpl in *.
    + injection Hi as ->. eauto.
    + eapply IH; eauto.
Qed.

(** The accumulating loop of [compare_trace] collects, in order, the records
    of the iterations that produced one. *)
Lemma rfold_collect {A B : Type} (f : A -> result (option B)) (xs : list A)
      (acc out : list B) :
  rfold (fun l x => let* o := f x in Ok (l ++ option_list o)) acc xs = Ok out ->
  exists os, rmap f xs = Ok os /\ out = acc ++ concat (map option_list os).
Proof.
  revert acc out. induction xs as [|x xs IH]; simpl; intros acc out H.
  - injection H as <-. exists []. simpl. rewrite app_nil_r. auto.
  - apply rbind_Ok in H as (acc' & Hacc & H).
    apply rbind_Ok in Hacc as (o & Ho & Hacc). injection Hacc as <-.
    destruct (IH _ _ H) as (os & Hos & ->).
    exists (o :: os). rewrite Ho, Hos. simpl. rewrite <- app_assoc. auto.
Qed.

Lemma rfold_collect_elem {A B : Type} (f : A -> result (option B)) (xs : list A)
      (out : list B) (b : B) :
  rfold (fun l x => let* o := f x in Ok (l ++ option_list o)) [] xs = Ok out ->
  (b ∈ out <-> exists x, x ∈ xs /\ f x = Ok (Some b)).
Proof.
  intros H. apply rfold_collect in H as (os & Hos & ->). simpl.
  revert os Hos. induction xs as [|x xs IH]; simpl; intros os Hos.
  - injection Hos as <-. simpl. split.
    + intros Hb. inversion Hb.
    + intros (x & Hx & _). inversion Hx.
  - apply rbind_Ok in Hos as (o & Ho & Hos).
    apply rbind_Ok in Hos as (os' & Hos' & Hos). injection Hos as <-.
    simpl. rewrite elem_of_app, (IH _ Hos'). split.
    + intros [Hb | (x' & Hx' & Hf)].
      * exists x. split; [left|]. destruct o; simpl in Hb.
        -- apply list_elem_of_singleton in Hb. subst. assumption.
        -- inversion Hb.
      * exists x'. split; [right|]; assumption.
    + intros (x' & Hx' & Hf). apply elem_of_cons in Hx' as [-> | Hx'].
      * left. rewrite Hf in Ho. injection Ho as <-. simpl. left.
      * right. eauto.
Qed.

(** ** The lockstep scan *)

Lemma scan_loop_bounds (remaining trace_idx : nat) (a b : list string) :
  trace_idx <= scan_loop remaining trace_idx a b <= trace_idx + remaining.
Proof.
  revert trace_idx. induction remaining as [|r IH]; simpl; intros i.
  - lia.
  - case_bool_decide; [lia|]. specialize (IH (S i)). lia.
Qed.

Lemma scan_loop_agree (remaining trace_idx : nat) (a b : list string) (j : nat) :
  trace_idx <= j < scan_loop remaining trace_idx a b -> a !! j = b !! j.
Proof.
  revert trace_idx. induction remaining as [|r IH]; simpl; intros i Hj.
  - lia.
  - case_bool_decide as Hne; [lia|].
    destruct (decide (j = i)) as [->|Hji].
    + destruct (decide (a !! i = b !! i)); [assumption | contradiction].
    + apply (IH (S i)). lia.
Qed.

Lemma scan_loop_differ (remaining trace_idx : nat) (a b : list string) :
  scan_loop remaining trace_idx a b < trace_idx + remaining ->
  a !! scan_loop remaining trace_idx a b ≠ b !! scan_loop remaining trace_idx a b.
Proof.
  revert trace_idx. induction remaining as [|r IH]; simpl; intros i Hlt.
  - lia.
  - case_bool_decide as Hne; [assumption|]. apply IH. lia.
Qed.

(** Inside the loop both lists have an element at [trace_idx]: the two
    subscripts never raise. *)
Lemma common_prefix_in_range (a b : list string) (j : nat) :
  j < length a `min` length b -> is_Some (a !! j) /\ is_Some (b !! j).
Proof.
  intros Hj. split; apply lookup_lt_is_Some; lia.
Qed.

Lemma scan_loop_least (a b : list string) (j : nat) :
  j < length a `min` length b -> a !! j ≠ b !! j ->
  scan_loop (length a `min` length b) 0 a b <= j.
Proof.
  intros Hj Hne. destruct (decide (scan_loop (length a `min` length b) 0 a b <= j))
    as [|Hgt]; [assumption|].
  exfalso. apply Hne. apply (scan_loop_agree (length a `min` length b) 0). lia.
Qed.

Lemma scan_loop_same (remaining trace_idx : nat) (a : list string) :
  scan_loop remaining trace_idx a a = trace_idx + remaining.
Proof.
  revert trace_idx. induction remaining as [|r IH]; simpl; intros i.
  - lia.
  - case_bool_decide; [contradiction|]. rewrite IH. lia.
Qed.

(** ** Slices and context windows *)

Lemma py_slice_nat {A : Type} (t : list A) (lo hi : nat) :
  py_slice t (Z.of_nat lo) (Z.of_nat hi)
  = take (hi `min` length t - lo `min` length t) (drop (lo `min` length t) t).
Proof.
  unfold py_slice, slice_bound.
  assert (Hlo : (Z.of_nat lo <? 0)%Z = false) by (apply Z.ltb_ge; lia).
  assert (Hhi : (Z.of_nat hi <? 0)%Z = false) by (apply Z.ltb_ge; lia).
  rewrite Hlo, Hhi. f_equal; [|f_equal]; lia.
Qed.

Lemma py_slice_window (t : list string) (i : nat) :
  py_slice t (Z.max 0 (Z.of_nat i - 1)) (Z.of_nat i + 1) = window t i.
Proof.
  replace (Z.max 0 (Z.of_nat i - 1)) with (Z.of_nat (i - 1)) by lia.
  replace (Z.of_nat i + 1)%Z with (Z.of_nat (i + 1)) by lia.
  rewrite py_slice_nat. unfold window.
  destruct i as [|k].
  - destruct t as [|e t]; reflexivity.
  - replace (S k - 1) with k by lia.
    destruct (decide (k + 2 <= length t)) as [Hle|Hgt].
    + replace (_ - _) with 2 by lia. replace (k `min` length t) with k by lia.
      destruct (lookup_lt_is_Some_2 t k) as [e1 He1]; [lia|].
      destruct (lookup_lt_is_Some_2 t (S k)) as [e2 He2]; [lia|].
      rewrite He1, He2. simpl.
      rewrite (drop_S _ _ _ He1). simpl. rewrite (drop_S _ _ _ He2). reflexivity.
    + destruct (decide (k < length t)) as [Hlt|Hge].
      * replace (_ - _) with 1 by lia. replace (k `min` length t) with k by lia.
        destruct (lookup_lt_is_Some_2 t k) as [e1 He1]; [lia|].
        rewrite He1, (lookup_ge_None_2 t (S k)) by lia. simpl.
        rewrite (drop_S _ _ _ He1). simpl. reflexivity.
      * replace (_ - _) with 0 by lia.
        rewrite !lookup_ge_None_2 by lia. reflexivity.
Qed.

Lemma window_length (t : list string) (i : nat) :
  i < length t -> length (window t i) = if i =? 0 then 1 else 2.
Proof.
  intros Hi. unfold window. destruct i as [|k]; simpl.
  - destruct (lookup_lt_is_Some_2 t 0) as [e He]; [lia|]. rewrite He. reflexivity.
  - destruct (lookup_lt_is_Some_2 t k) as [e1 He1]; [lia|].
    destruct (lookup_lt_is_Some_2 t (S k)) as [e2 He2]; [lia|].
    rewrite He1, He2. reflexivity.
Qed.

Lemma context_Some (t : list string) (i n : nat) :
  i < n -> context t i n = Some (window t i).
Proof.
  intros Hi. unfold context. apply Nat.ltb_lt in Hi. rewrite Hi.
  rewrite py_slice_window. reflexivity.
Qed.

Lemma context_None (t : list string) (i n : nat) :
  ~ i < n -> context t i n = None.
Proof.
  intros Hi. unfold context. apply Nat.ltb_nlt in Hi. rewrite Hi. reflexivity.
Qed.

(** ** The matched fraction *)

Lemma fraction_matched_one (i n : nat) :
  i <= n -> ((fraction_matched i n == 1)%Q <-> i = n).
Proof.
  intros Hle. unfold fraction_matched.
  destruct (Nat.eqb_spec n 0) as [->|Hn].
  - split; [lia | reflexivity].
  - destruct n as [|n']; [lia|].
    unfold Qeq, Qdiv, Qmult, Qinv, inject_Z.
    change (Z.of_nat (S n')) with (Z.pos (Pos.of_succ_nat n')). cbn [Qnum Qden].
    lia.
Qed.

(** ** The scanner: divergence index, context window, matched fraction *)

Section Scanner.

Variables (tid_r : Z) (name_r : string) (tid_e : Z) (name_e : string) (sim : Q).

Lemma scan_pair_index_le (a b : list string) :
  diverge_idx (scan_pair tid_r name_r a tid_e name_e b sim)
  <= max_common_len (scan_pair tid_r name_r a tid_e name_e b sim).
Proof.
  simpl. pose proof (scan_loop_bounds (length a `min` length b) 0 a b). lia.
Qed.

Lemma scan_pair_context_length (a b : list string) (c : list string) :
  let r := scan_pair tid_r name_r a tid_e name_e b sim in
  real_trace r = Some c \/ e_trace r = Some c ->
  length c = if diverge_idx r =? 0 then 1 else 2.
Proof.
  simpl. set (n := length a `min` length b). set (i := scan_loop n 0 a b).
  destruct (decide (i < n)) as [Hlt|Hge].
  - rewrite !context_Some by assumption.
    intros [[= <-] | [= <-]]; apply window_length; lia.
  - rewrite !context_None by assumption. intros [?|?]; discriminate.
Qed.

(** An aligned pair with a mismatch has it after index [0]. *)
Lemma aligned_index_pos (a b : list string) :
  trace_aligned a b = true ->
  let r := scan_pair tid_r name_r a tid_e name_e b sim in
  diverge_idx r < max_common_len r -> 0 < diverge_idx r.
Proof.
  intros Hal. simpl. set (n := length a `min` length b). intros Hlt.
  destruct (decide (scan_loop n 0 a b = 0)) as [H0|]; [|lia]. exfalso.
  pose proof (scan_loop_differ n 0 a b) as Hd. rewrite H0 in *.
  unfold trace_aligned in Hal.
  repeat case_bool_decide; simpl in Hal; try discriminate; try lia.
  apply Hd; [lia | assumption].
Qed.

End Scanner.

(** C3: for a scanned pair of filtered sequences [a] (device) and [b]
    (emulator), [diverge_idx] is the least index below
    [min (length a) (length b)] at which the two sequences differ: the
    sequences agree before it, differ at it when it is below the common
    length, and no smaller index carries a mismatch.  When the sequences
    agree on the whole common prefix, the index is the common length and no
    context is reported.  The sequences of the specification's example are
    scanned and diverge at index 1. *)
Theorem C3_divergence_index_is_first_mismatch
        (tid_r : Z) (name_r : string) (a : list string)
        (tid_e : Z) (name_e : string) (b : list string) (sim : Q) :
  let r := scan_pair tid_r name_r a tid_e name_e b sim in
  max_common_len r = length a `min` length b
  /\ diverge_idx r <= max_common_len r
  /\ (forall j, j < diverge_idx r -> a !! j = b !! j)
  /\ (diverge_idx r < max_common_len r ->
      exists ea eb, a !! diverge_idx r = Some ea /\ b !! diverge_idx r = Some eb
                    /\ ea ≠ eb)
  /\ (forall j, j < max_common_len r -> a !! j ≠ b !! j -> diverge_idx r <= j)
  /\ ((forall j, j < max_common_len r -> a !! j = b !! j) ->
      diverge_idx r = max_common_len r /\ real_trace r = None /\ e_trace r = None)
  /\ trace_aligned example_A example_B = true
  /\ diverge_idx (scan_pair tid_r name_r example_A tid_e name_e example_B sim) = 1.
Proof.
  cbv zeta. cbn [max_common_len diverge_idx real_trace e_trace scan_pair].
  set (n := length a `min` length b). set (i := scan_loop n 0 a b).
  pose proof (scan_loop_bounds n 0 a b) as Hb. fold i in Hb.
  split; [reflexivity|]. split; [lia|]. split; [|split; [|split; [|split]]].
  - intros j Hj. apply (scan_loop_agree n 0). fold i. lia.
  - intros Hlt. pose proof (scan_loop_differ n 0 a b) as Hd. fold i in Hd.
    destruct (common_prefix_in_range a b i Hlt) as [[ea Hea] [eb Heb]].
    exists ea, eb. repeat split; try assumption.
    intros ->. apply Hd; [lia | congruence].
  - intros j Hj Hne. apply scan_loop_least; assumption.
  - intros Hall. assert (i = n) as Hin.
    { destruct (decide (i < n)) as [Hlt|]; [|lia]. exfalso.
      apply (scan_loop_differ n 0 a b); fold i; [lia | apply Hall; assumption]. }
    rewrite !context_None by lia. auto.
  - split; reflexivity.
Qed.

(** C5: when the scan of a pair stops at a divergence index [i] below
    [max_common_len], the device-side context is the slice
    [[max(0, i-1), i+1)] of the device sequence and the emulator-side context
    the same slice of the emulator sequence, that is the event before [i]
    (when [i > 0]) followed by the event at [i]; when no divergence is found
    within the common prefix both contexts are absent. *)
Theorem C5_context_window
        (tid_r : Z) (name_r : string) (a : list string)
        (tid_e : Z) (name_e : string) (b : list string) (sim : Q) :
  let r := scan_pair tid_r name_r a tid_e name_e b sim in
  let i := diverge_idx r in
  (i < max_common_len r ->
     real_trace r = Some (py_slice a (Z.max 0 (Z.of_nat i - 1)) (Z.of_nat i + 1))
     /\ e_trace r = Some (py_slice b (Z.max 0 (Z.of_nat i - 1)) (Z.of_nat i + 1))
     /\ real_trace r = Some (window a i)
     /\ e_trace r = Some (window b i)
     /\ length (window a i) = (if i =? 0 then 1 else 2)
     /\ length (window b i) = (if i =? 0 then 1 else 2))
  /\ (i = max_common_len r -> real_trace r = None /\ e_trace r = None).
Proof.
  cbv zeta. cbn [max_common_len diverge_idx real_trace e_trace scan_pair].
  set (n := length a `min` length b). set (i := scan_loop n 0 a b).
  split.
  - intros Hlt. rewrite <- !py_slice_window. unfold context.
    apply Nat.ltb_lt in Hlt as Hltb. rewrite Hltb.
    repeat split; rewrite py_slice_window; apply window_length; lia.
  - intros Heq. rewrite !context_None by lia. auto.
Qed.

(** ** The records of [compare_trace] *)

Lemma list_get_Ok {A : Type} (l : list A) (i : nat) (a : A) :
  list_get l i = Ok a <-> l !! i = Some a.
Proof.
  unfold list_get. destruct (l !! i); split; intros H; congruence.
Qed.

Lemma dict_get_Ok {V : Type} (d : gmap Z V) (k : Z) (v : V) :
  dict_get d k = Ok v <-> d !! k = Some v.
Proof.
  unfold dict_get. destruct (d !! k); split; intros H; congruence.
Qed.

(** What one iteration of the final loop does with a pair [(x, y)] of the
    matching: both traces are cleaned, and a record is produced exactly when
    the cleaned traces are aligned. *)
Lemma compare_matched_Ok (real_info emu_info : gmap Z thread)
      (r_tid_list e_tid_list : list Z) (sim_matrix : list (list Q))
      (x y : nat) (o : option ComparisonRecord) :
  compare_matched real_info emu_info r_tid_list e_tid_list sim_matrix (x, y) = Ok o <->
  exists tid_r thr_r a tid_e thr_e b,
    r_tid_list !! x = Some tid_r /\ real_info !! tid_r = Some thr_r
    /\ clean_trace (trace thr_r) = Ok a
    /\ e_tid_list !! y = Some tid_e /\ emu_info !! tid_e = Some thr_e
    /\ clean_trace (trace thr_e) = Ok b
    /\ ((trace_aligned a b = true
         /\ exists c, matrix_get sim_matrix x y = Ok c
              /\ o = Some (scan_pair tid_r (name thr_r) a tid_e (name thr_e) b (- c)%Q))
        \/ (trace_aligned a b = false /\ o = None)).
Proof.
  unfold compare_matched. split.
  - intros H.
    apply rbind_Ok in H as (tid_r & Htr & H). apply list_get_Ok in Htr.
    apply rbind_Ok in H as (thr_r & Hr & H). apply dict_get_Ok in Hr.
    apply rbind_Ok in H as (a & Ha & H).
    apply rbind_Ok in H as (tid_e & Hte & H). apply list_get_Ok in Hte.
    apply rbind_Ok in H as (thr_e & He & H). apply dict_get_Ok in He.
    apply rbind_Ok in H as (b & Hb & H).
    exists tid_r, thr_r, a, tid_e, thr_e, b. repeat (split; [assumption|]).
    destruct (trace_aligned a b).
    + left. split; [reflexivity|].
      apply rbind_Ok in H as (c & Hc & H). injection H as <-. eauto.
    + right. injection H as <-. auto.
  - intros (tid_r & thr_r & a & tid_e & thr_e & b & Htr & Hr & Ha & Hte & He & Hb & H).
    apply list_get_Ok in Htr, Hte. apply dict_get_Ok in Hr, He.
    rewrite Htr. simpl. rewrite Hr. simpl. rewrite Ha. simpl.
    rewrite Hte. simpl. rewrite He. simpl. rewrite Hb. simpl.
    destruct H as [(Hal & c & Hc & ->) | (Hal & ->)]; rewrite Hal.
    + rewrite Hc. reflexivity.
    + reflexivity.
Qed.

(** The records written out are those of the pairs of the matching, in the
    order of the matching. *)
Lemma compare_trace_objs_elem (lsa : list (list Q) -> list nat * list nat)
      (real_obj emu_obj : trace_obj) (out : list ComparisonRecord)
      (r : ComparisonRecord) :
  compare_trace_objs lsa real_obj emu_obj = Ok out ->
  exists sim_matrix,
    build_sim_matrix (thread_info real_obj) (thread_info emu_obj)
                     (sorted_keys (thread_info real_obj))
                     (sorted_keys (thread_info emu_obj)) = Ok sim_matrix
    /\ (r ∈ out <->
        exists xy, xy ∈ zip (lsa sim_matrix).1 (lsa sim_matrix).2
          /\ compare_matched (thread_info real_obj) (thread_info emu_obj)
                             (sorted_keys (thread_info real_obj))
                             (sorted_keys (thread_info emu_obj)) sim_matrix xy
             = Ok (Some r)).
Proof.
  unfold compare_trace_objs. intros H.
  apply rbind_Ok in H as (sim_matrix & HM & H). exists sim_matrix.
  split; [assumption|].
  destruct (lsa sim_matrix) as [r_idx e_idx]. simpl.
  apply (rfold_collect_elem _ _ _ r) in H. exact H.
Qed.

(** Every record written out is the scan of an aligned pair of cleaned
    traces. *)
Lemma compare_trace_record (lsa : list (list Q) -> list nat * list nat)
      (real emu : decoded_trace) (out : list ComparisonRecord)
      (r : ComparisonRecord) :
  compare_trace lsa real emu = Ok out -> r ∈ out ->
  exists tid_r name_r a tid_e name_e b s,
    trace_aligned a b = true
    /\ r = scan_pair tid_r name_r a tid_e name_e b s.
Proof.
  unfold compare_trace. intros H Hr.
  apply rbind_Ok in H as (real_obj & _ & H).
  apply rbind_Ok in H as (emu_obj & _ & H).
  destruct (compare_trace_objs_elem _ _ _ _ r H) as (M & _ & Hiff).
  destruct Hiff as [Hiff _]. destruct (Hiff Hr) as ([x y] & _ & Hxy).
  apply compare_matched_Ok in Hxy
    as (tid_r & thr_r & a & tid_e & thr_e & b & _ & _ & _ & _ & _ & _ & Hcase).
  destruct Hcase as [(Hal & c & _ & [= ->]) | (_ & ?)]; [|discriminate].
  eauto 10.
Qed.

(** C10: in every record written by [compare_trace], the two context fields
    are absent together; they are absent exactly when [diverge_idx] equals
    [max_common_len], which is exactly when the matched fraction is [1]; a
    context that is present has length 1 (divergence at index 0) or 2. *)
Theorem C10_record_invariants (lsa : list (list Q) -> list nat * list nat)
        (real emu : decoded_trace) (out : list ComparisonRecord)
        (r : ComparisonRecord) :
  compare_trace lsa real emu = Ok out -> r ∈ out ->
  (real_trace r = None <-> e_trace r = None)
  /\ (real_trace r = None <-> diverge_idx r = max_common_len r)
  /\ (diverge_idx r = max_common_len r <-> (sim_max_common r == 1)%Q)
  /\ (forall c, real_trace r = Some c \/ e_trace r = Some c ->
        (diverge_idx r = 0 /\ length c = 1) \/ (0 < diverge_idx r /\ length c = 2)).
Proof.
  intros H Hr.
  destruct (compare_trace_record _ _ _ _ _ H Hr)
    as (tid_r & name_r & a & tid_e & name_e & b & s & Hal & ->).
  pose proof (scan_pair_index_le tid_r name_r tid_e name_e s a b) as Hle.
  pose proof (scan_pair_context_length tid_r name_r tid_e name_e s a b) as Hlen.
  cbv zeta in Hlen.
  revert Hle Hlen. cbn [max_common_len diverge_idx real_trace e_trace sim_max_common scan_pair].
  set (n := length a `min` length b). set (i := scan_loop n 0 a b).
  intros Hle Hlen.
  destruct (decide (i < n)) as [Hlt|Hge].
  - rewrite !context_Some by assumption.
    repeat split; try discriminate; try lia.
    + intros Heq. apply fraction_matched_one in Heq; lia.
    + intros c Hc. specialize (Hlen c). rewrite !context_Some in Hlen by assumption.
      specialize (Hlen Hc). destruct (Nat.eqb_spec i 0); [left | right]; lia.
  - rewrite !context_None by assumption.
    repeat split; try reflexivity; try lia.
    + intros _. apply fraction_matched_one; lia.
    + intros c [?|?]; discriminate.
Qed.

(** In fact a context that is present always has two events: a record is
    only written for an aligned pair, whose first events agree. *)
Lemma compare_trace_context_length (lsa : list (list Q) -> list nat * list nat)
      (real emu : decoded_trace) (out : list ComparisonRecord)
      (r : ComparisonRecord) (c : list string) :
  compare_trace lsa real emu = Ok out -> r ∈ out ->
  real_trace r = Some c \/ e_trace r = Some c -> length c = 2.
Proof.
  intros H Hr Hc.
  destruct (compare_trace_record _ _ _ _ _ H Hr)
    as (tid_r & name_r & a & tid_e & name_e & b & s & Hal & ->).
  pose proof (scan_pair_context_length tid_r name_r tid_e name_e s a b c Hc) as Hlen.
  pose proof (aligned_index_pos tid_r name_r tid_e name_e s a b Hal) as Hpos.
  cbv zeta in Hpos.
  assert (diverge_idx (scan_pair tid_r name_r a tid_e name_e b s)
          < max_common_len (scan_pair tid_r name_r a tid_e name_e b s)) as Hlt.
  { revert Hc. cbn [max_common_len diverge_idx real_trace e_trace scan_pair].
    set (n := length a `min` length b). set (i := scan_loop n 0 a b).
    destruct (decide (i < n)); [intros; assumption|].
    rewrite !context_None by assumption. intros [?|?]; discriminate. }
  specialize (Hpos Hlt).
  destruct (Nat.eqb_spec (diverge_idx (scan_pair tid_r name_r a tid_e name_e b s)) 0);
    [lia | assumption].
Qed.

(** ** Identifiers and similarity *)

Lemma rmap_returns {A B : Type} (f : A -> result B) (xs : list A) :
  returns (rmap f xs) <-> Forall (fun x => returns (f x)) xs.
Proof.
  induction xs as [|x xs IH]; simpl.
  - split; [constructor | intros _; eexists; reflexivity].
  - split.
    + intros [ys H]. apply rbind_Ok in H as (y & Hy & H).
      apply rbind_Ok in H as (ys' & Hys & _).
      constructor; [eexists; eassumption | apply IH; eexists; eassumption].
    + intros H. inversion H as [|? ? [y Hy] Hxs]; subst.
      apply IH in Hxs as [ys Hys]. rewrite Hy, Hys. simpl. eexists; reflexivity.
Qed.

(** The only exception of [trace_str_to_class_method] is the [IndexError] of
    the subscript. *)
Lemma skip_to_alpha_Raise (s : string) (e : exn) :
  skip_to_alpha s = Raise e -> e = IndexError.
Proof.
  induction s as [|c s IH]; simpl.
  - congruence.
  - destruct (isalpha c); [discriminate | exact IH].
Qed.

(** The set built by the two [for] loops of [trace_similarity] is the set of
    the identifiers of the events; the loops raise when an event has no
    identifier. *)
Lemma class_methods_acc (trace_list : list string) (acc : gset string) :
  rfold (fun s trace_str =>
           let* cm := trace_str_to_class_method trace_str in Ok (s ∪ {[ cm ]}))
        acc trace_list
  = let* ids := rmap trace_str_to_class_method trace_list in
    Ok (acc ∪ list_to_set ids).
Proof.
  revert acc. induction trace_list as [|ev evs IH]; simpl; intros acc.
  - f_equal. symmetry. apply union_empty_r_L.
  - destruct (trace_str_to_class_method ev) as [cm|e]; simpl; [|reflexivity].
    rewrite IH. destruct (rmap trace_str_to_class_method evs) as [ids|e]; simpl;
      [|reflexivity].
    f_equal. symmetry. apply assoc_L. apply _.
Qed.

Lemma class_methods_eq (trace_list : list string) :
  class_methods trace_list
  = let* ids := rmap trace_str_to_class_method trace_list in
    Ok (list_to_set ids).
Proof.
  unfold class_methods. rewrite class_methods_acc.
  destruct (rmap trace_str_to_class_method trace_list); simpl; [|reflexivity].
  f_equal. apply union_empty_l_L.
Qed.

Lemma rmap_id_Raise (trace_list : list string) (e : exn) :
  rmap trace_str_to_class_method trace_list = Raise e -> e = IndexError.
Proof.
  induction trace_list as [|ev evs IH]; simpl; [discriminate|].
  destruct (trace_str_to_class_method ev) as [cm|e'] eqn:Hev; simpl.
  - destruct (rmap trace_str_to_class_method evs) as [ids|e'']; simpl.
    + discriminate.
    + intros [= <-]. apply IH. reflexivity.
  - intros [= <-]. eapply skip_to_alpha_Raise. exact Hev.
Qed.

Lemma float_div_Ok (a b : Z) (q : Q) :
  float_div a b = Ok q <-> b ≠ 0%Z /\ q = (inject_Z a / inject_Z b)%Q.
Proof.
  unfold float_div. destruct (Z.eqb_spec b 0).
  - split; [discriminate | intros [? _]; contradiction].
  - split; [intros [= <-]; auto | intros [_ ->]; reflexivity].
Qed.

Lemma string_length_0 (s : string) : String.length s = 0 <-> s = EmptyString.
Proof. destruct s; simpl; split; congruence. Qed.

Lemma list_to_set_empty_iff (ids : list string) :
  (list_to_set ids : gset string) = ∅ <-> ids = [].
Proof.
  destruct ids as [|i ids]; simpl; split; try reflexivity; try discriminate.
  intros H. assert (i ∈ (∅ : gset string)) as Hi.
  { rewrite <- H. apply elem_of_union_l, elem_of_singleton. reflexivity. }
  exfalso. exact (not_elem_of_empty i Hi).
Qed.

Lemma union_size_0 (a b : gset string) :
  size (a ∪ b) = 0 <-> a = ∅ /\ b = ∅.
Proof.
  rewrite size_empty_iff. split.
  - intros H. apply empty_union_L. apply leibniz_equiv. exact H.
  - intros [-> ->]. rewrite union_empty_l_L. reflexivity.
Qed.

(** The identifier of an event line does not depend on its kind or on its
    exclamation marks: it is what follows, from the first letter on. *)
Lemma class_method_of_event (kind : string) (n : nat) (rest : string) :
  is_kind kind ->
  trace_str_to_class_method (kind +:+ bangs n +:+ " " +:+ rest) = skip_to_alpha rest.
Proof.
  assert (Hb : forall k, skip_to_alpha (bangs k +:+ " " +:+ rest) = skip_to_alpha rest).
  { induction k as [|k IH]; simpl; [reflexivity | exact IH]. }
  intros [-> | [-> | ->]]; unfold trace_str_to_class_method;
    (destruct n as [|n']; simpl; [reflexivity | apply Hb]).
Qed.

(** The loop of [trace_str_to_class_method] read on indices: the result is
    [trace_str[k:]] for the least index [k >= 4] that holds a letter, every
    index from [4] up to [k] being inside the string. *)
Lemma str_from_get (n k : nat) (s : string) :
  String.get k (str_from n s) = String.get (n + k) s.
Proof.
  revert s. induction n as [|n IH]; intros s; simpl; [reflexivity|].
  destruct s as [|c s]; simpl; [destruct k; reflexivity | apply IH].
Qed.

Lemma str_from_add (n k : nat) (s : string) :
  str_from k (str_from n s) = str_from (n + k) s.
Proof.
  revert s. induction n as [|n IH]; intros s; simpl; [reflexivity|].
  destruct s as [|c s]; simpl; [destruct k; reflexivity | apply IH].
Qed.

Lemma skip_to_alpha_index (s id : string) :
  skip_to_alpha s = Ok id <->
  exists k c, String.get k s = Some c /\ isalpha c = true
    /\ (forall j, j < k -> exists d, String.get j s = Some d /\ isalpha d = false)
    /\ id = str_from k s.
Proof.
  induction s as [|c s IH]; simpl.
  - split; [discriminate|]. intros (k & c & Hget & _). destruct k; discriminate.
  - destruct (isalpha c) eqn:Hc.
    + split.
      * intros [= <-]. exists 0, c. repeat split; try assumption. intros j Hj. lia.
      * intros (k & c' & Hget & Hc' & Hbefore & ->). destruct k as [|k]; [reflexivity|].
        destruct (Hbefore 0) as (d & Hd & Hfalse); [lia|].
        simpl in Hd. injection Hd as <-. congruence.
    + rewrite IH. split.
      * intros (k & c' & Hget & Hc' & Hbefore & ->). exists (S k), c'.
        repeat split; try assumption.
        intros [|j] Hj; simpl; [eauto | apply Hbefore; lia].
      * intros (k & c' & Hget & Hc' & Hbefore & ->). destruct k as [|k].
        -- simpl in Hget. injection Hget as <-. congruence.
        -- exists k, c'. repeat split; try assumption.
           intros j Hj. apply (Hbefore (S j)). lia.
Qed.

Lemma trace_str_to_class_method_index (trace_str id : string) :
  trace_str_to_class_method trace_str = Ok id <->
  exists trace_idx c,
    4 <= trace_idx /\ String.get trace_idx trace_str = Some c /\ isalpha c = true
    /\ (forall j, 4 <= j < trace_idx ->
          exists d, String.get j trace_str = Some d /\ isalpha d = false)
    /\ id = str_from trace_idx trace_str.
Proof.
  unfold trace_str_to_class_method. simpl String.length. rewrite skip_to_alpha_index.
  split.
  - intros (k & c & Hget & Hc & Hbefore & ->).
    rewrite str_from_get in Hget. rewrite str_from_add.
    exists (4 + k), c. repeat split; try assumption; [lia|].
    intros j Hj. destruct (Hbefore (j - 4)) as (d & Hd & Hfalse); [lia|].
    rewrite str_from_get in Hd. replace (4 + (j - 4)) with j in Hd by lia. eauto.
  - intros (i & c & Hi & Hget & Hc & Hbefore & ->).
    exists (i - 4), c. rewrite str_from_get, str_from_add.
    replace (4 + (i - 4)) with i by lia. repeat split; try assumption.
    intros j Hj. destruct (Hbefore (4 + j)) as (d & Hd & Hfalse); [lia|].
    exists d. rewrite str_from_get. auto.
Qed.

Lemma skip_to_alpha_app (s r m : string) :
  skip_to_alpha s = Ok m -> skip_to_alpha (s +:+ r) = Ok (m +:+ r).
Proof.
  induction s as [|c s IH]; simpl; [discriminate|].
  destruct (isalpha c); [intros [= <-]; reflexivity | exact IH].
Qed.


Lemma trace_similarity_Ok (name_a : string) (trace_a : list string)
      (name_b : string) (trace_b : list string) (q : Q) :
  trace_similarity name_a trace_a name_b trace_b = Ok q <->
  exists ids_a ids_b,
    rmap trace_str_to_class_method trace_a = Ok ids_a
    /\ rmap trace_str_to_class_method trace_b = Ok ids_b
    /\ String.length name_a `max` String.length name_b ≠ 0
    /\ size ((list_to_set ids_a : gset string) ∪ list_to_set ids_b) ≠ 0
    /\ q = ((inject_Z (Z.of_nat (String.length (commonprefix name_a name_b)))
             / inject_Z (Z.of_nat (String.length name_a `max` String.length name_b)))
            * jaccard (list_to_set ids_a) (list_to_set ids_b))%Q.
Proof.
  unfold trace_similarity. rewrite !class_methods_eq. split.
  - intros H.
    apply rbind_Ok in H as (sa & Ha & H). apply rbind_Ok in Ha as (ids_a & Ha & [= <-]).
    apply rbind_Ok in H as (sb & Hb & H). apply rbind_Ok in Hb as (ids_b & Hb & [= <-]).
    apply rbind_Ok in H as (ns & Hns & H). apply float_div_Ok in Hns as [Hn ->].
    apply rbind_Ok in H as (cs & Hcs & H). apply float_div_Ok in Hcs as [Hc ->].
    injection H as <-. exists ids_a, ids_b. repeat split; try assumption; lia.
  - intros (ids_a & ids_b & Ha & Hb & Hn & Hc & ->).
    rewrite Ha, Hb. simpl. unfold float_div.
    destruct (Z.eqb_spec (Z.of_nat (String.length name_a `max` String.length name_b)) 0);
      [lia|]. simpl.
    destruct (Z.eqb_spec (Z.of_nat (size ((list_to_set ids_a : gset string)
                                            ∪ list_to_set ids_b))) 0); [lia|].
    reflexivity.
Qed.

Lemma trace_similarity_Raise (name_a : string) (trace_a : list string)
      (name_b : string) (trace_b : list string) (e : exn) :
  trace_similarity name_a trace_a name_b trace_b = Raise e ->
  e = IndexError \/ e = ZeroDivisionError.
Proof.
  unfold trace_similarity. rewrite !class_methods_eq.
  destruct (rmap trace_str_to_class_method trace_a) as [ids_a|ea] eqn:Ha; simpl.
  2:{ intros [= <-]. left. eapply rmap_id_Raise. exact Ha. }
  destruct (rmap trace_str_to_class_method trace_b) as [ids_b|eb] eqn:Hb; simpl.
  2:{ intros [= <-]. left. eapply rmap_id_Raise. exact Hb. }
  unfold float_div.
  destruct (Z.eqb_spec (Z.of_nat (String.length name_a `max` String.length name_b)) 0);
    simpl; [intros [= <-]; auto|].
  destruct (Z.eqb_spec (Z.of_nat (size ((list_to_set ids_a : gset string)
                                          ∪ list_to_set ids_b))) 0);
    simpl; [intros [= <-]; auto | discriminate].
Qed.

Lemma names_max_0 (name_a name_b : string) :
  String.length name_a `max` String.length name_b = 0 <-> name_a = EmptyString /\ name_b = EmptyString.
Proof. rewrite <- !string_length_0. lia. Qed.

Lemma ids_union_0 (trace_a trace_b ids_a ids_b : list string) :
  rmap trace_str_to_class_method trace_a = Ok ids_a ->
  rmap trace_str_to_class_method trace_b = Ok ids_b ->
  size ((list_to_set ids_a : gset string) ∪ list_to_set ids_b) = 0
  <-> trace_a = [] /\ trace_b = [].
Proof.
  intros Ha Hb. rewrite union_size_0, !list_to_set_empty_iff.
  apply rmap_length in Ha, Hb.
  split; intros [H1 H2]; subst; simpl in *.
  - split; apply length_zero_iff_nil; congruence.
  - split; apply length_zero_iff_nil; congruence.
Qed.

(** An event either has an identifier or makes the index run past the end
    of the string. *)
Lemma rmap_id_Raise_iff (trace_list : list string) :
  rmap trace_str_to_class_method trace_list = Raise IndexError
  <-> Exists (fun ev => trace_str_to_class_method ev = Raise IndexError) trace_list.
Proof.
  induction trace_list as [|ev evs IH]; simpl.
  - split; [discriminate | intros H; inversion H].
  - rewrite Exists_cons, <- IH.
    destruct (trace_str_to_class_method ev) as [cm|e] eqn:Hev; simpl.
    + destruct (rmap trace_str_to_class_method evs) as [ids|e']; simpl.
      * split; [discriminate | intros [H|H]; discriminate].
      * split; [intros H; right; exact H | intros [H|H]; [discriminate | exact H]].
    + apply skip_to_alpha_Raise in Hev as ->. split; auto.
Qed.

Lemma identifier_or_IndexError (trace_list : list string) :
  Forall (fun ev => returns (trace_str_to_class_method ev)) trace_list
  \/ Exists (fun ev => trace_str_to_class_method ev = Raise IndexError) trace_list.
Proof.
  induction trace_list as [|ev evs [IH|IH]].
  - left. constructor.
  - destruct (trace_str_to_class_method ev) as [cm|e] eqn:Hev.
    + left. constructor; [rewrite Hev; eexists; reflexivity | exact IH].
    + right. apply Exists_cons_hd. rewrite Hev. f_equal.
      eapply skip_to_alpha_Raise. exact Hev.
  - right. apply Exists_cons_tl. exact IH.
Qed.

(** C8, as the code has it: [trace_similarity] returns a score exactly when
    every event of both traces has an identifier, one of the two names is
    not empty and one of the two traces is not empty.  It raises otherwise:
    [IndexError] exactly when some event of the two traces has no
    identifier (the two sets are built before anything is divided, so this
    is the exception also when the names or the traces are empty), and
    [ZeroDivisionError] exactly when every event has an identifier and both
    names are empty or both traces are empty (the union of the method sets
    is empty).  No similarity of [0] is produced in these cases, and no
    other exception is raised. *)
Theorem C8_similarity_returns_iff (name_a : string) (trace_a : list string)
        (name_b : string) (trace_b : list string) :
  (returns (trace_similarity name_a trace_a name_b trace_b) <->
     Forall (fun ev => returns (trace_str_to_class_method ev)) (trace_a ++ trace_b)
     /\ (name_a ≠ EmptyString \/ name_b ≠ EmptyString)
     /\ (trace_a ≠ [] \/ trace_b ≠ []))
  /\ (trace_similarity name_a trace_a name_b trace_b = Raise IndexError <->
        Exists (fun ev => trace_str_to_class_method ev = Raise IndexError)
               (trace_a ++ trace_b))
  /\ (trace_similarity name_a trace_a name_b trace_b = Raise ZeroDivisionError <->
        Forall (fun ev => returns (trace_str_to_class_method ev)) (trace_a ++ trace_b)
        /\ ((name_a = EmptyString /\ name_b = EmptyString)
            \/ (trace_a = [] /\ trace_b = [])))
  /\ (forall e, trace_similarity name_a trace_a name_b trace_b = Raise e ->
        e = IndexError \/ e = ZeroDivisionError).
Proof.
  assert (Hiff : returns (trace_similarity name_a trace_a name_b trace_b) <->
     Forall (fun ev => returns (trace_str_to_class_method ev)) (trace_a ++ trace_b)
     /\ (name_a ≠ EmptyString \/ name_b ≠ EmptyString)
     /\ (trace_a ≠ [] \/ trace_b ≠ [])).
  { rewrite Forall_app, <- !rmap_returns. split.
    - intros [q Hq]. apply trace_similarity_Ok in Hq
        as (ids_a & ids_b & Ha & Hb & Hn & Hc & _).
      split; [split; eexists; eassumption|]. split.
      + rewrite names_max_0 in Hn.
        destruct (decide (name_a = EmptyString)); [|auto].
        destruct (decide (name_b = EmptyString)); [|auto]. tauto.
      + rewrite (ids_union_0 _ _ _ _ Ha Hb) in Hc.
        destruct trace_a; [|left; discriminate].
        destruct trace_b; [|right; discriminate]. tauto.
    - intros ([[ids_a Ha] [ids_b Hb]] & Hn & Hc).
      eexists. apply trace_similarity_Ok. exists ids_a, ids_b.
      repeat split; try assumption.
      + rewrite names_max_0. tauto.
      + rewrite (ids_union_0 _ _ _ _ Ha Hb). tauto. }
  assert (Hidx : trace_similarity name_a trace_a name_b trace_b = Raise IndexError <->
     Exists (fun ev => trace_str_to_class_method ev = Raise IndexError)
            (trace_a ++ trace_b)).
  { rewrite Exists_app, <- !rmap_id_Raise_iff.
    unfold trace_similarity. rewrite !class_methods_eq.
    destruct (rmap trace_str_to_class_method trace_a) as [ids_a|ea] eqn:Ha; simpl.
    - destruct (rmap trace_str_to_class_method trace_b) as [ids_b|eb] eqn:Hb; simpl.
      + unfold float_div.
        destruct (Z.eqb_spec (Z.of_nat (String.length name_a `max` String.length name_b)) 0);
          simpl; [split; [discriminate | intros [H|H]; discriminate]|].
        destruct (Z.eqb_spec (Z.of_nat (size ((list_to_set ids_a : gset string)
                                                ∪ list_to_set ids_b))) 0);
          simpl; split; try discriminate; intros [H|H]; discriminate.
      + rewrite (rmap_id_Raise _ _ Hb). split; auto.
    - rewrite (rmap_id_Raise _ _ Ha). split; auto. }
  assert (Hzero : trace_similarity name_a trace_a name_b trace_b = Raise ZeroDivisionError <->
     Forall (fun ev => returns (trace_str_to_class_method ev)) (trace_a ++ trace_b)
     /\ ((name_a = EmptyString /\ name_b = EmptyString)
         \/ (trace_a = [] /\ trace_b = []))).
  { split.
    - intros Hz.
      assert (Hnot : ~ returns (trace_similarity name_a trace_a name_b trace_b)).
      { rewrite Hz. intros [q Hq]. discriminate. }
      assert (Hall : Forall (fun ev => returns (trace_str_to_class_method ev))
                            (trace_a ++ trace_b)).
      { destruct (identifier_or_IndexError (trace_a ++ trace_b)) as [H|H]; [exact H|].
        apply Hidx in H. rewrite Hz in H. discriminate. }
      split; [exact Hall|].
      destruct (decide (name_a = EmptyString)) as [Hna|Hna];
        [|destruct trace_a; [|exfalso; apply Hnot, Hiff; split; [exact Hall|];
                               split; [left; exact Hna | left; discriminate]]].
      + destruct (decide (name_b = EmptyString)) as [Hnb|Hnb]; [left; tauto|].
        destruct trace_a; [|exfalso; apply Hnot, Hiff; split; [exact Hall|];
                             split; [right; exact Hnb | left; discriminate]].
        destruct trace_b; [right; tauto|].
        exfalso; apply Hnot, Hiff; split; [exact Hall|];
          split; [right; exact Hnb | right; discriminate].
      + destruct trace_b; [right; tauto|].
        exfalso; apply Hnot, Hiff; split; [exact Hall|];
          split; [left; exact Hna | right; discriminate].
    - intros [Hids Hempty].
      assert (Hnot : ~ returns (trace_similarity name_a trace_a name_b trace_b)).
      { rewrite Hiff. tauto. }
      clear Hiff Hidx.
      destruct (trace_similarity name_a trace_a name_b trace_b) as [q|e] eqn:Hq.
      + exfalso. apply Hnot. eexists. reflexivity.
      + f_equal. revert Hq. unfold trace_similarity. rewrite !class_methods_eq.
        rewrite Forall_app, <- !rmap_returns in Hids.
        destruct Hids as [[ids_a Ha] [ids_b Hb]]. rewrite Ha, Hb. simpl.
        unfold float_div.
        destruct (Z.eqb_spec (Z.of_nat (String.length name_a `max` String.length name_b)) 0);
          simpl; [congruence|].
        destruct (Z.eqb_spec (Z.of_nat (size ((list_to_set ids_a : gset string)
                                                ∪ list_to_set ids_b))) 0);
          simpl; [congruence | discriminate]. }
  split; [exact Hiff|]. split; [exact Hidx|]. split; [exact Hzero|].
  apply trace_similarity_Raise.
Qed.

(** C8 as stated fails: with two empty names, and with two empty method
    sets, the computation raises instead of giving [0]. *)
Lemma C8_counterexample :
  trace_similarity EmptyString ["ent a.B.c ()V B.java"] EmptyString ["ent a.B.c ()V B.java"]
  = Raise ZeroDivisionError
  /\ trace_similarity "main" [] "main" [] = Raise ZeroDivisionError.
Proof. split; reflexivity. Qed.

Lemma C8_witness :
  returns (trace_similarity "main" ["ent a.B.c ()V B.java"] EmptyString [])
  /\ trace_similarity EmptyString ["ent a.B.c ()V B.java"] EmptyString []
     = Raise ZeroDivisionError
  /\ trace_similarity EmptyString ["ent 123 456 789"] EmptyString [] = Raise IndexError.
Proof.
  pose proof (C8_similarity_returns_iff "main" ["ent a.B.c ()V B.java"] EmptyString [])
    as (Hiff & _ & _ & _).
  pose proof (C8_similarity_returns_iff EmptyString ["ent a.B.c ()V B.java"] EmptyString [])
    as (_ & _ & Hzero & _).
  pose proof (C8_similarity_returns_iff EmptyString ["ent 123 456 789"] EmptyString [])
    as (_ & Hidx & _ & _).
  split; [|split].
  - apply Hiff. split; [|split].
    + repeat constructor. eexists. reflexivity.
    + left. discriminate.
    + left. discriminate.
  - apply Hzero. split.
    + repeat constructor. eexists. reflexivity.
    + left. split; reflexivity.
  - apply Hidx. apply Exists_cons_hd. reflexivity.
Defined.

(** Two strings cut at their first space are equal only if both parts
    are. *)
Lemma space_split_inj (s1 s2 r1 r2 : string) :
  no_space s1 = true -> no_space s2 = true ->
  s1 +:+ String " " r1 = s2 +:+ String " " r2 -> s1 = s2 /\ r1 = r2.
Proof.
  revert s2. induction s1 as [|c1 s1 IH]; intros [|c2 s2] H1 H2 Heq.
  - injection Heq as ->. split; reflexivity.
  - injection Heq as <- _. discriminate H2.
  - injection Heq as -> _. discriminate H1.
  - injection Heq as -> Heq.
    unfold no_space in H1, H2. cbn [list_ascii_of_string forallb] in H1, H2.
    apply andb_true_iff in H1 as [_ H1]. apply andb_true_iff in H2 as [_ H2].
    destruct (IH s2 H1 H2 Heq) as [-> ->]. split; reflexivity.
Qed.

Lemma skip_to_alpha_no_space (s m : string) :
  skip_to_alpha s = Ok m -> no_space s = true -> no_space m = true.
Proof.
  induction s as [|c s IH]; simpl; [discriminate|].
  destruct (isalpha c); [intros [= <-]; auto|].
  intros Hm Hs. apply IH; [exact Hm|].
  unfold no_space in Hs. cbn [list_ascii_of_string forallb] in Hs.
  apply andb_true_iff in Hs as [_ Hs]. exact Hs.
Qed.

(** C7, as the code has it: the coverage factor of the similarity is the
    quotient of the size of the intersection by the size of the union of
    the two sets of identifiers (one floating-point division, the Jaccard
    index of the two sets), where the identifier of an event is the event
    string from its first letter at or after index 4: the method field
    (from its first letter) followed by the two trailing fields.  Two events
    with the same method field and the same trailing fields have the same
    identifier, whatever their kind and exclamation marks.  Two events whose
    method fields contain a letter, and whose method and signature fields
    contain no space, have different identifiers as soon as they differ in
    one of the two trailing fields. *)
Theorem C7_coverage_is_jaccard_of_identifiers
        (name_a : string) (trace_a : list string)
        (name_b : string) (trace_b : list string) (it1 it2 : trace_item) :
  (forall ids_a ids_b,
     rmap trace_str_to_class_method trace_a = Ok ids_a ->
     rmap trace_str_to_class_method trace_b = Ok ids_b ->
     trace_similarity name_a trace_a name_b trace_b
     = let* name_sim :=
         float_div (Z.of_nat (String.length (commonprefix name_a name_b)))
                   (Z.of_nat (String.length name_a `max` String.length name_b)) in
       let* cov_sim :=
         float_div (Z.of_nat (size ((list_to_set ids_a : gset string) ∩ list_to_set ids_b)))
                   (Z.of_nat (size ((list_to_set ids_a : gset string) ∪ list_to_set ids_b))) in
       Ok (name_sim * cov_sim)%Q)
  /\ (is_kind (item_kind it1) -> (exists n, item_excl it1 = bangs n) ->
      trace_str_to_class_method (format_item it1)
      = skip_to_alpha (item_method it1 +:+ " " +:+ item_sig it1 +:+ " " +:+ item_loc it1))
  /\ (is_kind (item_kind it1) -> (exists n, item_excl it1 = bangs n) ->
      is_kind (item_kind it2) -> (exists n, item_excl it2 = bangs n) ->
      item_method it1 = item_method it2 -> item_sig it1 = item_sig it2 ->
      item_loc it1 = item_loc it2 ->
      trace_str_to_class_method (format_item it1)
      = trace_str_to_class_method (format_item it2))
  /\ (is_kind (item_kind it1) -> (exists n, item_excl it1 = bangs n) ->
      is_kind (item_kind it2) -> (exists n, item_excl it2 = bangs n) ->
      returns (skip_to_alpha (item_method it1)) ->
      returns (skip_to_alpha (item_method it2)) ->
      no_space (item_method it1) = true -> no_space (item_method it2) = true ->
      no_space (item_sig it1) = true -> no_space (item_sig it2) = true ->
      item_sig it1 ≠ item_sig it2 \/ item_loc it1 ≠ item_loc it2 ->
      trace_str_to_class_method (format_item it1)
      ≠ trace_str_to_class_method (format_item it2)).
Proof.
  assert (Hid : forall it, is_kind (item_kind it) -> (exists n, item_excl it = bangs n) ->
      trace_str_to_class_method (format_item it)
      = skip_to_alpha (item_method it +:+ " " +:+ item_sig it +:+ " " +:+ item_loc it)).
  { intros it Hk [n Hn]. unfold format_item. rewrite Hn.
    apply class_method_of_event. exact Hk. }
  split; [|split; [|split]].
  - intros ids_a ids_b Ha Hb. unfold trace_similarity.
    rewrite !class_methods_eq, Ha, Hb. reflexivity.
  - apply Hid.
  - intros Hk1 Hn1 Hk2 Hn2 Hm Hs Hl.
    rewrite (Hid it1 Hk1 Hn1), (Hid it2 Hk2 Hn2), Hm, Hs, Hl. reflexivity.
  - intros Hk1 Hn1 Hk2 Hn2 [m1 Hm1] [m2 Hm2] Hs1 Hs2 Hg1 Hg2 Hdiff.
    rewrite (Hid it1 Hk1 Hn1), (Hid it2 Hk2 Hn2).
    rewrite (skip_to_alpha_app _ _ _ Hm1), (skip_to_alpha_app _ _ _ Hm2).
    intros [= Heq].
    apply space_split_inj in Heq as [_ Heq];
      [|eapply skip_to_alpha_no_space; eassumption
       |eapply skip_to_alpha_no_space; eassumption].
    apply space_split_inj in Heq as [Hsig Hloc]; [|assumption|assumption].
    destruct Hdiff as [Hd|Hd]; contradiction.
Qed.

(** C7 as stated fails: two events with the same class and method name but
    different trailing fields have different identifiers, and two threads
    that touched the same method get a coverage similarity of [0]. *)
Lemma C7_counterexample :
  item_method (mk_item 1 "ent" EmptyString "com.app.Main.run" "()V" "Main.java")
  = item_method (mk_item 1 "ent" EmptyString "com.app.Main.run" "(I)V" "Main.java")
  /\ trace_str_to_class_method
       (format_item (mk_item 1 "ent" EmptyString "com.app.Main.run" "()V" "Main.java"))
     = Ok "com.app.Main.run ()V Main.java"
  /\ trace_str_to_class_method
       (format_item (mk_item 1 "ent" EmptyString "com.app.Main.run" "(I)V" "Main.java"))
     = Ok "com.app.Main.run (I)V Main.java"
  /\ exists q,
       trace_similarity
         "main" [format_item (mk_item 1 "ent" EmptyString "com.app.Main.run" "()V" "Main.java")]
         "main" [format_item (mk_item 1 "ent" EmptyString "com.app.Main.run" "(I)V" "Main.java")]
       = Ok q /\ (q == 0)%Q.
Proof.
  split; [reflexivity|]. split; [reflexivity|]. split; [reflexivity|].
  eexists. split; [vm_compute; reflexivity | reflexivity].
Qed.

Lemma C7_witness :
  trace_str_to_class_method
    (format_item (mk_item 1 "ent" EmptyString "..com.app.Main.run" "()V" "Main.java"))
  = trace_str_to_class_method
      (format_item (mk_item 2 "xit" "!!" "..com.app.Main.run" "()V" "Main.java"))
  /\ trace_str_to_class_method
       (format_item (mk_item 1 "ent" EmptyString "..com.app.Main.run" "()V" "Main.java"))
     ≠ trace_str_to_class_method
         (format_item (mk_item 2 "xit" "!!" "..com.app.Main.run" "(I)V" "Main.java"))
  /\ trace_similarity "main" ["ent a.B.c ()V B.java"; "xit a.B.c ()V B.java"]
                      "mail" ["ent! a.B.c ()V B.java"; "ent a.B.d ()V B.java"]
     = let* name_sim := float_div 3 4 in
       let* cov_sim :=
         float_div
           (Z.of_nat (size (({[ "a.B.c ()V B.java" ]} : gset string)
                            ∩ {[ "a.B.c ()V B.java"; "a.B.d ()V B.java" ]})))
           (Z.of_nat (size (({[ "a.B.c ()V B.java" ]} : gset string)
                            ∪ {[ "a.B.c ()V B.java"; "a.B.d ()V B.java" ]}))) in
       Ok (name_sim * cov_sim)%Q.
Proof.
  pose proof (C7_coverage_is_jaccard_of_identifiers
                "main" ["ent a.B.c ()V B.java"; "xit a.B.c ()V B.java"]
                "mail" ["ent! a.B.c ()V B.java"; "ent a.B.d ()V B.java"]
                (mk_item 1 "ent" EmptyString "..com.app.Main.run" "()V" "Main.java")
                (mk_item 2 "xit" "!!" "..com.app.Main.run" "()V" "Main.java"))
    as (Hjac & _ & Hsame & _).
  pose proof (C7_coverage_is_jaccard_of_identifiers
                "main" [] "mail" []
                (mk_item 1 "ent" EmptyString "..com.app.Main.run" "()V" "Main.java")
                (mk_item 2 "xit" "!!" "..com.app.Main.run" "(I)V" "Main.java"))
    as (_ & _ & _ & Hdiff).
  split; [|split].
  - apply Hsame; try reflexivity.
    + left. reflexivity.
    + exists 0. reflexivity.
    + right. left. reflexivity.
    + exists 2. reflexivity.
  - apply Hdiff; try reflexivity.
    + left. reflexivity.
    + exists 0. reflexivity.
    + right. left. reflexivity.
    + exists 2. reflexivity.
    + eexists. reflexivity.
    + eexists. reflexivity.
    + left. discriminate.
  - rewrite (Hjac ["a.B.c ()V B.java"; "a.B.c ()V B.java"]
                  ["a.B.c ()V B.java"; "a.B.d ()V B.java"] eq_refl eq_refl).
    vm_compute. reflexivity.
Defined.

(** ** Sorted thread ids and the similarity matrix *)

Lemma sorted_keys_perm {V : Type} (d : gmap Z V) :
  sorted_keys d ≡ₚ (map_to_list d).*1.
Proof. apply merge_sort_Permutation. Qed.

Lemma elem_of_sorted_keys {V : Type} (d : gmap Z V) (k : Z) :
  k ∈ sorted_keys d <-> is_Some (d !! k).
Proof.
  rewrite sorted_keys_perm, list_elem_of_fmap. split.
  - intros ([k' v] & -> & Hkv). apply elem_of_map_to_list in Hkv. eauto.
  - intros [v Hv]. exists (k, v). split; [reflexivity|].
    apply elem_of_map_to_list. exact Hv.
Qed.

Lemma NoDup_sorted_keys {V : Type} (d : gmap Z V) : NoDup (sorted_keys d).
Proof. rewrite sorted_keys_perm. apply NoDup_fst_map_to_list. Qed.

Lemma sorted_keys_sorted {V : Type} (d : gmap Z V) : Sorted Z.le (sorted_keys d).
Proof. apply Sorted_merge_sort. intros x y. lia. Qed.

Lemma sorted_keys_lookup {V : Type} (d : gmap Z V) (i : nat) (k : Z) :
  sorted_keys d !! i = Some k -> is_Some (d !! k).
Proof.
  intros H. apply elem_of_sorted_keys. eapply list_elem_of_lookup_2. exact H.
Qed.

Lemma matrix_get_entry (mat : list (list Q)) (x y : nat) (c : Q) :
  matrix_get mat x y = Ok c -> entry mat (x, y) = c.
Proof.
  unfold matrix_get, entry. intros H. apply rbind_Ok in H as (row & Hrow & H).
  apply list_get_Ok in Hrow, H. simpl. rewrite Hrow, H. reflexivity.
Qed.

(** Entry [(x, y)] of the matrix is minus the similarity of the [x]-th real
    thread and the [y]-th emulator thread, computed on the traces as they are
    stored in the trace objects. *)
Lemma build_sim_matrix_entry (real_info emu_info : gmap Z thread)
      (r_tid_list e_tid_list : list Z) (sim_matrix : list (list Q))
      (x y : nat) (tid_r tid_e : Z) :
  build_sim_matrix real_info emu_info r_tid_list e_tid_list = Ok sim_matrix ->
  r_tid_list !! x = Some tid_r -> e_tid_list !! y = Some tid_e ->
  exists thr_r thr_e s,
    real_info !! tid_r = Some thr_r /\ emu_info !! tid_e = Some thr_e
    /\ trace_similarity (name thr_r) (trace thr_r) (name thr_e) (trace thr_e) = Ok s
    /\ matrix_get sim_matrix x y = Ok (- s)%Q.
Proof.
  unfold build_sim_matrix. intros HM Hx Hy.
  destruct (rmap_lookup _ _ _ _ _ HM Hx) as (row & Hrow & Hrmap).
  destruct (rmap_lookup _ _ _ _ _ Hrmap Hy) as (c & Hc & Hcell).
  apply rbind_Ok in Hcell as (thr_r & Hr & Hcell). apply dict_get_Ok in Hr.
  apply rbind_Ok in Hcell as (thr_e & He & Hcell). apply dict_get_Ok in He.
  apply rbind_Ok in Hcell as (s & Hs & [= <-]).
  exists thr_r, thr_e, s. repeat split; try assumption.
  unfold matrix_get, list_get. rewrite Hrow. simpl. rewrite Hc. reflexivity.
Qed.

Lemma Qopp_opp (q : Q) : (- - q)%Q = q.
Proof. destruct q as [n d]. unfold Qopp. simpl. rewrite Z.opp_involutive. reflexivity. Qed.

Lemma build_sim_matrix_similarity (real_info emu_info : gmap Z thread)
      (sim_matrix : list (list Q)) (x y : nat) :
  build_sim_matrix real_info emu_info (sorted_keys real_info) (sorted_keys emu_info)
  = Ok sim_matrix ->
  x < length (sorted_keys real_info) -> y < length (sorted_keys emu_info) ->
  entry sim_matrix (x, y) = (- thread_similarity real_info emu_info (x, y))%Q.
Proof.
  intros HM Hx Hy.
  destruct (lookup_lt_is_Some_2 _ _ Hx) as [tid_r Hr].
  destruct (lookup_lt_is_Some_2 _ _ Hy) as [tid_e He].
  destruct (build_sim_matrix_entry _ _ _ _ _ _ _ _ _ HM Hr He)
    as (thr_r & thr_e & s & Htr & Hte & Hs & Hget).
  rewrite (matrix_get_entry _ _ _ _ Hget).
  unfold thread_similarity. simpl. rewrite Hr, He, Htr, Hte, Hs. reflexivity.
Qed.

Lemma total_similarity_opp (real_info emu_info : gmap Z thread)
      (sim_matrix : list (list Q)) (pairs : list (nat * nat)) :
  build_sim_matrix real_info emu_info (sorted_keys real_info) (sorted_keys emu_info)
  = Ok sim_matrix ->
  Forall (fun xy => xy.1 < length (sorted_keys real_info)
                    /\ xy.2 < length (sorted_keys emu_info)) pairs ->
  (total sim_matrix pairs == - total_similarity real_info emu_info pairs)%Q.
Proof.
  intros HM. induction 1 as [|[x y] pairs [Hx Hy] _ IH].
  - reflexivity.
  - simpl in Hx, Hy. unfold total, total_similarity in *. cbn [foldr].
    rewrite IH, (build_sim_matrix_similarity _ _ _ _ _ HM Hx Hy).
    rewrite Qopp_plus. reflexivity.
Qed.

Lemma assignment_in_range (m n : nat) (rows cols : list nat) :
  is_assignment m n rows cols ->
  Forall (fun xy : nat * nat => xy.1 < m /\ xy.2 < n) (zip rows cols).
Proof.
  intros (_ & _ & _ & Hr & Hc). apply Forall_forall. intros [x y] Hxy.
  rewrite Forall_forall in Hr, Hc. simpl. split.
  - apply Hr. eapply elem_of_zip_l. exact Hxy.
  - apply Hc. eapply elem_of_zip_r. exact Hxy.
Qed.

(** A single row can only be assigned to a single column in one way. *)
Lemma assignment_1x1 (rows cols : list nat) :
  is_assignment 1 1 rows cols -> length rows = 1 -> rows = [0] /\ cols = [0].
Proof.
  intros (Hlen & _ & _ & Hr & Hc) H1.
  destruct rows as [|x [|? ?]]; try discriminate.
  destruct cols as [|y [|? ?]]; try discriminate.
  inversion Hr; inversion Hc; subst. split; f_equal; lia.
Qed.

Lemma optimal_assignment_1x1 (cost : list (list Q)) (out : list nat * list nat) :
  optimal_assignment 1 1 cost out <-> out = ([0], [0]).
Proof.
  split.
  - intros (Has & Hlen & _). destruct out as [rows cols]. simpl in *.
    destruct (assignment_1x1 _ _ Has Hlen) as [-> ->]. reflexivity.
  - intros ->. split; [|split]; simpl.
    + repeat split; try reflexivity; repeat constructor; try lia;
        apply not_elem_of_nil.
    + reflexivity.
    + intros rows cols Has Hlen. destruct (assignment_1x1 _ _ Has Hlen) as [-> ->].
      simpl. apply Qle_refl.
Qed.

(** Two rows can be assigned to two columns in two ways. *)
Lemma assignment_2x2 (rows cols : list nat) :
  is_assignment 2 2 rows cols -> length rows = 2 ->
  (rows = [0; 1] \/ rows = [1; 0]) /\ (cols = [0; 1] \/ cols = [1; 0]).
Proof.
  assert (H : forall l : list nat, length l = 2 -> NoDup l -> Forall (fun x => x < 2) l ->
                l = [0; 1] \/ l = [1; 0]).
  { intros l Hl Hnd Hlt. destruct l as [|x [|y [|? ?]]]; try discriminate.
    inversion Hlt as [|? ? Hx Hlt']; subst. inversion Hlt' as [|? ? Hy _]; subst.
    inversion Hnd as [|? ? Hnotin _]; subst.
    assert (x <> y) by (intros ->; apply Hnotin; left).
    destruct x as [|[|?]]; destruct y as [|[|?]]; try lia; auto. }
  intros (Hlen & Hnr & Hnc & Hr & Hc) H2. split; apply H; try assumption; lia.
Qed.

(** ** [process_trace] *)

Lemma declare_threads_trace (decls : list (Z * string)) (tid : Z) (thr : thread) :
  declare_threads decls !! tid = Some thr -> trace thr = [].
Proof.
  unfold declare_threads.
  assert (H : forall (info : gmap Z thread),
             (forall t, info !! tid = Some t -> trace t = []) ->
             foldl (fun info decl =>
                      <[decl.1 := {| name := decl.2; trace := [] |}]> info) info decls
               !! tid = Some thr -> trace thr = []).
  { induction decls as [|[k nm] decls IH]; simpl; intros info Hinfo.
    - apply Hinfo.
    - apply IH. intros t. destruct (decide (k = tid)) as [->|Hne].
      + rewrite lookup_insert_eq. intros [= <-]. reflexivity.
      + rewrite lookup_insert_ne by assumption. apply Hinfo. }
  apply H. intros t. rewrite lookup_empty. discriminate.
Qed.

(** After the event loop, each declared thread holds its own event lines, in
    file order, after what it held before; no thread is added or removed. *)
Lemma append_items_lookup (items : list trace_item) (info info' : gmap Z thread)
      (tid : Z) :
  rfold append_item info items = Ok info' ->
  info' !! tid
  = (fun thr => {| name := name thr; trace := trace thr ++ events_of tid items |})
      <$> info !! tid.
Proof.
  revert info. induction items as [|it items IH]; simpl; intros info H.
  - injection H as <-. unfold events_of. simpl.
    destruct (info !! tid) as [[nm tr]|]; simpl; [|reflexivity].
    rewrite app_nil_r. reflexivity.
  - apply rbind_Ok in H as (info1 & H1 & H).
    unfold append_item in H1. apply rbind_Ok in H1 as (thr & Hthr & [= <-]).
    apply dict_get_Ok in Hthr. rewrite (IH _ H). unfold events_of.
    destruct (decide (item_tid it = tid)) as [Heq|Hne].
    + rewrite filter_cons_True by assumption. subst tid.
      rewrite lookup_insert_eq, Hthr. simpl. rewrite <- app_assoc. reflexivity.
    + rewrite filter_cons_False by assumption.
      rewrite lookup_insert_ne by assumption. reflexivity.
Qed.

(** Every event line refers to a declared thread, or the loop raises. *)
Lemma append_items_declared (items : list trace_item) (info info' : gmap Z thread)
      (it : trace_item) :
  rfold append_item info items = Ok info' -> it ∈ items ->
  is_Some (info !! item_tid it).
Proof.
  revert info. induction items as [|it0 items IH]; simpl; intros info H Hit.
  - inversion Hit.
  - apply rbind_Ok in H as (info1 & H1 & H).
    unfold append_item in H1. apply rbind_Ok in H1 as (thr & Hthr & [= <-]).
    apply dict_get_Ok in Hthr.
    apply elem_of_cons in Hit as [-> | Hit]; [eauto|].
    specialize (IH _ H Hit).
    destruct (decide (item_tid it0 = item_tid it)) as [Heq|Hne].
    + rewrite <- Heq. eauto.
    + rewrite lookup_insert_ne in IH by assumption. exact IH.
Qed.

Lemma events_of_nonempty (tid : Z) (items : list trace_item) :
  events_of tid items ≠ [] <-> exists it, it ∈ items /\ item_tid it = tid.
Proof.
  unfold events_of. split.
  - intros H. destruct (filter (fun it => item_tid it = tid) items) as [|it l] eqn:Hf;
      [contradiction|].
    exists it.
    assert (it ∈ filter (fun it => item_tid it = tid) items) as Hin
        by (rewrite Hf; left).
    apply list_elem_of_filter in Hin as [? ?]. auto.
  - intros (it & Hit & Htid).
    assert (it ∈ filter (fun it => item_tid it = tid) items) as Hin
        by (apply list_elem_of_filter; auto).
    destruct (filter (fun it => item_tid it = tid) items); [inversion Hin | discriminate].
Qed.

(** The threads of the trace object: the declared threads that own at least
    one event line, each with its event lines in file order. *)
Lemma process_trace_lookup (dt : decoded_trace) (obj : trace_obj) (tid : Z)
      (thr : thread) :
  process_trace dt = Ok obj ->
  thread_info obj !! tid = Some thr <->
  exists thr0, declare_threads (dt_threads dt) !! tid = Some thr0
    /\ thr = {| name := name thr0; trace := events_of tid (dt_items dt) |}
    /\ events_of tid (dt_items dt) ≠ [].
Proof.
  unfold process_trace. intros H. apply rbind_Ok in H as (info & Hinfo & [= <-]).
  simpl. unfold drop_empty_traces. rewrite map_lookup_filter_Some. simpl.
  rewrite (append_items_lookup _ _ _ tid Hinfo). split.
  - intros [Hl Hne]. destruct (declare_threads (dt_threads dt) !! tid) as [thr0|] eqn:H0;
      [|discriminate].
    simpl in Hl. injection Hl as <-. simpl in Hne.
    rewrite (declare_threads_trace _ _ _ H0) in *. simpl in *. eauto.
  - intros (thr0 & H0 & -> & Hne). rewrite H0. simpl.
    rewrite (declare_threads_trace _ _ _ H0). simpl. auto.
Qed.

Lemma process_trace_keys (dt : decoded_trace) (obj : trace_obj) (tid : Z) :
  process_trace dt = Ok obj ->
  tid ∈ sorted_keys (thread_info obj) <->
  exists it, it ∈ dt_items dt /\ item_tid it = tid.
Proof.
  intros H. rewrite elem_of_sorted_keys. split.
  - intros [thr Hthr]. apply (process_trace_lookup _ _ _ _ H) in Hthr
      as (thr0 & _ & _ & Hne).
    apply events_of_nonempty. exact Hne.
  - intros (it & Hit & <-).
    unfold process_trace in H. apply rbind_Ok in H as (info & Hinfo & [= <-]).
    destruct (append_items_declared _ _ _ _ Hinfo Hit) as [thr0 H0].
    eexists. apply (process_trace_lookup dt).
    + unfold process_trace. rewrite Hinfo. reflexivity.
    + exists thr0. split; [exact H0|]. split; [reflexivity|].
      apply events_of_nonempty. eauto.
Qed.

Lemma process_trace_nonempty (dt : decoded_trace) (obj : trace_obj) (tid : Z)
      (thr : thread) :
  process_trace dt = Ok obj -> thread_info obj !! tid = Some thr -> trace thr ≠ [].
Proof.
  intros H Hthr. apply (process_trace_lookup _ _ _ _ H) in Hthr
    as (thr0 & _ & -> & Hne). exact Hne.
Qed.

(** ** The pipeline *)

Section Pipeline.

Variable lsa : list (list Q) -> list nat * list nat.
Variables (real emu : decoded_trace) (real_obj emu_obj : trace_obj).
Hypothesis Hreal : process_trace real = Ok real_obj.
Hypothesis Hemu : process_trace emu = Ok emu_obj.

Lemma compare_trace_objs_of :
  compare_trace lsa real emu = compare_trace_objs lsa real_obj emu_obj.
Proof. unfold compare_trace. rewrite Hreal, Hemu. reflexivity. Qed.

Lemma compare_trace_unfold (sim_matrix : list (list Q)) :
  build_sim_matrix (thread_info real_obj) (thread_info emu_obj)
                   (sorted_keys (thread_info real_obj))
                   (sorted_keys (thread_info emu_obj)) = Ok sim_matrix ->
  compare_trace lsa real emu
  = rfold (fun trace_similarity_list xy =>
             let* rec := compare_matched (thread_info real_obj) (thread_info emu_obj)
                           (sorted_keys (thread_info real_obj))
                           (sorted_keys (thread_info emu_obj)) sim_matrix xy in
             Ok (trace_similarity_list ++ option_list rec))
          [] (zip (lsa sim_matrix).1 (lsa sim_matrix).2).
Proof.
  intros HM. rewrite compare_trace_objs_of. unfold compare_trace_objs.
  rewrite HM. simpl. destruct (lsa sim_matrix). reflexivity.
Qed.

End Pipeline.

Lemma trace_aligned_false (a b : list string) :
  trace_aligned a b = false <-> a ≠ [] /\ b ≠ [] /\ a !! 0 ≠ b !! 0.
Proof.
  unfold trace_aligned. rewrite !orb_false_iff, !bool_decide_eq_false.
  rewrite !length_zero_iff_nil. tauto.
Qed.

(** C1, as the code has it: alignment is a precondition.  For every pair
    [(x, y)] of the matching, the two traces are cleaned; when the cleaned
    traces are aligned (one is empty or their first events are equal) the
    pair is scanned and its record is in the output; when they are not (both
    non-empty, first events different) no record of that pair is in the
    output. *)
Theorem C1_record_iff_aligned
        (lsa : list (list Q) -> list nat * list nat)
        (real emu : decoded_trace) (real_obj emu_obj : trace_obj)
        (sim_matrix : list (list Q)) (out : list ComparisonRecord) (x y : nat) :
  process_trace real = Ok real_obj ->
  process_trace emu = Ok emu_obj ->
  build_sim_matrix (thread_info real_obj) (thread_info emu_obj)
                   (sorted_keys (thread_info real_obj))
                   (sorted_keys (thread_info emu_obj)) = Ok sim_matrix ->
  compare_trace lsa real emu = Ok out ->
  (x, y) ∈ zip (lsa sim_matrix).1 (lsa sim_matrix).2 ->
  exists tid_r thr_r a tid_e thr_e b,
    sorted_keys (thread_info real_obj) !! x = Some tid_r
    /\ thread_info real_obj !! tid_r = Some thr_r
    /\ clean_trace (trace thr_r) = Ok a
    /\ sorted_keys (thread_info emu_obj) !! y = Some tid_e
    /\ thread_info emu_obj !! tid_e = Some thr_e
    /\ clean_trace (trace thr_e) = Ok b
    /\ (trace_aligned a b = false <-> a ≠ [] /\ b ≠ [] /\ a !! 0 ≠ b !! 0)
    /\ (trace_aligned a b = true ->
        exists s, scan_pair tid_r (name thr_r) a tid_e (name thr_e) b s ∈ out)
    /\ (trace_aligned a b = false ->
        forall r, r ∈ out -> ~ (real_id r = tid_r /\ emu_id r = tid_e)).
Proof.
  intros Hreal Hemu HM Hout Hxy.
  rewrite (compare_trace_unfold lsa _ _ _ _ Hreal Hemu _ HM) in Hout.
  destruct (rfold_collect _ _ _ _ Hout) as (os & Hos & _).
  apply list_elem_of_lookup in Hxy as [i Hi].
  destruct (rmap_lookup _ _ _ _ _ Hos Hi) as (o & _ & Ho).
  apply compare_matched_Ok in Ho
    as (tid_r & thr_r & a & tid_e & thr_e & b & Hx & Hr & Ha & Hy & He & Hb & Hcase).
  exists tid_r, thr_r, a, tid_e, thr_e, b.
  repeat (split; [assumption|]). split; [apply trace_aligned_false|]. split.
  - intros Hal. destruct Hcase as [(_ & c & Hc & ->) | (Hnal & _)]; [|congruence].
    exists (- c)%Q. apply (rfold_collect_elem _ _ _ _ Hout).
    exists (x, y). split; [eapply list_elem_of_lookup_2; exact Hi|].
    apply compare_matched_Ok. exists tid_r, thr_r, a, tid_e, thr_e, b.
    repeat (split; [assumption|]). left. eauto.
  - intros Hnal r Hrout [Hidr Hide].
    apply (rfold_collect_elem _ _ _ _ Hout) in Hrout as ([x' y'] & _ & Hr').
    apply compare_matched_Ok in Hr'
      as (tid_r' & thr_r' & a' & tid_e' & thr_e' & b' & Hx' & Hr' & Ha' & Hy' & He'
          & Hb' & Hcase').
    destruct Hcase' as [(Hal' & c & _ & [= ->]) | (_ & ?)]; [|discriminate].
    simpl in Hidr, Hide. subst tid_r' tid_e'.
    assert (a' = a /\ b' = b) as [-> ->] by (split; congruence).
    congruence.
Qed.

(** On a 1 x 1 matrix every solver that meets its contract picks the entry:
    the run is that of [assign_1x1]. *)
Lemma compare_trace_1x1 (lsa : list (list Q) -> list nat * list nat)
      (real emu : decoded_trace) :
  process_trace real = Ok (trace_obj_of real) ->
  process_trace emu = Ok (trace_obj_of emu) ->
  build_sim_matrix (thread_info (trace_obj_of real)) (thread_info (trace_obj_of emu))
                   (sorted_keys (thread_info (trace_obj_of real)))
                   (sorted_keys (thread_info (trace_obj_of emu)))
  = Ok (sim_matrix_of (trace_obj_of real) (trace_obj_of emu)) ->
  optimal_assignment 1 1 (sim_matrix_of (trace_obj_of real) (trace_obj_of emu))
                     (lsa (sim_matrix_of (trace_obj_of real) (trace_obj_of emu))) ->
  compare_trace lsa real emu = compare_trace assign_1x1 real emu.
Proof.
  intros Hreal Hemu HM Hopt. apply optimal_assignment_1x1 in Hopt.
  rewrite (compare_trace_unfold lsa _ _ _ _ Hreal Hemu _ HM).
  rewrite (compare_trace_unfold assign_1x1 _ _ _ _ Hreal Hemu _ HM).
  rewrite Hopt. reflexivity.
Qed.

(** C1 as stated fails: the only threads of the two sample traces are
    matched, their cleaned traces are not empty and start with different
    events, and the output list is empty. *)
Lemma C1_counterexample :
  thread_info (trace_obj_of misaligned_real) !! 1%Z
  = Some {| name := "main";
            trace := ["ent com.app.Main.onCreate ()V Main.java";
                      "ent com.app.Check.isDevice ()Z Check.java"] |}
  /\ thread_info (trace_obj_of misaligned_emu) !! 1%Z
     = Some {| name := "main";
               trace := ["ent com.app.Check.isDevice ()Z Check.java";
                         "ent com.app.Main.onCreate ()V Main.java"] |}
  /\ clean_trace ["ent com.app.Main.onCreate ()V Main.java";
                  "ent com.app.Check.isDevice ()Z Check.java"]
     = Ok ["ent com.app.Main.onCreate ()V Main.java";
           "ent com.app.Check.isDevice ()Z Check.java"]
  /\ clean_trace ["ent com.app.Check.isDevice ()Z Check.java";
                  "ent com.app.Main.onCreate ()V Main.java"]
     = Ok ["ent com.app.Check.isDevice ()Z Check.java";
           "ent com.app.Main.onCreate ()V Main.java"]
  /\ optimal_assignment 1 1
       (sim_matrix_of (trace_obj_of misaligned_real) (trace_obj_of misaligned_emu))
       (assign_1x1
          (sim_matrix_of (trace_obj_of misaligned_real) (trace_obj_of misaligned_emu)))
  /\ forall lsa,
       optimal_assignment 1 1
         (sim_matrix_of (trace_obj_of misaligned_real) (trace_obj_of misaligned_emu))
         (lsa (sim_matrix_of (trace_obj_of misaligned_real)
                             (trace_obj_of misaligned_emu))) ->
       zip (lsa (sim_matrix_of (trace_obj_of misaligned_real)
                               (trace_obj_of misaligned_emu))).1
           (lsa (sim_matrix_of (trace_obj_of misaligned_real)
                               (trace_obj_of misaligned_emu))).2 = [(0, 0)]
       /\ compare_trace lsa misaligned_real misaligned_emu = Ok [].
Proof.
  split; [vm_compute; reflexivity|]. split; [vm_compute; reflexivity|].
  split; [reflexivity|]. split; [reflexivity|].
  split; [apply optimal_assignment_1x1; reflexivity|].
  intros lsa Hopt. split.
  - apply optimal_assignment_1x1 in Hopt. rewrite Hopt. reflexivity.
  - rewrite (compare_trace_1x1 lsa); try (vm_compute; reflexivity). exact Hopt.
Qed.

Lemma C1_witness :
  exists tid_r thr_r a tid_e thr_e b,
    sorted_keys (thread_info (trace_obj_of misaligned_real)) !! 0 = Some tid_r
    /\ thread_info (trace_obj_of misaligned_real) !! tid_r = Some thr_r
    /\ clean_trace (trace thr_r) = Ok a
    /\ sorted_keys (thread_info (trace_obj_of misaligned_emu)) !! 0 = Some tid_e
    /\ thread_info (trace_obj_of misaligned_emu) !! tid_e = Some thr_e
    /\ clean_trace (trace thr_e) = Ok b
    /\ (trace_aligned a b = false <-> a ≠ [] /\ b ≠ [] /\ a !! 0 ≠ b !! 0)
    /\ (trace_aligned a b = true ->
        exists s, scan_pair tid_r (name thr_r) a tid_e (name thr_e) b s
                  ∈ ([] : list ComparisonRecord))
    /\ (trace_aligned a b = false ->
        forall r, r ∈ ([] : list ComparisonRecord) ->
                  ~ (real_id r = tid_r /\ emu_id r = tid_e)).
Proof.
  apply (C1_record_iff_aligned assign_1x1 misaligned_real misaligned_emu
           (trace_obj_of misaligned_real) (trace_obj_of misaligned_emu)
           (sim_matrix_of (trace_obj_of misaligned_real) (trace_obj_of misaligned_emu))
           [] 0 0).
  - vm_compute. reflexivity.
  - vm_compute. reflexivity.
  - vm_compute. reflexivity.
  - vm_compute. reflexivity.
  - simpl. left.
Defined.

(** C2, as the code has it: every entry of the similarity matrix, and the
    [sim_cov] of every record, is the similarity of the two threads computed
    on the traces as stored by [process_trace], before any cleaning;
    [clean_trace] is applied afterwards, to the traces of the matched pairs
    only, and the scan runs on the cleaned traces. *)
Theorem C2_similarity_on_stored_traces
        (lsa : list (list Q) -> list nat * list nat)
        (real emu : decoded_trace) (real_obj emu_obj : trace_obj)
        (sim_matrix : list (list Q)) (out : list ComparisonRecord) :
  process_trace real = Ok real_obj ->
  process_trace emu = Ok emu_obj ->
  build_sim_matrix (thread_info real_obj) (thread_info emu_obj)
                   (sorted_keys (thread_info real_obj))
                   (sorted_keys (thread_info emu_obj)) = Ok sim_matrix ->
  compare_trace lsa real emu = Ok out ->
  (forall x y tid_r tid_e,
      sorted_keys (thread_info real_obj) !! x = Some tid_r ->
      sorted_keys (thread_info emu_obj) !! y = Some tid_e ->
      exists thr_r thr_e s,
        thread_info real_obj !! tid_r = Some thr_r
        /\ thread_info emu_obj !! tid_e = Some thr_e
        /\ trace_similarity (name thr_r) (trace thr_r) (name thr_e) (trace thr_e) = Ok s
        /\ matrix_get sim_matrix x y = Ok (- s)%Q)
  /\ (forall r, r ∈ out ->
      exists thr_r thr_e a b,
        thread_info real_obj !! real_id r = Some thr_r
        /\ thread_info emu_obj !! emu_id r = Some thr_e
        /\ trace_similarity (name thr_r) (trace thr_r) (name thr_e) (trace thr_e)
           = Ok (sim_cov r)
        /\ clean_trace (trace thr_r) = Ok a
        /\ clean_trace (trace thr_e) = Ok b
        /\ r = scan_pair (real_id r) (name thr_r) a (emu_id r) (name thr_e) b (sim_cov r)).
Proof.
  intros Hreal Hemu HM Hout. split.
  - intros x y tid_r tid_e Hx Hy. eapply build_sim_matrix_entry; eassumption.
  - intros r Hr.
    rewrite (compare_trace_unfold lsa _ _ _ _ Hreal Hemu _ HM) in Hout.
    apply (rfold_collect_elem _ _ _ _ Hout) in Hr as ([x y] & _ & Hr).
    apply compare_matched_Ok in Hr
      as (tid_r & thr_r & a & tid_e & thr_e & b & Hx & Htr & Ha & Hy & Hte & Hb & Hcase).
    destruct Hcase as [(_ & c & Hc & [= ->]) | (_ & ?)]; [|discriminate].
    destruct (build_sim_matrix_entry _ _ _ _ _ _ _ _ _ HM Hx Hy)
      as (thr_r' & thr_e' & s & Htr' & Hte' & Hs & Hget).
    assert (thr_r' = thr_r) as -> by congruence.
    assert (thr_e' = thr_e) as -> by congruence.
    assert (c = (- s)%Q) as -> by congruence.
    simpl. rewrite Qopp_opp. exists thr_r, thr_e, a, b. auto 10.
Qed.

(** C2 as stated fails: the real thread of the sample also calls a framework
    method; on the cleaned traces the similarity of the two threads is [1],
    but the score of the record is [1/2], the similarity of the traces
    before cleaning. *)
Lemma C2_counterexample :
  thread_info (trace_obj_of framework_real) !! 1%Z
  = Some {| name := "main";
            trace := ["ent com.app.Main.onCreate ()V Main.java";
                      "ent android.os.Handler.post ()V Handler.java"] |}
  /\ thread_info (trace_obj_of framework_emu) !! 1%Z
     = Some {| name := "main";
               trace := ["ent com.app.Main.onCreate ()V Main.java"] |}
  /\ clean_trace ["ent com.app.Main.onCreate ()V Main.java";
                  "ent android.os.Handler.post ()V Handler.java"]
     = Ok ["ent com.app.Main.onCreate ()V Main.java"]
  /\ clean_trace ["ent com.app.Main.onCreate ()V Main.java"]
     = Ok ["ent com.app.Main.onCreate ()V Main.java"]
  /\ (exists s, trace_similarity "main" ["ent com.app.Main.onCreate ()V Main.java"]
                                 "main" ["ent com.app.Main.onCreate ()V Main.java"]
                = Ok s /\ (s == 1)%Q)
  /\ forall lsa,
       optimal_assignment 1 1
         (sim_matrix_of (trace_obj_of framework_real) (trace_obj_of framework_emu))
         (lsa (sim_matrix_of (trace_obj_of framework_real)
                             (trace_obj_of framework_emu))) ->
       exists r, compare_trace lsa framework_real framework_emu = Ok [r]
                 /\ real_id r = 1%Z /\ emu_id r = 1%Z
                 /\ (sim_cov r == 1 # 2)%Q /\ ~ (sim_cov r == 1)%Q.
Proof.
  split; [vm_compute; reflexivity|]. split; [vm_compute; reflexivity|].
  split; [reflexivity|]. split; [reflexivity|].
  split; [eexists; split; [vm_compute; reflexivity | reflexivity]|].
  intros lsa Hopt.
  rewrite (compare_trace_1x1 lsa); try (vm_compute; reflexivity); [|exact Hopt].
  eexists. split; [vm_compute; reflexivity|].
  split; [reflexivity|]. split; [reflexivity|]. split; [reflexivity|].
  intros H. vm_compute in H. discriminate H.
Qed.

Lemma C2_witness :
  Forall (fun r =>
            exists thr_r thr_e a b,
              thread_info (trace_obj_of framework_real) !! real_id r = Some thr_r
              /\ thread_info (trace_obj_of framework_emu) !! emu_id r = Some thr_e
              /\ trace_similarity (name thr_r) (trace thr_r) (name thr_e) (trace thr_e)
                 = Ok (sim_cov r)
              /\ clean_trace (trace thr_r) = Ok a
              /\ clean_trace (trace thr_e) = Ok b
              /\ r = scan_pair (real_id r) (name thr_r) a (emu_id r) (name thr_e) b
                               (sim_cov r))
         (records_of assign_1x1 framework_real framework_emu).
Proof.
  apply Forall_forall. intros r Hr.
  refine (proj2 (C2_similarity_on_stored_traces assign_1x1 framework_real framework_emu
           (trace_obj_of framework_real) (trace_obj_of framework_emu)
           (sim_matrix_of (trace_obj_of framework_real) (trace_obj_of framework_emu))
           (records_of assign_1x1 framework_real framework_emu) _ _ _ _) r Hr).
  - vm_compute. reflexivity.
  - vm_compute. reflexivity.
  - vm_compute. reflexivity.
  - vm_compute. reflexivity.
Defined.

Lemma rmap_elem {A B : Type} (f : A -> result B) (xs : list A) (ys : list B) (y : B) :
  rmap f xs = Ok ys -> y ∈ ys -> exists x, x ∈ xs /\ f x = Ok y.
Proof.
  intros H Hy. apply list_elem_of_lookup in Hy as [i Hi].
  assert (i < length xs) as Hlt.
  { rewrite <- (rmap_length _ _ _ H). eapply lookup_lt_Some. exact Hi. }
  destruct (lookup_lt_is_Some_2 _ _ Hlt) as [x Hx].
  destruct (rmap_lookup _ _ _ _ _ H Hx) as (y' & Hy' & Hf).
  exists x. split; [eapply list_elem_of_lookup_2; exact Hx | congruence].
Qed.

(** The matrix has one row per real thread id and one column per emulator
    thread id. *)
Lemma build_sim_matrix_shape (real_info emu_info : gmap Z thread)
      (r_tid_list e_tid_list : list Z) (sim_matrix : list (list Q)) :
  build_sim_matrix real_info emu_info r_tid_list e_tid_list = Ok sim_matrix ->
  length sim_matrix = length r_tid_list
  /\ Forall (fun row => length row = length e_tid_list) sim_matrix.
Proof.
  unfold build_sim_matrix. intros H. split.
  - eapply rmap_length. exact H.
  - apply Forall_forall. intros row Hrow.
    destruct (rmap_elem _ _ _ _ H Hrow) as (tid_r & _ & Hr).
    eapply rmap_length. exact Hr.
Qed.

(** C4, as the code has it: the threads that take part in the matching are
    those to which at least one event line of the decoded trace belongs; a
    thread with no event is dropped by [process_trace], gets no row or column
    of the similarity matrix and is in no matched pair and no record.  The
    traces are cleaned only after the matching, so whether cleaning empties a
    trace plays no part in this. *)
Theorem C4_threads_without_events_excluded
        (lsa : list (list Q) -> list nat * list nat)
        (real emu : decoded_trace) (real_obj emu_obj : trace_obj)
        (sim_matrix : list (list Q)) (out : list ComparisonRecord) :
  process_trace real = Ok real_obj ->
  process_trace emu = Ok emu_obj ->
  build_sim_matrix (thread_info real_obj) (thread_info emu_obj)
                   (sorted_keys (thread_info real_obj))
                   (sorted_keys (thread_info emu_obj)) = Ok sim_matrix ->
  compare_trace lsa real emu = Ok out ->
  (forall tid, tid ∈ sorted_keys (thread_info real_obj) <->
               exists it, it ∈ dt_items real /\ item_tid it = tid)
  /\ (forall tid, tid ∈ sorted_keys (thread_info emu_obj) <->
                  exists it, it ∈ dt_items emu /\ item_tid it = tid)
  /\ (forall tid thr, thread_info real_obj !! tid = Some thr ->
        trace thr = events_of tid (dt_items real) /\ trace thr ≠ [])
  /\ (forall tid thr, thread_info emu_obj !! tid = Some thr ->
        trace thr = events_of tid (dt_items emu) /\ trace thr ≠ [])
  /\ length sim_matrix = length (sorted_keys (thread_info real_obj))
  /\ Forall (fun row => length row = length (sorted_keys (thread_info emu_obj)))
            sim_matrix
  /\ (forall x y, (x, y) ∈ zip (lsa sim_matrix).1 (lsa sim_matrix).2 ->
        exists tid_r tid_e,
          sorted_keys (thread_info real_obj) !! x = Some tid_r
          /\ sorted_keys (thread_info emu_obj) !! y = Some tid_e
          /\ events_of tid_r (dt_items real) ≠ []
          /\ events_of tid_e (dt_items emu) ≠ [])
  /\ (forall r, r ∈ out ->
        events_of (real_id r) (dt_items real) ≠ []
        /\ events_of (emu_id r) (dt_items emu) ≠ []).
Proof.
  intros Hreal Hemu HM Hout.
  assert (Hkr : forall i tid, sorted_keys (thread_info real_obj) !! i = Some tid ->
                              events_of tid (dt_items real) ≠ []).
  { intros i tid Hi. apply events_of_nonempty, (process_trace_keys _ _ _ Hreal).
    eapply list_elem_of_lookup_2. exact Hi. }
  assert (Hke : forall i tid, sorted_keys (thread_info emu_obj) !! i = Some tid ->
                              events_of tid (dt_items emu) ≠ []).
  { intros i tid Hi. apply events_of_nonempty, (process_trace_keys _ _ _ Hemu).
    eapply list_elem_of_lookup_2. exact Hi. }
  split; [intros tid; apply process_trace_keys; assumption|].
  split; [intros tid; apply process_trace_keys; assumption|].
  split.
  { intros tid thr Hthr. apply (process_trace_lookup _ _ _ _ Hreal) in Hthr
      as (thr0 & _ & -> & Hne). auto. }
  split.
  { intros tid thr Hthr. apply (process_trace_lookup _ _ _ _ Hemu) in Hthr
      as (thr0 & _ & -> & Hne). auto. }
  destruct (build_sim_matrix_shape _ _ _ _ _ HM) as [Hrows Hcols].
  split; [exact Hrows|]. split; [exact Hcols|].
  rewrite (compare_trace_unfold lsa _ _ _ _ Hreal Hemu _ HM) in Hout.
  split.
  - intros x y Hxy. destruct (rfold_collect _ _ _ _ Hout) as (os & Hos & _).
    apply list_elem_of_lookup in Hxy as [i Hi].
    destruct (rmap_lookup _ _ _ _ _ Hos Hi) as (o & _ & Ho).
    apply compare_matched_Ok in Ho
      as (tid_r & thr_r & a & tid_e & thr_e & b & Hx & _ & _ & Hy & _ & _ & _).
    exists tid_r, tid_e.
    split; [exact Hx|]. split; [exact Hy|].
    split; [eapply Hkr; exact Hx | eapply Hke; exact Hy].
  - intros r Hr.
    apply (rfold_collect_elem _ _ _ _ Hout) in Hr as ([x y] & _ & Hr).
    apply compare_matched_Ok in Hr
      as (tid_r & thr_r & a & tid_e & thr_e & b & Hx & _ & _ & Hy & _ & _ & Hcase).
    destruct Hcase as [(_ & c & _ & [= ->]) | (_ & ?)]; [|discriminate].
    simpl. split; [eapply Hkr; exact Hx | eapply Hke; exact Hy].
Qed.

(** C4 as stated fails: every event of the real thread 7 is a framework
    call, so its cleaned trace is empty; the thread still has the one row of
    the matrix, is matched with the emulator thread 9, and a record for the
    pair is written, with nothing to compare. *)
Lemma C4_counterexample :
  thread_info (trace_obj_of only_framework_real) !! 7%Z
  = Some {| name := "Binder_1";
            trace := ["ent android.os.Binder.execTransact (IIII)Z Binder.java";
                      "xit android.os.Binder.execTransact (IIII)Z Binder.java"] |}
  /\ clean_trace ["ent android.os.Binder.execTransact (IIII)Z Binder.java";
                  "xit android.os.Binder.execTransact (IIII)Z Binder.java"]
     = Ok []
  /\ sorted_keys (thread_info (trace_obj_of only_framework_real)) = [7%Z]
  /\ sorted_keys (thread_info (trace_obj_of only_framework_emu)) = [9%Z]
  /\ length (sim_matrix_of (trace_obj_of only_framework_real)
                           (trace_obj_of only_framework_emu)) = 1
  /\ forall lsa,
       optimal_assignment 1 1
         (sim_matrix_of (trace_obj_of only_framework_real)
                        (trace_obj_of only_framework_emu))
         (lsa (sim_matrix_of (trace_obj_of only_framework_real)
                             (trace_obj_of only_framework_emu))) ->
       exists r, compare_trace lsa only_framework_real only_framework_emu = Ok [r]
                 /\ real_id r = 7%Z /\ emu_id r = 9%Z
                 /\ max_common_len r = 0 /\ diverge_idx r = 0
                 /\ real_trace r = None /\ e_trace r = None
                 /\ sim_max_common r = 1%Q.
Proof.
  split; [vm_compute; reflexivity|]. split; [reflexivity|].
  split; [vm_compute; reflexivity|]. split; [vm_compute; reflexivity|].
  split; [vm_compute; reflexivity|].
  intros lsa Hopt.
  rewrite (compare_trace_1x1 lsa); try (vm_compute; reflexivity); [|exact Hopt].
  eexists. split; [vm_compute; reflexivity|].
  repeat split; reflexivity.
Qed.

Lemma C4_witness :
  (forall tid, tid ∈ sorted_keys (thread_info (trace_obj_of two_threads_real)) <->
               exists it, it ∈ dt_items two_threads_real /\ item_tid it = tid)
  /\ Forall (fun r => events_of (real_id r) (dt_items two_threads_real) ≠ []
                      /\ events_of (emu_id r) (dt_items two_threads_emu) ≠ [])
            (records_of assign_swap two_threads_real two_threads_emu).
Proof.
  pose proof (C4_threads_without_events_excluded assign_swap
                two_threads_real two_threads_emu
                (trace_obj_of two_threads_real) (trace_obj_of two_threads_emu)
                (sim_matrix_of (trace_obj_of two_threads_real)
                               (trace_obj_of two_threads_emu))
                (records_of assign_swap two_threads_real two_threads_emu)) as H.
  destruct H as (Hkeys & _ & _ & _ & _ & _ & _ & Hrec).
  - vm_compute. reflexivity.
  - vm_compute. reflexivity.
  - vm_compute. reflexivity.
  - vm_compute. reflexivity.
  - split; [exact Hkeys|]. apply Forall_forall. exact Hrec.
Defined.

(** ** The matching *)

(** C9: on the matrix of [m] real threads and [n] emulator threads, with a
    solver result that meets the contract of [linear_sum_assignment] on the
    cost matrix (minus the similarities), the pairs that [compare_trace]
    iterates over pair distinct real threads with distinct emulator threads,
    there are [min m n] of them, and no other such pairing of [min m n] pairs
    has a greater total similarity. *)
Theorem C9_matching_maximizes_total_similarity
        (lsa : list (list Q) -> list nat * list nat)
        (real_obj emu_obj : trace_obj) (sim_matrix : list (list Q)) :
  build_sim_matrix (thread_info real_obj) (thread_info emu_obj)
                   (sorted_keys (thread_info real_obj))
                   (sorted_keys (thread_info emu_obj)) = Ok sim_matrix ->
  optimal_assignment (length (sorted_keys (thread_info real_obj)))
                     (length (sorted_keys (thread_info emu_obj)))
                     sim_matrix (lsa sim_matrix) ->
  let m := length (sorted_keys (thread_info real_obj)) in
  let n := length (sorted_keys (thread_info emu_obj)) in
  let matching := zip (lsa sim_matrix).1 (lsa sim_matrix).2 in
  compare_trace_objs lsa real_obj emu_obj
  = rfold (fun trace_similarity_list xy =>
             let* rec := compare_matched (thread_info real_obj) (thread_info emu_obj)
                           (sorted_keys (thread_info real_obj))
                           (sorted_keys (thread_info emu_obj)) sim_matrix xy in
             Ok (trace_similarity_list ++ option_list rec))
          [] matching
  /\ m = size (thread_info real_obj) /\ n = size (thread_info emu_obj)
  /\ NoDup matching.*1 /\ NoDup matching.*2
  /\ Forall (fun xy => xy.1 < m /\ xy.2 < n) matching
  /\ length matching = m `min` n
  /\ forall rows cols,
       is_assignment m n rows cols -> length (zip rows cols) = m `min` n ->
       (total_similarity (thread_info real_obj) (thread_info emu_obj) (zip rows cols)
        <= total_similarity (thread_info real_obj) (thread_info emu_obj) matching)%Q.
Proof.
  intros HM (Has & Hlen & Hopt). cbv zeta.
  set (m := length (sorted_keys (thread_info real_obj))) in *.
  set (n := length (sorted_keys (thread_info emu_obj))) in *.
  pose proof Has as (Hlen2 & Hnr & Hnc & Hr & Hc).
  split.
  { unfold compare_trace_objs. rewrite HM. simpl.
    destruct (lsa sim_matrix). reflexivity. }
  split.
  { unfold m. rewrite sorted_keys_perm, length_fmap, length_map_to_list. reflexivity. }
  split.
  { unfold n. rewrite sorted_keys_perm, length_fmap, length_map_to_list. reflexivity. }
  split; [rewrite fst_zip by lia; exact Hnr|].
  split; [rewrite snd_zip by lia; exact Hnc|].
  split; [apply assignment_in_range; exact Has|].
  split; [rewrite length_zip_with; lia|].
  intros rows cols Has' Hlen'.
  assert (length rows = m `min` n) as Hrows.
  { destruct Has' as (Hl & _). rewrite length_zip_with in Hlen'. lia. }
  specialize (Hopt rows cols Has' Hrows).
  rewrite (total_similarity_opp _ _ _ _ HM (assignment_in_range _ _ _ _ Has)) in Hopt.
  rewrite (total_similarity_opp _ _ _ _ HM (assignment_in_range _ _ _ _ Has')) in Hopt.
  apply Qopp_le_compat in Hopt. rewrite !Qopp_involutive in Hopt. exact Hopt.
Qed.

(** The swap is the best assignment on the matrix of the two-thread
    sample. *)
Lemma two_threads_optimal :
  optimal_assignment 2 2
    (sim_matrix_of (trace_obj_of two_threads_real) (trace_obj_of two_threads_emu))
    (assign_swap
       (sim_matrix_of (trace_obj_of two_threads_real) (trace_obj_of two_threads_emu))).
Proof.
  split; [|split].
  - unfold assign_swap. simpl. repeat split; try reflexivity.
    + apply NoDup_cons. split; [|apply NoDup_singleton].
      intros H. apply list_elem_of_singleton in H. discriminate H.
    + apply NoDup_cons. split; [|apply NoDup_singleton].
      intros H. apply list_elem_of_singleton in H. discriminate H.
    + repeat constructor.
    + repeat constructor.
  - reflexivity.
  - intros rows cols Has Hlen.
    destruct (assignment_2x2 rows cols Has Hlen) as [[-> | ->] [-> | ->]];
      unfold Qle; vm_compute; intros H; discriminate H.
Defined.

Lemma C9_witness :
  NoDup (zip [0; 1] [1; 0]).*1 /\ NoDup (zip [0; 1] [1; 0]).*2
  /\ length (zip [0; 1] [1; 0]) = 2
  /\ forall rows cols,
       is_assignment 2 2 rows cols -> length (zip rows cols) = 2 ->
       (total_similarity (thread_info (trace_obj_of two_threads_real))
                         (thread_info (trace_obj_of two_threads_emu)) (zip rows cols)
        <= total_similarity (thread_info (trace_obj_of two_threads_real))
                            (thread_info (trace_obj_of two_threads_emu))
                            (zip [0; 1]%nat [1; 0]%nat))%Q.
Proof.
  pose proof (C9_matching_maximizes_total_similarity assign_swap
                (trace_obj_of two_threads_real) (trace_obj_of two_threads_emu)
                (sim_matrix_of (trace_obj_of two_threads_real)
                               (trace_obj_of two_threads_emu))) as H.
  destruct H as (_ & _ & _ & Hn1 & Hn2 & _ & Hlen & Hmax).
  - vm_compute. reflexivity.
  - exact two_threads_optimal.
  - split; [exact Hn1|]. split; [exact Hn2|]. split; [exact Hlen|]. exact Hmax.
Defined.

Lemma C10_witness :
  Forall (fun r =>
            (real_trace r = None <-> e_trace r = None)
            /\ (real_trace r = None <-> diverge_idx r = max_common_len r)
            /\ (diverge_idx r = max_common_len r <-> (sim_max_common r == 1)%Q)
            /\ (forall c, real_trace r = Some c \/ e_trace r = Some c ->
                  (diverge_idx r = 0 /\ length c = 1)
                  \/ (0 < diverge_idx r /\ length c = 2)))
         (records_of assign_swap two_threads_real two_threads_emu).
Proof.
  apply Forall_forall. intros r Hr.
  apply (C10_record_invariants assign_swap two_threads_real two_threads_emu
           (records_of assign_swap two_threads_real two_threads_emu) r).
  - vm_compute. reflexivity.
  - exact Hr.
Defined.

(** ** Sample runs *)

Example clean_trace_sample :
  clean_trace ["ent android.os.Handler.handle (I)V Handler.java";
               "ent! ..com.app.Main.run ()V Main.java";
               "xit java.lang.Object.init ()V Object.java"]
  = Ok ["ent! ..com.app.Main.run ()V Main.java"].
Proof. reflexivity. Qed.

Example trace_similarity_sample :
  trace_similarity "main" ["ent a.B.c ()V B.java"; "xit a.B.c ()V B.java"]
                   "mail" ["ent! a.B.c ()V B.java"; "ent a.B.d ()V B.java"]
  = Ok (3 # 8)%Q.
Proof. vm_compute. reflexivity. Qed.

(** The end-to-end scenario: two threads on each side, paired by name; two
    records, the second one diverging at index 1. *)
Example two_threads_sample :
  map (fun r => (real_id r, emu_id r, diverge_idx r, max_common_len r, real_trace r,
                 e_trace r))
      (records_of assign_swap two_threads_real two_threads_emu)
  = [ (1%Z, 6%Z, 2, 2, None, None);
      (2%Z, 5%Z, 1, 2,
       Some ["ent com.app.Job.run ()V Job.java"; "ent! com.app.Job.real ()V Job.java"],
       Some ["ent com.app.Job.run ()V Job.java"; "ent com.app.Job.emu ()V Job.java"]) ].
Proof. vm_compute. reflexivity. Qed.
(** ** The matched fraction in binary64 *)

Lemma div_eucl_shift (m : positive) :
  Z.div_eucl (Z.shiftl (Zpos m) 53) (Zpos m) = ((2 ^ 53)%Z, 0%Z).
Proof.
  rewrite Z.shiftl_mul_pow2 by lia.
  assert (H : forall x y, Z.div_eucl x y = ((x / y)%Z, (x mod y)%Z)).
  { intros x y. unfold Z.div, Z.modulo. destruct (Z.div_eucl x y); reflexivity. }
  rewrite H, (Z.mul_comm (Zpos m)), Z.div_mul, Z.mod_mul by lia. reflexivity.
Qed.

(** A positive finite float divided by itself is [1.0]. *)
Lemma SFdiv_same (m : positive) (e : Z) :
  SFdiv 53 1024 (S754_finite false m e) (S754_finite false m e) = float_one.
Proof.
  unfold SFdiv, SFdiv_core_binary.
  rewrite !Z.sub_diag.
  change (Z.min (fexp 53 1024 0) 0) with (-53)%Z.
  change (0 - -53)%Z with 53%Z.
  cbv beta iota zeta.
  rewrite div_eucl_shift.
  assert (Hloc : new_location (Zpos m) 0 = loc_Exact).
  { unfold new_location. destruct (Z.even (Zpos m)); reflexivity. }
  rewrite Hloc. vm_compute. reflexivity.
Qed.

Lemma digits2_pos_bounds (p : positive) :
  (2 ^ (Zpos (digits2_pos p) - 1) <= Zpos p < 2 ^ Zpos (digits2_pos p))%Z.
Proof.
  induction p as [p IH | p IH |]; cbn [digits2_pos].
  - rewrite Pos2Z.inj_succ.
    replace (Z.succ (Zpos (digits2_pos p)) - 1)%Z
      with (Z.succ (Zpos (digits2_pos p) - 1)) by lia.
    rewrite !Z.pow_succ_r by lia. lia.
  - rewrite Pos2Z.inj_succ.
    replace (Z.succ (Zpos (digits2_pos p)) - 1)%Z
      with (Z.succ (Zpos (digits2_pos p) - 1)) by lia.
    rewrite !Z.pow_succ_r by lia. lia.
  - cbn. lia.
Qed.

Lemma digits2_pos_le_53 (p : positive) :
  (Zpos p < 2 ^ 53)%Z -> (Zpos (digits2_pos p) <= 53)%Z.
Proof.
  intros Hp. pose proof (digits2_pos_bounds p) as [Hlo _].
  destruct (Z.le_gt_cases (Zpos (digits2_pos p)) 53) as [|Hgt]; [assumption|].
  assert (2 ^ 53 <= 2 ^ (Zpos (digits2_pos p) - 1))%Z by (apply Z.pow_le_mono_r; lia).
  lia.
Qed.

Lemma digits2_pos_iter (p k : positive) :
  digits2_pos (Pos.iter xO p k) = (digits2_pos p + k)%positive.
Proof.
  revert p. induction k as [|k IH] using Pos.peano_ind; intros p.
  - cbn. lia.
  - rewrite Pos.iter_succ. cbn [digits2_pos]. rewrite IH. lia.
Qed.

Lemma iter_xO_mul (p k : positive) :
  Pos.iter xO p k = (p * 2 ^ k)%positive.
Proof.
  induction k as [|k IH] using Pos.peano_ind.
  - cbn. lia.
  - rewrite Pos.iter_succ, IH, Pos.pow_succ_r. lia.
Qed.

(** A mantissa of 53 binary digits with an exponent in range is not
    rounded. *)
Lemma binary_round_aux_exact (m : positive) (e : Z) :
  Zpos (digits2_pos m) = 53%Z -> (-1074 <= e <= 971)%Z ->
  binary_round_aux 53 1024 false (Zpos m) e loc_Exact = S754_finite false m e.
Proof.
  intros Hd He.
  unfold binary_round_aux, shr_fexp.
  cbn [Zdigits2]. rewrite Hd.
  assert (Hf : fexp 53 1024 (53 + e) = e).
  { unfold fexp, emin. lia. }
  rewrite Hf, Z.sub_diag.
  cbn [shr_record_of_loc shr fst snd shr_m loc_of_shr_record round_nearest_even shr_r shr_s].
  cbn [Zdigits2]. rewrite Hd, Hf, Z.sub_diag.
  cbn [shr_record_of_loc shr fst snd shr_m loc_of_shr_record round_nearest_even shr_r shr_s].
  replace (e <=? 1024 - 53)%Z with true by (symmetry; apply Z.leb_le; lia).
  reflexivity.
Qed.

(** [float(n)] for [0 < n < 2 ^ 53]: a positive finite float, of value
    [n]. *)
Lemma float_of_int_pos (p : positive) :
  (Zpos p < 2 ^ 53)%Z ->
  exists m e, float_of_int (Zpos p) = S754_finite false m e
              /\ exists v, float_value (S754_finite false m e) = Some v
                           /\ (v == inject_Z (Zpos p))%Q.
Proof.
  intros Hp. pose proof (digits2_pos_le_53 p Hp) as Hd.
  unfold float_of_int, binary_normalize, binary_round.
  cbn [Zdigits2]. rewrite Z.add_0_r.
  assert (Hf : fexp 53 1024 (Zpos (digits2_pos p)) = (Zpos (digits2_pos p) - 53)%Z).
  { unfold fexp, emin. lia. }
  rewrite Hf. unfold shl_align.
  destruct (Zpos (digits2_pos p) - 53 - 0)%Z as [|k|k] eqn:Hk; try lia.
  - exists p, 0%Z. rewrite binary_round_aux_exact; [|lia|lia].
    split; [reflexivity|]. eexists. split; reflexivity.
  - unfold shift_pos. exists (Pos.iter xO p k), (Zpos (digits2_pos p) - 53)%Z.
    rewrite binary_round_aux_exact; [|rewrite digits2_pos_iter; lia|lia].
    split; [reflexivity|].
    replace (Zpos (digits2_pos p) - 53)%Z with (Zneg k) by lia.
    eexists. split; [reflexivity|].
    rewrite iter_xO_mul. unfold Qeq, inject_Z. cbn [Qnum Qden]. lia.
Qed.

Lemma fraction_matched_binary64_full (n : nat) :
  (Z.of_nat n < 2 ^ 53)%Z -> fraction_matched_binary64 n n = float_one.
Proof.
  intros Hn. unfold fraction_matched_binary64.
  destruct n as [|n']; [reflexivity|]. cbn [Nat.eqb].
  change (Z.of_nat (S n')) with (Zpos (Pos.of_succ_nat n')) in *.
  destruct (float_of_int_pos _ Hn) as (m & e & -> & _).
  apply SFdiv_same.
Qed.

Lemma fraction_matched_binary64_none (n : nat) :
  0 < n -> (Z.of_nat n < 2 ^ 53)%Z ->
  fraction_matched_binary64 0 n = S754_zero false.
Proof.
  intros Hpos Hn. unfold fraction_matched_binary64.
  destruct n as [|n']; [lia|]. cbn [Nat.eqb].
  change (Z.of_nat (S n')) with (Zpos (Pos.of_succ_nat n')) in *.
  destruct (float_of_int_pos _ Hn) as (m & e & -> & _).
  reflexivity.
Qed.

(** C6, as the code has it: the matched fraction stored for a scanned pair
    is [1.0] when [max_common_len] is [0] and otherwise the binary64
    quotient of [float(diverge_idx)] by [float(max_common_len)], the two
    conversions being exact for traces of fewer than [2 ^ 53] events.  The
    quotient is [1.0] when [diverge_idx = max_common_len] and [0.0] when
    [diverge_idx = 0]; two identical filtered sequences are aligned and
    scanned to their end, no divergence is reported and the fraction is
    [1.0]. *)
Theorem C6_fraction_matched_binary64
        (tid_r : Z) (name_r : string) (a : list string)
        (tid_e : Z) (name_e : string) (b : list string) (sim : Q) :
  (Z.of_nat (length a) < 2 ^ 53)%Z ->
  let r := scan_pair tid_r name_r a tid_e name_e b sim in
  let same := scan_pair tid_r name_r a tid_e name_e a sim in
  (max_common_len r = 0 -> sim_max_common_binary64 r = float_one)
  /\ (0 < max_common_len r ->
      sim_max_common_binary64 r
      = SFdiv 53 1024 (float_of_int (Z.of_nat (diverge_idx r)))
                      (float_of_int (Z.of_nat (max_common_len r)))
      /\ (exists v, float_value (float_of_int (Z.of_nat (max_common_len r))) = Some v
                    /\ (v == inject_Z (Z.of_nat (max_common_len r)))%Q)
      /\ (0 < diverge_idx r ->
          exists v, float_value (float_of_int (Z.of_nat (diverge_idx r))) = Some v
                    /\ (v == inject_Z (Z.of_nat (diverge_idx r)))%Q))
  /\ (diverge_idx r = max_common_len r -> sim_max_common_binary64 r = float_one)
  /\ (0 < max_common_len r -> diverge_idx r = 0 ->
      sim_max_common_binary64 r = S754_zero false)
  /\ trace_aligned a a = true
  /\ diverge_idx same = max_common_len same
  /\ max_common_len same = length a
  /\ real_trace same = None /\ e_trace same = None
  /\ sim_max_common_binary64 same = float_one.
Proof.
  intros Hlen. cbv zeta. unfold sim_max_common_binary64.
  cbn [max_common_len diverge_idx real_trace e_trace scan_pair].
  set (n := length a `min` length b). set (i := scan_loop n 0 a b).
  assert (Hn : (Z.of_nat n < 2 ^ 53)%Z) by (unfold n; lia).
  assert (Hi : i <= n).
  { unfold i. pose proof (scan_loop_bounds n 0 a b). lia. }
  assert (Hval : forall k, 0 < k -> k <= n ->
            exists v, float_value (float_of_int (Z.of_nat k)) = Some v
                      /\ (v == inject_Z (Z.of_nat k))%Q).
  { intros k Hk Hkn. destruct k as [|k']; [lia|].
    change (Z.of_nat (S k')) with (Zpos (Pos.of_succ_nat k')) in *.
    destruct (float_of_int_pos (Pos.of_succ_nat k')) as (m & e & -> & Hv); [lia|].
    exact Hv. }
  split; [|split; [|split; [|split]]].
  - intros ->. reflexivity.
  - intros Hpos. split; [|split].
    + unfold fraction_matched_binary64.
      destruct (Nat.eqb_spec n 0); [lia | reflexivity].
    + apply Hval; lia.
    + intros Hipos. apply Hval; lia.
  - intros ->. apply fraction_matched_binary64_full. exact Hn.
  - intros Hpos ->. apply fraction_matched_binary64_none; assumption.
  - split.
    { unfold trace_aligned. destruct a; simpl; [reflexivity|].
      rewrite bool_decide_eq_true_2; reflexivity. }
    rewrite scan_loop_same, Nat.min_id. simpl.
    rewrite !context_None by lia.
    repeat split; try lia. apply fraction_matched_binary64_full. exact Hlen.
Qed.

(** C6 as stated fails: the fraction is a binary64 quotient, not the exact
    ratio.  For a pair that agrees on one event out of three, the stored
    float is [6004799503160661 * 2 ^ -54], which is not one third. *)
Lemma C6_counterexample :
  trace_aligned one_of_three_real one_of_three_emu = true
  /\ max_common_len (scan_pair 1 "main" one_of_three_real 1 "main" one_of_three_emu 1) = 3
  /\ diverge_idx (scan_pair 1 "main" one_of_three_real 1 "main" one_of_three_emu 1) = 1
  /\ sim_max_common_binary64
       (scan_pair 1 "main" one_of_three_real 1 "main" one_of_three_emu 1)
     = S754_finite false 6004799503160661 (-54)
  /\ float_value
       (sim_max_common_binary64
          (scan_pair 1 "main" one_of_three_real 1 "main" one_of_three_emu 1))
     = Some (6004799503160661 # 18014398509481984)%Q
  /\ (6004799503160661 # 18014398509481984 < 1 # 3)%Q.
Proof.
  split; [reflexivity|]. split; [reflexivity|]. split; [reflexivity|].
  split; [vm_compute; reflexivity|]. split; [vm_compute; reflexivity|].
  reflexivity.
Qed.

Lemma C6_witness :
  (Z.of_nat (length one_of_three_real) < 2 ^ 53)%Z
  /\ sim_max_common_binary64
       (scan_pair 1 "main" one_of_three_real 1 "main" one_of_three_real 1) = float_one
  /\ diverge_idx (scan_pair 1 "main" one_of_three_real 1 "main" one_of_three_real 1) = 3.
Proof.
  assert (Hlen : (Z.of_nat (length one_of_three_real) < 2 ^ 53)%Z) by reflexivity.
  split; [exact Hlen|].
  pose proof (C6_fraction_matched_binary64
                1%Z "main" one_of_three_real 1%Z "main" one_of_three_emu 1%Q Hlen)
    as (_ & _ & _ & _ & _ & Hidx & Hmax & _ & _ & Hone).
  split; [exact Hone|]. rewrite Hidx, Hmax. reflexivity.
Defined.

(** * Further properties *)

(** ** [clean_trace] as a filter *)

Lemma has_identifier_returns (trace_str : string) :
  has_identifier trace_str = true <-> returns (trace_str_to_class_method trace_str).
Proof.
  unfold has_identifier, returns.
  destruct (trace_str_to_class_method trace_str) as [id|e]; split.
  - eauto.
  - reflexivity.
  - discriminate.
  - intros [a H]. discriminate H.
Qed.

Lemma trace_str_to_class_method_Raise (trace_str : string) (e : exn) :
  trace_str_to_class_method trace_str = Raise e -> e = IndexError.
Proof. apply skip_to_alpha_Raise. Qed.

Lemma clean_trace_acc (trace_list acc : list string) :
  rfold (fun ret_trace_list trace_str =>
           let* trimmed_trace_str := trace_str_to_class_method trace_str in
           if trace_removed trimmed_trace_str
           then Ok ret_trace_list
           else Ok (ret_trace_list ++ [trace_str]))
        acc trace_list
  = if forallb has_identifier trace_list
    then Ok (acc ++ filter (fun ev => is_noise ev = false) trace_list)
    else Raise IndexError.
Proof.
  revert acc. induction trace_list as [|ev evs IH]; intros acc.
  - simpl. rewrite app_nil_r. reflexivity.
  - cbn [rfold forallb]. unfold has_identifier at 1.
    destruct (trace_str_to_class_method ev) as [id|e] eqn:Hev; cbn [rbind andb].
    + destruct (trace_removed id) eqn:Hrm; cbn [rbind]; rewrite IH;
        destruct (forallb has_identifier evs); try reflexivity.
      * rewrite filter_cons_False; [reflexivity|].
        unfold is_noise. rewrite Hev, Hrm. discriminate.
      * rewrite filter_cons_True.
        -- rewrite <- app_assoc. reflexivity.
        -- unfold is_noise. rewrite Hev. exact Hrm.
    + rewrite (trace_str_to_class_method_Raise _ _ Hev). reflexivity.
Qed.

(** X1: [clean_trace] is a filter.  When every event of the list has an
    identifier the result is the list of the events that are not noise, in
    their order; otherwise the call raises [IndexError]. *)
Theorem X1_clean_trace_is_filter (trace_list : list string) :
  clean_trace trace_list
  = if forallb has_identifier trace_list
    then Ok (filter (fun ev => is_noise ev = false) trace_list)
    else Raise IndexError.
Proof. unfold clean_trace. rewrite clean_trace_acc. reflexivity. Qed.

Lemma clean_trace_Ok (trace_list cleaned : list string) :
  clean_trace trace_list = Ok cleaned <->
  forallb has_identifier trace_list = true
  /\ cleaned = filter (fun ev => is_noise ev = false) trace_list.
Proof.
  unfold clean_trace. rewrite clean_trace_acc.
  destruct (forallb has_identifier trace_list); simpl; split.
  - intros [= <-]. auto.
  - intros [_ ->]. reflexivity.
  - discriminate.
  - intros [? _]. discriminate.
Qed.

Lemma forallb_filter {A : Type} (p : A -> bool) (P : A -> Prop)
      `{forall x, Decision (P x)} (l : list A) :
  forallb p l = true -> forallb p (filter P l) = true.
Proof.
  rewrite !forallb_forall. intros Hl x Hx. apply Hl.
  apply list_elem_of_In in Hx. apply list_elem_of_filter in Hx as [_ Hx].
  apply list_elem_of_In. exact Hx.
Qed.

(** X2: cleaning is idempotent, and the cleaned trace is a sublist of the
    trace that is not longer and holds no noise. *)
Theorem X2_clean_trace_idempotent (trace_list cleaned : list string) :
  clean_trace trace_list = Ok cleaned ->
  clean_trace cleaned = Ok cleaned
  /\ sublist cleaned trace_list
  /\ length cleaned <= length trace_list
  /\ Forall (fun ev => is_noise ev = false) cleaned.
Proof.
  intros H. apply clean_trace_Ok in H as [Hids ->].
  split; [|split; [|split]].
  - apply clean_trace_Ok. split.
    + apply forallb_filter. exact Hids.
    + symmetry. apply list_filter_filter_l. auto.
  - apply sublist_filter.
  - apply length_filter.
  - apply Forall_forall. intros ev Hev.
    apply list_elem_of_filter in Hev as [Hev _]. exact Hev.
Qed.

Lemma X2_witness :
  clean_trace ["ent! ..com.app.Main.run ()V Main.java"]
  = Ok ["ent! ..com.app.Main.run ()V Main.java"]
  /\ sublist ["ent! ..com.app.Main.run ()V Main.java"]
             ["ent android.os.Handler.handle (I)V Handler.java";
              "ent! ..com.app.Main.run ()V Main.java";
              "xit java.lang.Object.init ()V Object.java"]
  /\ length ["ent! ..com.app.Main.run ()V Main.java"] <= 3
  /\ Forall (fun ev => is_noise ev = false) ["ent! ..com.app.Main.run ()V Main.java"].
Proof.
  apply (X2_clean_trace_idempotent
           ["ent android.os.Handler.handle (I)V Handler.java";
            "ent! ..com.app.Main.run ()V Main.java";
            "xit java.lang.Object.init ()V Object.java"]).
  reflexivity.
Defined.

(** X3: cleaning two traces one after the other is cleaning their
    concatenation: the filter looks at one event at a time. *)
Theorem X3_clean_trace_app (l1 l2 : list string) :
  clean_trace (l1 ++ l2)
  = let* c1 := clean_trace l1 in
    let* c2 := clean_trace l2 in
    Ok (c1 ++ c2).
Proof.
  unfold clean_trace. rewrite !clean_trace_acc, forallb_app, filter_app.
  destruct (forallb has_identifier l1); simpl; [|reflexivity].
  destruct (forallb has_identifier l2); reflexivity.
Qed.

(** ** Identifiers and noise *)

Lemma prefix_space_cut (p m r : string) :
  no_space p = true -> String.prefix p (m +:+ String " " r) = String.prefix p m.
Proof.
  revert p. induction m as [|b m IH]; intros p Hp.
  - destruct p as [|a p]; [reflexivity|]. simpl.
    destruct (ascii_dec a " ") as [->|_]; [|reflexivity].
    unfold no_space in Hp. simpl in Hp. discriminate Hp.
  - destruct p as [|a p]; [reflexivity|]. simpl.
    destruct (ascii_dec a b); [|reflexivity]. apply IH.
    unfold no_space in *. simpl in Hp. apply andb_true_iff in Hp as [_ Hp]. exact Hp.
Qed.

Lemma trace_removed_space_cut (m r : string) :
  trace_removed (m +:+ String " " r) = trace_removed m.
Proof.
  unfold trace_removed, startswith, ex_class_list. cbn [existsb].
  rewrite !prefix_space_cut by reflexivity. reflexivity.
Qed.

(** X4: whether an event line is noise depends only on its method field
    read from its first letter (here [m]): not on the kind, the exclamation
    marks, the characters before the first letter, the signature or the
    location.  The line is dropped by [clean_trace] exactly when [m] starts
    with one of the excluded prefixes. *)
Theorem X4_noise_depends_on_method_only (it : trace_item) (n : nat) (m : string) :
  is_kind (item_kind it) -> item_excl it = bangs n ->
  skip_to_alpha (item_method it) = Ok m ->
  trace_str_to_class_method (format_item it)
  = Ok (m +:+ " " +:+ item_sig it +:+ " " +:+ item_loc it)
  /\ is_noise (format_item it) = trace_removed m
  /\ clean_trace [format_item it]
     = Ok (if trace_removed m then [] else [format_item it]).
Proof.
  intros Hk Hn Hm.
  assert (Hid : trace_str_to_class_method (format_item it)
                = Ok (m +:+ " " +:+ item_sig it +:+ " " +:+ item_loc it)).
  { unfold format_item. rewrite Hn, class_method_of_event by exact Hk.
    apply skip_to_alpha_app. exact Hm. }
  assert (Hnoise : is_noise (format_item it) = trace_removed m).
  { unfold is_noise. rewrite Hid. apply trace_removed_space_cut. }
  split; [exact Hid|]. split; [exact Hnoise|].
  unfold clean_trace. rewrite clean_trace_acc. cbn [forallb].
  unfold has_identifier. rewrite Hid. cbn [andb app].
  rewrite filter_cons, filter_nil. rewrite Hnoise.
  destruct (trace_removed m); reflexivity.
Qed.

Lemma X4_witness :
  trace_str_to_class_method
    (format_item (mk_item 1 "xit" "!" "..android.os.Looper.loop" "()V" "Looper.java"))
  = Ok "android.os.Looper.loop ()V Looper.java"
  /\ is_noise (format_item (mk_item 1 "xit" "!" "..android.os.Looper.loop" "()V"
                                    "Looper.java")) = true
  /\ clean_trace [format_item (mk_item 1 "xit" "!" "..android.os.Looper.loop" "()V"
                                       "Looper.java")] = Ok [].
Proof.
  apply (X4_noise_depends_on_method_only
           (mk_item 1 "xit" "!" "..android.os.Looper.loop" "()V" "Looper.java")
           1 "android.os.Looper.loop").
  - right. left. reflexivity.
  - reflexivity.
  - reflexivity.
Defined.

Lemma str_from_length (k : nat) (s : string) :
  String.length (str_from k s) = String.length s - k.
Proof.
  revert s. induction k as [|k IH]; intros s; simpl; [lia|].
  destruct s as [|c s]; simpl; [reflexivity | apply IH].
Qed.

Lemma str_from_get_0 (k : nat) (s : string) (c : ascii) :
  String.get k s = Some c -> exists rest, str_from k s = String c rest.
Proof.
  revert s. induction k as [|k IH]; intros s; destruct s as [|d s]; simpl;
    try discriminate.
  - intros [= ->]. eauto.
  - apply IH.
Qed.

Lemma get_Some_lt (k : nat) (s : string) (c : ascii) :
  String.get k s = Some c -> k < String.length s.
Proof.
  revert s. induction k as [|k IH]; intros s; destruct s as [|d s]; simpl;
    try discriminate; [lia|].
  intros H. apply IH in H. lia.
Qed.

Lemma skip_to_alpha_Raise_all (s : string) (e : exn) :
  skip_to_alpha s = Raise e ->
  forall k c, String.get k s = Some c -> isalpha c = false.
Proof.
  induction s as [|a s IH]; simpl; intros H k c Hget.
  - destruct k; discriminate.
  - destruct (isalpha a) eqn:Ha; [discriminate|].
    destruct k as [|k]; simpl in Hget.
    + injection Hget as <-. exact Ha.
    + eapply IH; eassumption.
Qed.

(** X5: [trace_str_to_class_method] raises [IndexError] exactly when the
    string has no letter at index 4 or later (so always when it has fewer
    than 5 characters), and raises nothing else.  When it returns, the
    identifier is the part of the string from some index [k >= 4] to the end,
    it starts with a letter, and no letter stands between index 4 and [k]. *)
Theorem X5_class_method_result (trace_str : string) :
  (trace_str_to_class_method trace_str = Raise IndexError <->
   forall k c, 4 <= k -> String.get k trace_str = Some c -> isalpha c = false)
  /\ (forall e, trace_str_to_class_method trace_str = Raise e -> e = IndexError)
  /\ (String.length trace_str <= 4 ->
      trace_str_to_class_method trace_str = Raise IndexError)
  /\ (forall id, trace_str_to_class_method trace_str = Ok id ->
        exists k c rest,
          4 <= k /\ id = str_from k trace_str /\ id = String c rest
          /\ isalpha c = true
          /\ String.length id + k = String.length trace_str
          /\ forall j d, 4 <= j < k -> String.get j trace_str = Some d ->
                         isalpha d = false).
Proof.
  assert (Hraise : trace_str_to_class_method trace_str = Raise IndexError <->
   forall k c, 4 <= k -> String.get k trace_str = Some c -> isalpha c = false).
  { split.
    - intros Hr k c Hk Hget. unfold trace_str_to_class_method in Hr.
      simpl String.length in Hr.
      apply (skip_to_alpha_Raise_all _ _ Hr (k - 4)).
      rewrite str_from_get. replace (4 + (k - 4)) with k by lia. exact Hget.
    - intros Hall. destruct (trace_str_to_class_method trace_str) as [id|e] eqn:Hid.
      + apply trace_str_to_class_method_index in Hid
          as (k & c & Hk & Hget & Hc & _). rewrite (Hall k c Hk Hget) in Hc. discriminate.
      + f_equal. eapply trace_str_to_class_method_Raise. exact Hid. }
  split; [exact Hraise|]. split; [apply trace_str_to_class_method_Raise|]. split.
  - intros Hlen. apply Hraise. intros k c Hk Hget.
    apply get_Some_lt in Hget. lia.
  - intros id Hid. apply trace_str_to_class_method_index in Hid
      as (k & c & Hk & Hget & Hc & Hbefore & ->).
    destruct (str_from_get_0 _ _ _ Hget) as [rest Hrest].
    exists k, c, rest. repeat split; try assumption.
    + rewrite str_from_length. apply get_Some_lt in Hget. lia.
    + intros j d Hj Hd. destruct (Hbefore j Hj) as (d' & Hd' & Hfalse). congruence.
Qed.

(** ** The similarity score *)

Lemma ratio_product (x1 y1 x2 y2 : nat) :
  0 < y1 -> 0 < y2 ->
  let q := ((inject_Z (Z.of_nat x1) / inject_Z (Z.of_nat y1))
            * (inject_Z (Z.of_nat x2) / inject_Z (Z.of_nat y2)))%Q in
  ((q == 0)%Q <-> x1 = 0 \/ x2 = 0)
  /\ ((q == 1)%Q <-> x1 * x2 = y1 * y2)
  /\ ((0 <= q)%Q /\ (x1 <= y1 -> x2 <= y2 -> (q <= 1)%Q)).
Proof.
  intros H1 H2. destruct y1 as [|n1]; [lia|]. destruct y2 as [|n2]; [lia|].
  cbv zeta. unfold Qeq, Qle, Qdiv, Qmult, Qinv, inject_Z.
  change (Z.of_nat (S n1)) with (Z.pos (Pos.of_succ_nat n1)).
  change (Z.of_nat (S n2)) with (Z.pos (Pos.of_succ_nat n2)).
  cbn [Qnum Qden].
  assert (Hp1 : Z.pos (Pos.of_succ_nat n1) = Z.of_nat (S n1)) by reflexivity.
  assert (Hp2 : Z.pos (Pos.of_succ_nat n2) = Z.of_nat (S n2)) by reflexivity.
  rewrite !Pos2Z.inj_mul, Hp1, Hp2. change (Z.pos 1) with 1%Z.
  split; [|split; [|split]].
  - split; [nia | intros [-> | ->]; simpl; lia].
  - split; nia.
  - nia.
  - intros Hx1 Hx2. nia.
Qed.

Lemma commonprefix_length (a b : string) :
  String.length (commonprefix a b) <= String.length a `min` String.length b.
Proof.
  revert b. induction a as [|c a IH]; intros [|d b]; simpl; try lia.
  destruct (Ascii.eqb c d); simpl; [specialize (IH b)|]; lia.
Qed.

Lemma commonprefix_comm (a b : string) : commonprefix a b = commonprefix b a.
Proof.
  revert b. induction a as [|c a IH]; intros [|d b]; simpl; try reflexivity.
  rewrite (Ascii.eqb_sym d c). destruct (Ascii.eqb_spec c d) as [->|_];
    [rewrite IH|]; reflexivity.
Qed.

Lemma commonprefix_full (a b : string) :
  String.length (commonprefix a b) = String.length a `max` String.length b <-> a = b.
Proof.
  split.
  - revert b. induction a as [|c a IH]; intros [|d b]; simpl; try discriminate;
      try reflexivity.
    destruct (Ascii.eqb_spec c d) as [->|_]; simpl; [|lia].
    intros H. f_equal. apply IH. lia.
  - intros <-. rewrite Nat.max_id. induction a as [|c a IH]; simpl; [reflexivity|].
    rewrite Ascii.eqb_refl. simpl. f_equal. exact IH.
Qed.

Lemma identifiers_of_rmap (trace_list ids : list string) :
  rmap trace_str_to_class_method trace_list = Ok ids ->
  identifiers trace_list = list_to_set ids.
Proof.
  intros H. unfold identifiers. rewrite class_methods_eq, H. reflexivity.
Qed.

(** The value of the score, when there is one. *)
Lemma trace_similarity_value (name_a : string) (trace_a : list string)
      (name_b : string) (trace_b : list string) (q : Q) :
  trace_similarity name_a trace_a name_b trace_b = Ok q ->
  0 < String.length name_a `max` String.length name_b
  /\ 0 < size (identifiers trace_a ∪ identifiers trace_b)
  /\ q = (name_ratio name_a name_b
          * jaccard (identifiers trace_a) (identifiers trace_b))%Q.
Proof.
  intros H. apply trace_similarity_Ok in H as (ids_a & ids_b & Ha & Hb & Hn & Hc & ->).
  rewrite (identifiers_of_rmap _ _ Ha), (identifiers_of_rmap _ _ Hb).
  split; [lia|]. split; [lia|]. reflexivity.
Qed.

Lemma trace_similarity_bounds (name_a : string) (trace_a : list string)
      (name_b : string) (trace_b : list string) (q : Q) :
  trace_similarity name_a trace_a name_b trace_b = Ok q -> (0 <= q)%Q /\ (q <= 1)%Q.
Proof.
  intros H. apply trace_similarity_value in H as (Hn & Hc & ->).
  unfold name_ratio, jaccard.
  destruct (ratio_product (String.length (commonprefix name_a name_b)) _
                          (size (identifiers trace_a ∩ identifiers trace_b))
                          _ Hn Hc) as (_ & _ & Hge & Hle).
  split; [exact Hge|]. apply Hle.
  - pose proof (commonprefix_length name_a name_b). lia.
  - apply subseteq_size. intros x Hx. apply elem_of_intersection in Hx as [Hx _].
    apply elem_of_union_l. exact Hx.
Qed.

(** X6: a similarity score returned by [trace_similarity] lies between 0
    and 1. *)
Theorem X6_similarity_bounds (name_a : string) (trace_a : list string)
        (name_b : string) (trace_b : list string) (q : Q) :
  trace_similarity name_a trace_a name_b trace_b = Ok q ->
  (0 <= q)%Q /\ (q <= 1)%Q.
Proof.
  intros H. eapply trace_similarity_bounds. exact H.
Qed.

Lemma X6_witness :
  (exists q,
     trace_similarity "main" ["ent a.B.c ()V B.java"; "xit a.B.c ()V B.java"]
                      "mail" ["ent! a.B.c ()V B.java"; "ent a.B.d ()V B.java"] = Ok q)
  /\ (0 <= 3 # 8)%Q /\ (3 # 8 <= 1)%Q.
Proof.
  split; [eexists; vm_compute; reflexivity|].
  apply (X6_similarity_bounds
           "main" ["ent a.B.c ()V B.java"; "xit a.B.c ()V B.java"]
           "mail" ["ent! a.B.c ()V B.java"; "ent a.B.d ()V B.java"]).
  vm_compute. reflexivity.
Defined.

Lemma class_methods_Raise (trace_list : list string) (e : exn) :
  class_methods trace_list = Raise e -> e = IndexError.
Proof.
  rewrite class_methods_eq.
  destruct (rmap trace_str_to_class_method trace_list) as [ids|e'] eqn:H; simpl.
  - discriminate.
  - intros [= <-]. eapply rmap_id_Raise. exact H.
Qed.

(** X7: the similarity is symmetric: exchanging the two threads gives the
    same score, or the same exception. *)
Theorem X7_similarity_symmetric (name_a : string) (trace_a : list string)
        (name_b : string) (trace_b : list string) :
  trace_similarity name_a trace_a name_b trace_b
  = trace_similarity name_b trace_b name_a trace_a.
Proof.
  unfold trace_similarity.
  destruct (class_methods trace_a) as [sa|ea] eqn:Ha;
    destruct (class_methods trace_b) as [sb|eb] eqn:Hb; cbn [rbind].
  - rewrite (commonprefix_comm name_b name_a),
      (Nat.max_comm (String.length name_b) (String.length name_a)),
      (comm_L (∩) sb sa), (comm_L (∪) sb sa).
    reflexivity.
  - reflexivity.
  - rewrite (class_methods_Raise _ _ Ha). reflexivity.
  - rewrite (class_methods_Raise _ _ Ha), (class_methods_Raise _ _ Hb). reflexivity.
Qed.

(** X8: the extreme scores.  A score is 0 exactly when the two names have
    no common first character or the two threads share no identifier; it is
    1 exactly when the two names are equal and the two threads have the same
    set of identifiers. *)
Theorem X8_similarity_extremes (name_a : string) (trace_a : list string)
        (name_b : string) (trace_b : list string) (q : Q) :
  trace_similarity name_a trace_a name_b trace_b = Ok q ->
  ((q == 0)%Q <->
     commonprefix name_a name_b = EmptyString
     \/ identifiers trace_a ∩ identifiers trace_b = ∅)
  /\ ((q == 1)%Q <->
        name_a = name_b /\ identifiers trace_a = identifiers trace_b).
Proof.
  intros H. apply trace_similarity_value in H as (Hn & Hc & ->).
  unfold name_ratio, jaccard.
  destruct (ratio_product (String.length (commonprefix name_a name_b)) _
                          (size (identifiers trace_a ∩ identifiers trace_b))
                          _ Hn Hc) as (H0 & H1 & _).
  pose proof (commonprefix_length name_a name_b) as Hcp.
  assert (Hsub : identifiers trace_a ∩ identifiers trace_b
                 ⊆ identifiers trace_a ∪ identifiers trace_b).
  { intros x Hx. apply elem_of_intersection in Hx as [Hx _].
    apply elem_of_union_l. exact Hx. }
  pose proof (subseteq_size _ _ Hsub) as Hsz.
  split.
  - rewrite H0, string_length_0, size_empty_iff. unfold_leibniz. reflexivity.
  - rewrite H1, <- commonprefix_full. split.
    + intros Hprod.
      assert (String.length (commonprefix name_a name_b)
              = String.length name_a `max` String.length name_b
              /\ size (identifiers trace_a ∩ identifiers trace_b)
                 = size (identifiers trace_a ∪ identifiers trace_b)) as [Hl Hs] by nia.
      split; [exact Hl|].
      assert (identifiers trace_a ∩ identifiers trace_b
              = identifiers trace_a ∪ identifiers trace_b) as Heq.
      { apply set_subseteq_size_eq; [exact Hsub | lia]. }
      apply set_eq. intros x. split; intros Hx.
      * assert (x ∈ identifiers trace_a ∪ identifiers trace_b) as Hu
            by (apply elem_of_union_l; exact Hx).
        rewrite <- Heq in Hu. apply elem_of_intersection in Hu as [_ Hu]. exact Hu.
      * assert (x ∈ identifiers trace_a ∪ identifiers trace_b) as Hu
            by (apply elem_of_union_r; exact Hx).
        rewrite <- Heq in Hu. apply elem_of_intersection in Hu as [Hu _]. exact Hu.
    + intros [Hl Hs]. rewrite Hl, Hs.
      rewrite (idemp_L (∩)), (idemp_L (∪)). reflexivity.
Qed.

Lemma X8_witness :
  ((3 # 8 == 0)%Q <->
     commonprefix "main" "mail" = EmptyString
     \/ identifiers ["ent a.B.c ()V B.java"; "xit a.B.c ()V B.java"]
        ∩ identifiers ["ent! a.B.c ()V B.java"; "ent a.B.d ()V B.java"] = ∅)
  /\ ((3 # 8 == 1)%Q <->
        "main" = "mail"
        /\ identifiers ["ent a.B.c ()V B.java"; "xit a.B.c ()V B.java"]
           = identifiers ["ent! a.B.c ()V B.java"; "ent a.B.d ()V B.java"]).
Proof.
  apply (X8_similarity_extremes
           "main" ["ent a.B.c ()V B.java"; "xit a.B.c ()V B.java"]
           "mail" ["ent! a.B.c ()V B.java"; "ent a.B.d ()V B.java"]).
  vm_compute. reflexivity.
Defined.

(** ** [process_trace]: declarations, errors, conservation of events *)

Lemma declare_threads_lookup (decls : list (Z * string)) (tid : Z) :
  declare_threads decls !! tid
  = (fun nm => {| name := nm; trace := [] |}) <$> declared_name decls tid.
Proof.
  unfold declare_threads, declared_name.
  assert (H : forall info : gmap Z thread,
             foldl (fun info decl =>
                      <[decl.1 := {| name := decl.2; trace := [] |}]> info) info decls
               !! tid
             = match last (filter (fun decl => decl.1 = tid) decls) with
               | Some d => Some {| name := d.2; trace := [] |}
               | None => info !! tid
               end).
  { induction decls as [|[k nm] decls IH]; intros info; simpl; [reflexivity|].
    rewrite IH. destruct (decide (k = tid)) as [->|Hne].
    - rewrite filter_cons_True by reflexivity. rewrite last_cons.
      destruct (last (filter (fun decl => decl.1 = tid) decls)); [reflexivity|].
      simpl. apply lookup_insert_eq.
    - rewrite filter_cons_False by (simpl; congruence).
      destruct (last (filter (fun decl => decl.1 = tid) decls)); [reflexivity|].
      simpl. apply lookup_insert_ne. exact Hne. }
  rewrite H, lookup_empty.
  destruct (last (filter (fun decl => decl.1 = tid) decls)); reflexivity.
Qed.

Lemma declared_name_is_Some (decls : list (Z * string)) (tid : Z) :
  is_Some (declared_name decls tid) <-> tid ∈ decls.*1.
Proof.
  unfold declared_name. rewrite fmap_is_Some, list_elem_of_fmap. split.
  - intros [d Hd]. apply last_Some in Hd as [l Hl].
    assert (d ∈ filter (fun decl => decl.1 = tid) decls) as Hin.
    { rewrite Hl. apply elem_of_app. right. left. }
    apply list_elem_of_filter in Hin as [Hd1 Hd]. exists d. auto.
  - intros (d & -> & Hd).
    destruct (last (filter (fun decl => decl.1 = d.1) decls)) as [d'|] eqn:Hl; [eauto|].
    apply last_None in Hl.
    assert (d ∈ filter (fun decl => decl.1 = d.1) decls) as Hin
        by (apply list_elem_of_filter; auto).
    rewrite Hl in Hin. inversion Hin.
Qed.

Lemma declare_threads_is_Some (decls : list (Z * string)) (tid : Z) :
  is_Some (declare_threads decls !! tid) <-> tid ∈ decls.*1.
Proof.
  rewrite declare_threads_lookup, fmap_is_Some. apply declared_name_is_Some.
Qed.

(** The event loop returns exactly when every event belongs to a thread of
    the dictionary, and its only exception is the [KeyError] of the lookup. *)
Lemma append_items_result (items : list trace_item) (info : gmap Z thread) :
  (returns (rfold append_item info items) <->
   Forall (fun it => is_Some (info !! item_tid it)) items)
  /\ (forall e, rfold append_item info items = Raise e -> e = KeyError).
Proof.
  revert info. induction items as [|it items IH]; intros info; simpl.
  - split; [|discriminate]. split; [constructor | intros _; eexists; reflexivity].
  - unfold append_item at 1 3. unfold dict_get.
    destruct (info !! item_tid it) as [thr|] eqn:Hthr; simpl.
    + destruct (IH (<[item_tid it := {| name := name thr;
                                        trace := trace thr ++ [format_item it] |}]> info))
        as [IHr IHe].
      split; [|exact IHe]. rewrite IHr, Forall_cons. split.
      * intros H. split; [eauto|]. eapply Forall_impl; [exact H|].
        intros it' Hit'. simpl in Hit'.
        destruct (decide (item_tid it = item_tid it')) as [Heq|Hne].
        -- rewrite <- Heq. eauto.
        -- rewrite lookup_insert_ne in Hit' by exact Hne. exact Hit'.
      * intros [_ H]. eapply Forall_impl; [exact H|].
        intros it' Hit'. simpl.
        destruct (decide (item_tid it = item_tid it')) as [Heq|Hne].
        -- rewrite <- Heq, lookup_insert_eq. eauto.
        -- rewrite lookup_insert_ne by exact Hne. exact Hit'.
    + split.
      * split.
        -- intros [a H]. discriminate H.
        -- intros H. apply Forall_cons in H as [[thr' H] _]. congruence.
      * intros e [= <-]. reflexivity.
Qed.

(** X9: [process_trace] returns exactly when every event line carries the
    id of a declared thread; otherwise it raises [KeyError], and nothing
    else. *)
Theorem X9_process_trace_returns_iff (dt : decoded_trace) :
  (returns (process_trace dt) <->
   Forall (fun it => item_tid it ∈ (dt_threads dt).*1) (dt_items dt))
  /\ (forall e, process_trace dt = Raise e -> e = KeyError).
Proof.
  unfold process_trace.
  destruct (append_items_result (dt_items dt) (declare_threads (dt_threads dt)))
    as [Hr He].
  split.
  - assert (Hdecl : Forall (fun it => item_tid it ∈ (dt_threads dt).*1) (dt_items dt)
                    <-> Forall (fun it => is_Some (declare_threads (dt_threads dt)
                                                     !! item_tid it)) (dt_items dt)).
    { apply Forall_iff. intros it. symmetry. apply declare_threads_is_Some. }
    rewrite Hdecl, <- Hr. split.
    + intros [obj H]. apply rbind_Ok in H as (info & Hinfo & _). eexists. exact Hinfo.
    + intros [info Hinfo]. rewrite Hinfo. eexists. reflexivity.
  - intros e H.
    destruct (rfold append_item (declare_threads (dt_threads dt)) (dt_items dt))
      as [info|e0] eqn:Hinfo; [discriminate|].
    simpl in H. injection H as <-. apply He. reflexivity.
Qed.

(** X10: the trace object keeps the version of the input; each of its
    threads carries the name of the last thread line that declares its id
    (a later declaration of the same id replaces the name, not the events)
    and the formatted event lines of that id, in file order. *)
Theorem X10_process_trace_threads (dt : decoded_trace) (obj : trace_obj) :
  process_trace dt = Ok obj ->
  version obj = dt_version dt
  /\ forall tid thr,
       thread_info obj !! tid = Some thr <->
       declared_name (dt_threads dt) tid = Some (name thr)
       /\ trace thr = events_of tid (dt_items dt)
       /\ events_of tid (dt_items dt) ≠ [].
Proof.
  intros H. split.
  - unfold process_trace in H. apply rbind_Ok in H as (info & _ & [= <-]). reflexivity.
  - intros tid thr. rewrite (process_trace_lookup _ _ _ _ H).
    rewrite declare_threads_lookup. split.
    + intros (thr0 & H0 & -> & Hne).
      destruct (declared_name (dt_threads dt) tid) as [nm|]; [|discriminate].
      injection H0 as <-. auto.
    + intros (Hnm & Htr & Hne). rewrite Hnm. eexists. split; [reflexivity|].
      split; [|exact Hne]. destruct thr as [nm tr]. simpl in *. congruence.
Qed.

Lemma X10_witness :
  version (trace_obj_of two_threads_emu) = 3%Z
  /\ forall tid thr,
       thread_info (trace_obj_of two_threads_emu) !! tid = Some thr <->
       declared_name (dt_threads two_threads_emu) tid = Some (name thr)
       /\ trace thr = events_of tid (dt_items two_threads_emu)
       /\ events_of tid (dt_items two_threads_emu) ≠ [].
Proof.
  apply (X10_process_trace_threads two_threads_emu (trace_obj_of two_threads_emu)).
  vm_compute. reflexivity.
Defined.

Lemma sum_indicator (keys : list Z) (tid : Z) :
  NoDup keys -> tid ∈ keys ->
  sum_list_with (fun k => if decide (tid = k) then 1 else 0) keys = 1.
Proof.
  induction 1 as [|k keys Hk Hnd IH]; intros Hin; [inversion Hin|].
  simpl. destruct (decide (tid = k)) as [->|Hne].
  - assert (sum_list_with (fun k' => if decide (k = k') then 1 else 0) keys = 0) as ->;
      [|reflexivity].
    clear IH Hin Hnd. induction keys as [|k' keys IH]; [reflexivity|]. simpl.
    destruct (decide (k = k')) as [->|_].
    + exfalso. apply Hk. left.
    + apply IH. intros Hin. apply Hk. right. exact Hin.
  - apply elem_of_cons in Hin as [?|Hin]; [contradiction|]. apply IH. exact Hin.
Qed.

Lemma sum_list_with_add {A : Type} (f g : A -> nat) (l : list A) :
  sum_list_with (fun x => f x + g x) l = sum_list_with f l + sum_list_with g l.
Proof. induction l as [|x l IH]; simpl; [reflexivity | rewrite IH; lia]. Qed.

Lemma sum_list_with_ext_in {A : Type} (f g : A -> nat) (l : list A) :
  (forall x, x ∈ l -> f x = g x) -> sum_list_with f l = sum_list_with g l.
Proof.
  induction l as [|x l IH]; intros H; simpl; [reflexivity|].
  rewrite (H x) by left. rewrite IH; [reflexivity|].
  intros y Hy. apply H. right. exact Hy.
Qed.

Lemma events_conserved (keys : list Z) (items : list trace_item) :
  NoDup keys -> Forall (fun it => item_tid it ∈ keys) items ->
  sum_list_with (fun tid => length (events_of tid items)) keys = length items.
Proof.
  intros Hnd. induction 1 as [|it items Hit _ IH].
  - unfold events_of. simpl. clear Hnd. induction keys; [reflexivity|]. simpl. auto.
  - rewrite length_cons, <- Nat.add_1_l, <- IH.
    rewrite <- (sum_indicator keys (item_tid it) Hnd Hit), <- sum_list_with_add.
    apply sum_list_with_ext_in. intros tid _. unfold events_of.
    destruct (decide (item_tid it = tid)) as [Heq|Hne].
    + rewrite filter_cons_True by exact Heq. reflexivity.
    + rewrite filter_cons_False by exact Hne. reflexivity.
Qed.

(** X11: no event is lost or duplicated by [process_trace]: every event
    line is in the trace of the thread it names, and the traces of the
    threads of the trace object hold together as many events as the input
    has event lines. *)
Theorem X11_process_trace_conserves_events (dt : decoded_trace) (obj : trace_obj) :
  process_trace dt = Ok obj ->
  (forall it, it ∈ dt_items dt ->
     item_tid it ∈ sorted_keys (thread_info obj)
     /\ format_item it ∈ trace_of obj (item_tid it))
  /\ sum_list_with (fun tid => length (trace_of obj tid)) (sorted_keys (thread_info obj))
     = length (dt_items dt).
Proof.
  intros H.
  assert (Htrace : forall tid, tid ∈ sorted_keys (thread_info obj) ->
                               trace_of obj tid = events_of tid (dt_items dt)).
  { intros tid Htid. apply elem_of_sorted_keys in Htid as [thr Hthr].
    unfold trace_of. rewrite Hthr.
    apply (process_trace_lookup _ _ _ _ H) in Hthr as (thr0 & _ & -> & _). reflexivity. }
  assert (Hkeys : forall it, it ∈ dt_items dt ->
                             item_tid it ∈ sorted_keys (thread_info obj)).
  { intros it Hit. apply (process_trace_keys _ _ _ H). eauto. }
  split.
  - intros it Hit. split; [apply Hkeys; exact Hit|].
    rewrite (Htrace _ (Hkeys it Hit)). unfold events_of.
    apply list_elem_of_fmap. exists it. split; [reflexivity|].
    apply list_elem_of_filter. auto.
  - rewrite (sum_list_with_ext_in _ (fun tid => length (events_of tid (dt_items dt)))).
    + apply events_conserved; [apply NoDup_sorted_keys|].
      apply Forall_forall. exact Hkeys.
    + intros tid Htid. rewrite (Htrace tid Htid). reflexivity.
Qed.

Lemma X11_witness :
  (forall it, it ∈ dt_items two_threads_real ->
     item_tid it ∈ sorted_keys (thread_info (trace_obj_of two_threads_real))
     /\ format_item it ∈ trace_of (trace_obj_of two_threads_real) (item_tid it))
  /\ sum_list_with (fun tid => length (trace_of (trace_obj_of two_threads_real) tid))
                   (sorted_keys (thread_info (trace_obj_of two_threads_real)))
     = length (dt_items two_threads_real).
Proof.
  apply (X11_process_trace_conserves_events two_threads_real
           (trace_obj_of two_threads_real)).
  vm_compute. reflexivity.
Defined.

(** ** [compare_trace]: exceptions, one record per thread, bounds *)

Lemma rfold_collect_returns {A B : Type} (f : A -> result (option B)) (xs : list A)
      (acc : list B) :
  returns (rfold (fun l x => let* o := f x in Ok (l ++ option_list o)) acc xs)
  <-> Forall (fun x => returns (f x)) xs.
Proof.
  revert acc. induction xs as [|x xs IH]; intros acc; simpl.
  - split; [constructor | intros _; eexists; reflexivity].
  - rewrite Forall_cons. destruct (f x) as [o|e]; simpl.
    + rewrite IH. split; [intros H; split; [eexists; reflexivity | exact H] | tauto].
    + split; [intros [a H]; discriminate H | intros [[a H] _]; discriminate H].
Qed.

Lemma rfold_collect_Raise {A B : Type} (f : A -> result (option B)) (xs : list A)
      (acc : list B) (e : exn) :
  rfold (fun l x => let* o := f x in Ok (l ++ option_list o)) acc xs = Raise e ->
  exists x, x ∈ xs /\ f x = Raise e.
Proof.
  revert acc. induction xs as [|x xs IH]; intros acc; simpl; [discriminate|].
  destruct (f x) as [o|e'] eqn:Hfx; simpl.
  - intros H. destruct (IH _ H) as (x' & Hx' & Hf). exists x'. split; [right|]; assumption.
  - intros [= <-]. exists x. split; [left | exact Hfx].
Qed.

Lemma clean_trace_Raise (trace_list : list string) (e : exn) :
  clean_trace trace_list = Raise e -> e = IndexError.
Proof.
  unfold clean_trace. rewrite clean_trace_acc.
  destruct (forallb has_identifier trace_list); [discriminate | congruence].
Qed.

Lemma trace_similarity_identifiers (name_a : string) (trace_a : list string)
      (name_b : string) (trace_b : list string) (q : Q) :
  trace_similarity name_a trace_a name_b trace_b = Ok q ->
  forallb has_identifier trace_a = true /\ forallb has_identifier trace_b = true.
Proof.
  intros H. apply trace_similarity_Ok in H as (ids_a & ids_b & Ha & Hb & _).
  split; apply forallb_forall; intros ev Hev; apply has_identifier_returns.
  - assert (returns (rmap trace_str_to_class_method trace_a)) as Hr by (eexists; eauto).
    apply rmap_returns in Hr. rewrite Forall_forall in Hr. apply Hr.
    apply list_elem_of_In. exact Hev.
  - assert (returns (rmap trace_str_to_class_method trace_b)) as Hr by (eexists; eauto).
    apply rmap_returns in Hr. rewrite Forall_forall in Hr. apply Hr.
    apply list_elem_of_In. exact Hev.
Qed.

(** The loop body raises nothing but [IndexError]: the thread ids come from
    the keys of the dictionaries they are looked up in. *)
Lemma compare_matched_Raise (real_info emu_info : gmap Z thread)
      (sim_matrix : list (list Q)) (xy : nat * nat) (e : exn) :
  compare_matched real_info emu_info (sorted_keys real_info) (sorted_keys emu_info)
                  sim_matrix xy = Raise e ->
  e = IndexError.
Proof.
  destruct xy as [x y]. unfold compare_matched, list_get, dict_get, matrix_get, list_get.
  destruct (sorted_keys real_info !! x) as [tid_r|] eqn:Hx; simpl; [|congruence].
  destruct (sorted_keys_lookup _ _ _ Hx) as [thr_r Hr]. rewrite Hr. simpl.
  destruct (clean_trace (trace thr_r)) as [a|ea] eqn:Ha; simpl.
  2:{ intros [= <-]. eapply clean_trace_Raise. exact Ha. }
  destruct (sorted_keys emu_info !! y) as [tid_e|] eqn:Hy; simpl; [|congruence].
  destruct (sorted_keys_lookup _ _ _ Hy) as [thr_e He]. rewrite He. simpl.
  destruct (clean_trace (trace thr_e)) as [b|eb] eqn:Hb; simpl.
  2:{ intros [= <-]. eapply clean_trace_Raise. exact Hb. }
  destruct (trace_aligned a b); [|discriminate].
  destruct (sim_matrix !! x) as [row|]; simpl; [|congruence].
  destruct (row !! y); simpl; [discriminate | congruence].
Qed.

(** Once the matrix is built, the loop body returns on every pair of
    indices that is inside the matrix. *)
Lemma compare_matched_returns (real_info emu_info : gmap Z thread)
      (sim_matrix : list (list Q)) (x y : nat) :
  build_sim_matrix real_info emu_info (sorted_keys real_info) (sorted_keys emu_info)
  = Ok sim_matrix ->
  returns (compare_matched real_info emu_info (sorted_keys real_info)
                           (sorted_keys emu_info) sim_matrix (x, y))
  <-> x < length (sorted_keys real_info) /\ y < length (sorted_keys emu_info).
Proof.
  intros HM. split.
  - intros [o Ho]. apply compare_matched_Ok in Ho
      as (tid_r & thr_r & a & tid_e & thr_e & b & Hx & _ & _ & Hy & _).
    split; eapply lookup_lt_Some; eassumption.
  - intros [Hx Hy].
    destruct (lookup_lt_is_Some_2 _ _ Hx) as [tid_r Hr].
    destruct (lookup_lt_is_Some_2 _ _ Hy) as [tid_e He].
    destruct (build_sim_matrix_entry _ _ _ _ _ _ _ _ _ HM Hr He)
      as (thr_r & thr_e & s & Htr & Hte & Hs & Hget).
    destruct (trace_similarity_identifiers _ _ _ _ _ Hs) as [Hia Hib].
    destruct (trace_aligned (filter (fun ev => is_noise ev = false) (trace thr_r))
                            (filter (fun ev => is_noise ev = false) (trace thr_e)))
      eqn:Hal.
    + eexists. apply compare_matched_Ok.
      exists tid_r, thr_r, (filter (fun ev => is_noise ev = false) (trace thr_r)),
        tid_e, thr_e, (filter (fun ev => is_noise ev = false) (trace thr_e)).
      repeat (split; [first [assumption | apply clean_trace_Ok; auto]|]).
      left. split; [exact Hal|]. eexists. split; [exact Hget | reflexivity].
    + exists None. apply compare_matched_Ok.
      exists tid_r, thr_r, (filter (fun ev => is_noise ev = false) (trace thr_r)),
        tid_e, thr_e, (filter (fun ev => is_noise ev = false) (trace thr_e)).
      repeat (split; [first [assumption | apply clean_trace_Ok; auto]|]).
      right. auto.
Qed.

(** X12: once the similarity matrix is built, the rest of [compare_trace]
    returns exactly when every pair of indices given by the solver lies
    inside the matrix; it raises nothing but [IndexError].  In particular
    cleaning a trace cannot fail after the similarities were computed. *)
Theorem X12_compare_trace_returns_iff
        (lsa : list (list Q) -> list nat * list nat)
        (real_obj emu_obj : trace_obj) (sim_matrix : list (list Q)) :
  build_sim_matrix (thread_info real_obj) (thread_info emu_obj)
                   (sorted_keys (thread_info real_obj))
                   (sorted_keys (thread_info emu_obj)) = Ok sim_matrix ->
  (returns (compare_trace_objs lsa real_obj emu_obj) <->
   Forall (fun xy => xy.1 < length (sorted_keys (thread_info real_obj))
                     /\ xy.2 < length (sorted_keys (thread_info emu_obj)))
          (zip (lsa sim_matrix).1 (lsa sim_matrix).2))
  /\ (forall e, compare_trace_objs lsa real_obj emu_obj = Raise e -> e = IndexError).
Proof.
  intros HM. unfold compare_trace_objs. rewrite HM. cbn [rbind].
  destruct (lsa sim_matrix) as [r_idx e_idx]. cbn [fst snd]. split.
  - rewrite rfold_collect_returns. apply Forall_iff. intros [x y].
    apply compare_matched_returns. exact HM.
  - intros e H. apply rfold_collect_Raise in H as (xy & _ & H).
    eapply compare_matched_Raise. exact H.
Qed.

Lemma X12_witness :
  (returns (compare_trace_objs assign_swap (trace_obj_of two_threads_real)
                               (trace_obj_of two_threads_emu)) <->
   Forall (fun xy => xy.1 < length (sorted_keys (thread_info
                                                   (trace_obj_of two_threads_real)))
                     /\ xy.2 < length (sorted_keys (thread_info
                                                      (trace_obj_of two_threads_emu))))
          (zip [0; 1] [1; 0]))
  /\ (forall e, compare_trace_objs assign_swap (trace_obj_of two_threads_real)
                                   (trace_obj_of two_threads_emu) = Raise e ->
                e = IndexError).
Proof.
  apply (X12_compare_trace_returns_iff assign_swap
           (trace_obj_of two_threads_real) (trace_obj_of two_threads_emu)
           (sim_matrix_of (trace_obj_of two_threads_real)
                          (trace_obj_of two_threads_emu))).
  vm_compute. reflexivity.
Defined.

Lemma collect_sublist {A B C : Type} (f : A -> result (option B)) (g : B -> C)
      (h : A -> C) (xs : list A) (os : list (option B)) :
  rmap f xs = Ok os ->
  (forall x b, x ∈ xs -> f x = Ok (Some b) -> g b = h x) ->
  sublist (map g (concat (map option_list os))) (map h xs).
Proof.
  revert os. induction xs as [|x xs IH]; simpl; intros os H Hgh.
  - injection H as <-. constructor.
  - apply rbind_Ok in H as (o & Ho & H). apply rbind_Ok in H as (os' & Hos & [= <-]).
    assert (sublist (map g (concat (map option_list os'))) (map h xs)) as IH'.
    { apply IH; [exact Hos|]. intros x' b Hx'. apply Hgh. right. exact Hx'. }
    simpl. destruct o as [b|]; simpl.
    + rewrite (Hgh x b); [|left|exact Ho]. apply sublist_skip. exact IH'.
    + apply sublist_cons. exact IH'.
Qed.

Lemma assignment_length_le (m n : nat) (rows cols : list nat) :
  is_assignment m n rows cols -> length (zip rows cols) <= m `min` n.
Proof.
  intros (Hlen & Hnr & Hnc & Hr & Hc). rewrite length_zip_with.
  assert (length rows <= m).
  { rewrite <- (length_seq m 0). apply submseteq_length, NoDup_submseteq; [exact Hnr|].
    intros x Hx. apply elem_of_seq. rewrite Forall_forall in Hr.
    specialize (Hr x Hx). lia. }
  assert (length cols <= n).
  { rewrite <- (length_seq n 0). apply submseteq_length, NoDup_submseteq; [exact Hnc|].
    intros y Hy. apply elem_of_seq. rewrite Forall_forall in Hc.
    specialize (Hc y Hy). lia. }
  lia.
Qed.

Lemma NoDup_keys_at {V : Type} (d : gmap Z V) (idx : list nat) :
  NoDup idx -> Forall (fun x => x < length (sorted_keys d)) idx ->
  NoDup (map (fun x => default 0%Z (sorted_keys d !! x)) idx).
Proof.
  intros Hnd Hlt. apply NoDup_fmap_2_strong; [|exact Hnd].
  intros x x' Hx Hx' Heq. rewrite Forall_forall in Hlt.
  destruct (lookup_lt_is_Some_2 _ _ (Hlt x Hx)) as [k Hk].
  destruct (lookup_lt_is_Some_2 _ _ (Hlt x' Hx')) as [k' Hk'].
  rewrite Hk, Hk' in Heq. simpl in Heq. subst k'.
  eapply NoDup_lookup; [apply (NoDup_sorted_keys d) | exact Hk | exact Hk'].
Qed.

(** X13: when the solver pairs distinct rows with distinct columns, the
    output has at most [min m n] records, no real thread id occurs in two
    records and no emulator thread id occurs in two records. *)
Theorem X13_one_record_per_thread
        (lsa : list (list Q) -> list nat * list nat)
        (real_obj emu_obj : trace_obj) (sim_matrix : list (list Q))
        (out : list ComparisonRecord) :
  build_sim_matrix (thread_info real_obj) (thread_info emu_obj)
                   (sorted_keys (thread_info real_obj))
                   (sorted_keys (thread_info emu_obj)) = Ok sim_matrix ->
  is_assignment (length (sorted_keys (thread_info real_obj)))
                (length (sorted_keys (thread_info emu_obj)))
                (lsa sim_matrix).1 (lsa sim_matrix).2 ->
  compare_trace_objs lsa real_obj emu_obj = Ok out ->
  length out <= length (sorted_keys (thread_info real_obj))
                `min` length (sorted_keys (thread_info emu_obj))
  /\ NoDup (map real_id out)
  /\ NoDup (map emu_id out).
Proof.
  intros HM Has Hout. unfold compare_trace_objs in Hout. rewrite HM in Hout.
  cbn [rbind] in Hout. destruct (lsa sim_matrix) as [rows cols]. cbn [fst snd] in *.
  destruct (rfold_collect _ _ _ _ Hout) as (os & Hos & ->). simpl.
  pose proof Has as (Hlen & Hnr & Hnc & Hr & Hc).
  assert (Hreal : sublist (map real_id (concat (map option_list os)))
                          (map (fun xy : nat * nat =>
                                  default 0%Z (sorted_keys (thread_info real_obj) !! xy.1))
                               (zip rows cols))).
  { apply (collect_sublist _ _ _ _ _ Hos). intros [x y] r _ Hr'.
    apply compare_matched_Ok in Hr'
      as (tid_r & thr_r & a & tid_e & thr_e & b & Hx & _ & _ & _ & _ & _ & Hcase).
    destruct Hcase as [(_ & c & _ & [= ->]) | (_ & ?)]; [|discriminate].
    simpl. rewrite Hx. reflexivity. }
  assert (Hemu : sublist (map emu_id (concat (map option_list os)))
                         (map (fun xy : nat * nat =>
                                 default 0%Z (sorted_keys (thread_info emu_obj) !! xy.2))
                              (zip rows cols))).
  { apply (collect_sublist _ _ _ _ _ Hos). intros [x y] r _ Hr'.
    apply compare_matched_Ok in Hr'
      as (tid_r & thr_r & a & tid_e & thr_e & b & _ & _ & _ & Hy & _ & _ & Hcase).
    destruct Hcase as [(_ & c & _ & [= ->]) | (_ & ?)]; [|discriminate].
    simpl. rewrite Hy. reflexivity. }
  split; [|split].
  - apply sublist_length in Hreal. rewrite !length_map in Hreal.
    pose proof (assignment_length_le _ _ _ _ Has). lia.
  - eapply sublist_NoDup; [|exact Hreal].
    change (NoDup (((fun x => default 0%Z (sorted_keys (thread_info real_obj) !! x))
                      ∘ fst) <$> zip rows cols)).
    rewrite list_fmap_compose, fst_zip by lia. apply NoDup_keys_at; assumption.
  - eapply sublist_NoDup; [|exact Hemu].
    change (NoDup (((fun y => default 0%Z (sorted_keys (thread_info emu_obj) !! y))
                      ∘ snd) <$> zip rows cols)).
    rewrite list_fmap_compose, snd_zip by lia. apply NoDup_keys_at; assumption.
Qed.

Lemma X13_witness :
  length (records_of assign_swap two_threads_real two_threads_emu) <= 2
  /\ NoDup (map real_id (records_of assign_swap two_threads_real two_threads_emu))
  /\ NoDup (map emu_id (records_of assign_swap two_threads_real two_threads_emu)).
Proof.
  apply (X13_one_record_per_thread assign_swap
           (trace_obj_of two_threads_real) (trace_obj_of two_threads_emu)
           (sim_matrix_of (trace_obj_of two_threads_real)
                          (trace_obj_of two_threads_emu))
           (records_of assign_swap two_threads_real two_threads_emu)).
  - vm_compute. reflexivity.
  - exact (proj1 two_threads_optimal).
  - vm_compute. reflexivity.
Defined.

(** X14: every record of [compare_trace] carries the names of its two
    threads, a similarity between 0 and 1, and a divergence index that is at
    most [max_common_len], itself at most the number of events of either
    thread before cleaning. *)
Theorem X14_record_bounds
        (lsa : list (list Q) -> list nat * list nat)
        (real_obj emu_obj : trace_obj) (out : list ComparisonRecord)
        (r : ComparisonRecord) :
  compare_trace_objs lsa real_obj emu_obj = Ok out -> r ∈ out ->
  (exists thr_r thr_e,
      thread_info real_obj !! real_id r = Some thr_r
      /\ thread_info emu_obj !! emu_id r = Some thr_e
      /\ real_name r = name thr_r /\ emu_name r = name thr_e)
  /\ (0 <= sim_cov r)%Q /\ (sim_cov r <= 1)%Q
  /\ diverge_idx r <= max_common_len r
  /\ max_common_len r <= length (trace_of real_obj (real_id r))
  /\ max_common_len r <= length (trace_of emu_obj (emu_id r)).
Proof.
  intros Hout Hr.
  destruct (compare_trace_objs_elem _ _ _ _ r Hout) as (M & HM & [Hiff _]).
  destruct (Hiff Hr) as ([x y] & _ & Hxy).
  apply compare_matched_Ok in Hxy
    as (tid_r & thr_r & a & tid_e & thr_e & b & Hx & Htr & Ha & Hy & Hte & Hb & Hcase).
  destruct Hcase as [(_ & c & Hc & [= ->]) | (_ & ?)]; [|discriminate].
  destruct (build_sim_matrix_entry _ _ _ _ _ _ _ _ _ HM Hx Hy)
    as (thr_r' & thr_e' & s & Htr' & Hte' & Hs & Hget).
  assert (thr_r' = thr_r) as -> by congruence.
  assert (thr_e' = thr_e) as -> by congruence.
  assert (c = (- s)%Q) as -> by congruence.
  apply clean_trace_Ok in Ha as [_ ->]. apply clean_trace_Ok in Hb as [_ ->].
  cbn [real_id emu_id real_name emu_name sim_cov diverge_idx max_common_len scan_pair].
  unfold trace_of. rewrite Htr, Hte, Qopp_opp.
  split; [exists thr_r, thr_e; auto|].
  destruct (trace_similarity_bounds _ _ _ _ _ Hs) as [H0 H1].
  split; [exact H0|]. split; [exact H1|].
  pose proof (length_filter (fun ev => is_noise ev = false) (trace thr_r)).
  pose proof (length_filter (fun ev => is_noise ev = false) (trace thr_e)).
  split; [|split]; try lia.
  pose proof (scan_loop_bounds
                (length (filter (fun ev => is_noise ev = false) (trace thr_r))
                 `min` length (filter (fun ev => is_noise ev = false) (trace thr_e)))
                0 (filter (fun ev => is_noise ev = false) (trace thr_r))
                (filter (fun ev => is_noise ev = false) (trace thr_e))).
  lia.
Qed.

Lemma X14_witness :
  Forall (fun r =>
            (exists thr_r thr_e,
                thread_info (trace_obj_of two_threads_real) !! real_id r = Some thr_r
                /\ thread_info (trace_obj_of two_threads_emu) !! emu_id r = Some thr_e
                /\ real_name r = name thr_r /\ emu_name r = name thr_e)
            /\ (0 <= sim_cov r)%Q /\ (sim_cov r <= 1)%Q
            /\ diverge_idx r <= max_common_len r
            /\ max_common_len r
               <= length (trace_of (trace_obj_of two_threads_real) (real_id r))
            /\ max_common_len r
               <= length (trace_of (trace_obj_of two_threads_emu) (emu_id r)))
         (records_of assign_swap two_threads_real two_threads_emu).
Proof.
  apply Forall_forall. intros r Hr.
  apply (X14_record_bounds assign_swap
           (trace_obj_of two_threads_real) (trace_obj_of two_threads_emu)
           (records_of assign_swap two_threads_real two_threads_emu) r).
  - vm_compute. reflexivity.
  - exact Hr.
Defined.

(** ** The scan is symmetric *)

Lemma scan_loop_sym (remaining trace_idx : nat) (a b : list string) :
  scan_loop remaining trace_idx a b = scan_loop remaining trace_idx b a.
Proof.
  revert trace_idx. induction remaining as [|n IH]; intros i; simpl; [reflexivity|].
  rewrite IH. repeat case_bool_decide; try reflexivity; congruence.
Qed.

(** X15: exchanging the device side and the emulator side of a pair gives
    the mirrored record: the same alignment, common length, divergence index
    and matched fraction, and the two contexts exchanged. *)
Theorem X15_scan_symmetric
        (tid_r : Z) (name_r : string) (a : list string)
        (tid_e : Z) (name_e : string) (b : list string) (sim : Q) :
  let r := scan_pair tid_r name_r a tid_e name_e b sim in
  let r' := scan_pair tid_e name_e b tid_r name_r a sim in
  trace_aligned b a = trace_aligned a b
  /\ max_common_len r' = max_common_len r
  /\ diverge_idx r' = diverge_idx r
  /\ sim_max_common r' = sim_max_common r
  /\ real_trace r' = e_trace r
  /\ e_trace r' = real_trace r.
Proof.
  cbv zeta.
  cbn [max_common_len diverge_idx sim_max_common real_trace e_trace scan_pair].
  rewrite (Nat.min_comm (length b) (length a)), (scan_loop_sym _ _ b a).
  split; [|repeat split; reflexivity].
  unfold trace_aligned.
  rewrite (orb_comm (bool_decide (length b = 0)) (bool_decide (length a = 0))).
  f_equal. apply bool_decide_ext. split; congruence.
Qed.

(** ** Comparing a trace with itself *)

Lemma trace_aligned_refl (a : list string) : trace_aligned a a = true.
Proof.
  unfold trace_aligned. destruct a; simpl; [reflexivity|].
  rewrite bool_decide_eq_true_2; reflexivity.
Qed.

Lemma trace_similarity_self (nm : string) (tr : list string) (s : Q) :
  trace_similarity nm tr nm tr = Ok s -> (s == 1)%Q.
Proof.
  intros H. apply trace_similarity_value in H as (Hn & Hc & ->).
  unfold name_ratio, jaccard.
  destruct (ratio_product (String.length (commonprefix nm nm)) _
                          (size (identifiers tr ∩ identifiers tr))
                          _ Hn Hc) as (_ & H1 & _).
  apply H1.
  rewrite (proj2 (commonprefix_full nm nm) eq_refl).
  rewrite (idemp_L (∩)), (idemp_L (∪)). reflexivity.
Qed.

Lemma thread_similarity_le_1 (real_info emu_info : gmap Z thread) (xy : nat * nat) :
  (thread_similarity real_info emu_info xy <= 1)%Q.
Proof.
  unfold thread_similarity.
  destruct (sorted_keys real_info !! xy.1); [|discriminate].
  destruct (sorted_keys emu_info !! xy.2); [|discriminate].
  destruct (real_info !! z); [|discriminate].
  destruct (emu_info !! z0); [|discriminate].
  destruct (trace_similarity (name t) (trace t) (name t0) (trace t0)) eqn:Hs;
    [|discriminate].
  eapply trace_similarity_bounds. exact Hs.
Qed.

Lemma total_similarity_le_length (real_info emu_info : gmap Z thread)
      (pairs : list (nat * nat)) :
  (total_similarity real_info emu_info pairs <= inject_Z (Z.of_nat (length pairs)))%Q.
Proof.
  induction pairs as [|xy pairs IH].
  - apply Qle_refl.
  - unfold total_similarity in *. cbn [foldr length].
    rewrite Nat2Z.inj_succ, <- Z.add_1_l, inject_Z_plus.
    apply Qplus_le_compat; [apply thread_similarity_le_1 | exact IH].
Qed.

Lemma thread_similarity_diag (info : gmap Z thread) (sim_matrix : list (list Q))
      (x : nat) :
  build_sim_matrix info info (sorted_keys info) (sorted_keys info) = Ok sim_matrix ->
  x < length (sorted_keys info) ->
  (thread_similarity info info (x, x) == 1)%Q.
Proof.
  intros HM Hx. destruct (lookup_lt_is_Some_2 _ _ Hx) as [tid Htid].
  destruct (build_sim_matrix_entry _ _ _ _ _ _ _ _ _ HM Htid Htid)
    as (thr & thr' & s & Hthr & Hthr' & Hs & _).
  assert (thr' = thr) as -> by congruence.
  unfold thread_similarity. simpl. rewrite Htid, Hthr, Hs.
  eapply trace_similarity_self. exact Hs.
Qed.

Lemma total_similarity_diag (info : gmap Z thread) (sim_matrix : list (list Q))
      (idx : list nat) :
  build_sim_matrix info info (sorted_keys info) (sorted_keys info) = Ok sim_matrix ->
  Forall (fun x => x < length (sorted_keys info)) idx ->
  (total_similarity info info (zip idx idx) == inject_Z (Z.of_nat (length idx)))%Q.
Proof.
  intros HM. induction 1 as [|x idx Hx _ IH].
  - reflexivity.
  - unfold total_similarity in *. cbn [zip zip_with foldr length].
    rewrite Nat2Z.inj_succ, <- Z.add_1_l, inject_Z_plus.
    rewrite IH, (thread_similarity_diag _ _ _ HM Hx). reflexivity.
Qed.

Lemma diagonal_is_assignment (m : nat) : is_assignment m m (seq 0 m) (seq 0 m).
Proof.
  repeat split; try apply NoDup_seq;
    apply Forall_forall; intros x Hx; apply elem_of_seq in Hx; lia.
Qed.

Lemma keys_at_seq (keys : list Z) :
  map (fun x => default 0%Z (keys !! x)) (seq 0 (length keys)) = keys.
Proof.
  apply list_eq. intros i. rewrite list_lookup_fmap.
  destruct (decide (i < length keys)) as [Hlt|Hge].
  - rewrite (proj2 (lookup_seq 0 (length keys) i i)) by lia.
    destruct (lookup_lt_is_Some_2 _ _ Hlt) as [k Hk]. simpl. rewrite Hk. reflexivity.
  - rewrite (lookup_ge_None_2 keys) by lia.
    rewrite lookup_ge_None_2; [reflexivity|]. rewrite length_seq. lia.
Qed.

Lemma rfold_collect_all {A B C : Type} (f : A -> result (option B))
      (P : B -> Prop) (g : B -> C) (h : A -> C) (xs : list A) (acc : list B) :
  (forall x, x ∈ xs -> exists b, f x = Ok (Some b) /\ P b /\ g b = h x) ->
  exists out,
    rfold (fun l x => let* o := f x in Ok (l ++ option_list o)) acc xs = Ok (acc ++ out)
    /\ Forall P out /\ map g out = map h xs.
Proof.
  revert acc. induction xs as [|x xs IH]; intros acc H.
  - exists []. simpl. rewrite app_nil_r. auto.
  - destruct (H x) as (b & Hb & HP & Hg); [left|].
    destruct (IH (acc ++ [b])) as (out & Hout & HPout & Hgout).
    { intros x' Hx'. apply H. right. exact Hx'. }
    exists (b :: out). simpl. rewrite Hb. simpl. rewrite Hout, <- app_assoc.
    split; [reflexivity|]. split; [constructor; assumption|].
    simpl. rewrite Hg, Hgout. reflexivity.
Qed.

(** X16: a trace compared with itself.  When the similarity matrix of a
    trace object against itself is built and the solver pairs every thread
    with itself, that result meets the contract of the solver (no assignment
    has a smaller cost), and [compare_trace] returns one record per thread,
    in the order of the thread ids, each with similarity 1, no divergence, no
    context and matched fraction 1. *)
Theorem X16_self_comparison
        (lsa : list (list Q) -> list nat * list nat)
        (obj : trace_obj) (sim_matrix : list (list Q)) :
  build_sim_matrix (thread_info obj) (thread_info obj)
                   (sorted_keys (thread_info obj)) (sorted_keys (thread_info obj))
  = Ok sim_matrix ->
  lsa sim_matrix = (seq 0 (length (sorted_keys (thread_info obj))),
                    seq 0 (length (sorted_keys (thread_info obj)))) ->
  optimal_assignment (length (sorted_keys (thread_info obj)))
                     (length (sorted_keys (thread_info obj)))
                     sim_matrix (lsa sim_matrix)
  /\ exists out,
       compare_trace_objs lsa obj obj = Ok out
       /\ map real_id out = sorted_keys (thread_info obj)
       /\ Forall (fun r =>
                    emu_id r = real_id r
                    /\ (sim_cov r == 1)%Q
                    /\ diverge_idx r = max_common_len r
                    /\ real_trace r = None /\ e_trace r = None
                    /\ (sim_max_common r == 1)%Q) out.
Proof.
  intros HM Hlsa. set (keys := sorted_keys (thread_info obj)) in *.
  set (m := length keys) in *. split.
  - rewrite Hlsa. split; [apply diagonal_is_assignment|]. cbn [fst snd].
    split; [rewrite length_seq; lia|].
    intros rows cols Has Hlen.
    rewrite (total_similarity_opp _ _ _ _ HM
               (assignment_in_range _ _ _ _ (diagonal_is_assignment m))).
    rewrite (total_similarity_opp _ _ _ _ HM (assignment_in_range _ _ _ _ Has)).
    apply Qopp_le_compat.
    rewrite (total_similarity_diag _ _ _ HM).
    + eapply Qle_trans; [apply total_similarity_le_length|].
      destruct Has as (Hl & _). rewrite length_zip_with, length_seq, <- Hl, Hlen.
      rewrite !Nat.min_id. apply Qle_refl.
    + apply Forall_forall. intros x Hx. apply elem_of_seq in Hx. fold keys. lia.
  - unfold compare_trace_objs. fold keys. rewrite HM. cbn [rbind].
    rewrite Hlsa.
    destruct (rfold_collect_all
                (compare_matched (thread_info obj) (thread_info obj) keys keys sim_matrix)
                (fun r => emu_id r = real_id r
                          /\ (sim_cov r == 1)%Q
                          /\ diverge_idx r = max_common_len r
                          /\ real_trace r = None /\ e_trace r = None
                          /\ (sim_max_common r == 1)%Q)
                real_id (fun xy : nat * nat => default 0%Z (keys !! xy.1))
                (zip (seq 0 m) (seq 0 m)) []) as (out & Hout & HP & Hids).
    + intros [x y] Hxy. rewrite zip_diag in Hxy.
      apply list_elem_of_fmap in Hxy as (x' & [= -> ->] & Hx').
      apply elem_of_seq in Hx'.
      destruct (lookup_lt_is_Some_2 keys x' ltac:(fold m; lia)) as [tid Htid].
      destruct (build_sim_matrix_entry _ _ _ _ _ _ _ _ _ HM Htid Htid)
        as (thr & thr' & s & Hthr & Hthr' & Hs & Hget).
      assert (thr' = thr) as -> by congruence.
      destruct (trace_similarity_identifiers _ _ _ _ _ Hs) as [Hids _].
      set (a := filter (fun ev => is_noise ev = false) (trace thr)).
      exists (scan_pair tid (name thr) a tid (name thr) a (- - s)%Q). split.
      * apply compare_matched_Ok. exists tid, thr, a, tid, thr, a.
        repeat (split; [first [assumption | apply clean_trace_Ok; auto]|]).
        left. split; [apply trace_aligned_refl|]. eauto.
      * cbn [emu_id real_id sim_cov diverge_idx max_common_len real_trace e_trace
                    sim_max_common scan_pair fst].
        rewrite scan_loop_same, Nat.min_id, Nat.add_0_l, Htid, Qopp_opp.
        rewrite !context_None by lia.
        repeat split.
        -- eapply trace_similarity_self. exact Hs.
        -- apply fraction_matched_one; lia.
    + exists out. split; [exact Hout|]. split; [|exact HP].
      rewrite Hids, zip_diag, <- list_fmap_compose. apply keys_at_seq.
Qed.

Lemma X16_witness :
  optimal_assignment 2 2
    (sim_matrix_of (trace_obj_of two_threads_real) (trace_obj_of two_threads_real))
    ([0; 1], [0; 1])
  /\ exists out,
       compare_trace_objs (fun _ => ([0; 1], [0; 1]))
                          (trace_obj_of two_threads_real)
                          (trace_obj_of two_threads_real) = Ok out
       /\ map real_id out = sorted_keys (thread_info (trace_obj_of two_threads_real))
       /\ Forall (fun r =>
                    emu_id r = real_id r
                    /\ (sim_cov r == 1)%Q
                    /\ diverge_idx r = max_common_len r
                    /\ real_trace r = None /\ e_trace r = None
                    /\ (sim_max_common r == 1)%Q) out.
Proof.
  apply (X16_self_comparison (fun _ => ([0; 1], [0; 1]))
           (trace_obj_of two_threads_real)
           (sim_matrix_of (trace_obj_of two_threads_real)
                          (trace_obj_of two_threads_real))).
  - vm_compute. reflexivity.
  - vm_compute. reflexivity.
Defined.

(** ** Edge cases of the similarity matrix *)

Lemma rmap_Raise_all {A B : Type} (f : A -> result B) (xs : list A) (e : exn) :
  Forall (fun x => returns (f x) \/ f x = Raise e) xs ->
  Exists (fun x => f x = Raise e) xs ->
  rmap f xs = Raise e.
Proof.
  induction 1 as [|x xs Hx _ IH]; intros Hex; [inversion Hex|]. simpl.
  destruct Hx as [[y Hy]|Hx]; [|rewrite Hx; reflexivity].
  rewrite Hy. simpl. apply Exists_cons in Hex as [Hex|Hex]; [congruence|].
  rewrite (IH Hex). reflexivity.
Qed.

Lemma rmap_Raise_or_returns {A B : Type} (f : A -> result B) (xs : list A) (e : exn) :
  Forall (fun x => returns (f x) \/ f x = Raise e) xs ->
  returns (rmap f xs) \/ rmap f xs = Raise e.
Proof.
  induction 1 as [|x xs Hx _ IH]; simpl; [left; eexists; reflexivity|].
  destruct Hx as [[y Hy]|Hx]; [|rewrite Hx; right; reflexivity].
  rewrite Hy. simpl. destruct IH as [[ys Hys]|IH].
  - rewrite Hys. left. eexists. reflexivity.
  - rewrite IH. right. reflexivity.
Qed.

Lemma forallb_has_identifier (trace_list : list string) :
  forallb has_identifier trace_list = true ->
  exists ids, rmap trace_str_to_class_method trace_list = Ok ids.
Proof.
  intros H. apply rmap_returns, Forall_forall. intros ev Hev.
  apply has_identifier_returns. rewrite forallb_forall in H. apply H.
  apply list_elem_of_In. exact Hev.
Qed.

(** With identifiers for all events, the similarity either returns or
    divides by zero, and it divides by zero when both names are empty. *)
Lemma trace_similarity_with_identifiers (name_a : string) (trace_a : list string)
      (name_b : string) (trace_b : list string) :
  forallb has_identifier trace_a = true -> forallb has_identifier trace_b = true ->
  (returns (trace_similarity name_a trace_a name_b trace_b)
   \/ trace_similarity name_a trace_a name_b trace_b = Raise ZeroDivisionError)
  /\ (name_a = EmptyString -> name_b = EmptyString ->
      trace_similarity name_a trace_a name_b trace_b = Raise ZeroDivisionError).
Proof.
  intros Ha Hb. destruct (forallb_has_identifier _ Ha) as [ids_a Hia].
  destruct (forallb_has_identifier _ Hb) as [ids_b Hib].
  unfold trace_similarity. rewrite !class_methods_eq, Hia, Hib. cbn [rbind].
  unfold float_div. split.
  - destruct (Z.eqb_spec (Z.of_nat (String.length name_a `max` String.length name_b)) 0);
      cbn [rbind]; [right; reflexivity|].
    destruct (Z.eqb_spec (Z.of_nat (size ((list_to_set ids_a : gset string)
                                            ∪ list_to_set ids_b))) 0);
      cbn [rbind]; [right; reflexivity | left; eexists; reflexivity].
  - intros -> ->. reflexivity.
Qed.

(** X19: two unnamed threads abort the whole comparison.  When every event
    of every thread has an identifier and some real thread and some emulator
    thread both have an empty name, building the similarity matrix raises
    [ZeroDivisionError], whatever the other threads are: [compare_trace]
    writes no record at all. *)
Theorem X19_unnamed_threads_abort
        (lsa : list (list Q) -> list nat * list nat)
        (real_obj emu_obj : trace_obj) (tid_r tid_e : Z) (thr_r thr_e : thread) :
  map_Forall (fun _ thr => forallb has_identifier (trace thr) = true)
             (thread_info real_obj) ->
  map_Forall (fun _ thr => forallb has_identifier (trace thr) = true)
             (thread_info emu_obj) ->
  thread_info real_obj !! tid_r = Some thr_r -> name thr_r = EmptyString ->
  thread_info emu_obj !! tid_e = Some thr_e -> name thr_e = EmptyString ->
  compare_trace_objs lsa real_obj emu_obj = Raise ZeroDivisionError.
Proof.
  intros Hall_r Hall_e Hr Hnr He Hne.
  assert (Hcell : forall k_r t_r k_e t_e,
             thread_info real_obj !! k_r = Some t_r ->
             thread_info emu_obj !! k_e = Some t_e ->
             (returns (trace_similarity (name t_r) (trace t_r) (name t_e) (trace t_e))
              \/ trace_similarity (name t_r) (trace t_r) (name t_e) (trace t_e)
                 = Raise ZeroDivisionError)
             /\ (name t_r = EmptyString -> name t_e = EmptyString ->
                 trace_similarity (name t_r) (trace t_r) (name t_e) (trace t_e)
                 = Raise ZeroDivisionError)).
  { intros k_r t_r k_e t_e Hkr Hke. apply trace_similarity_with_identifiers.
    - exact (Hall_r _ _ Hkr).
    - exact (Hall_e _ _ Hke). }
  set (cell := fun k_r k_e =>
         let* t_r := dict_get (thread_info real_obj) k_r in
         let* t_e := dict_get (thread_info emu_obj) k_e in
         let* s := trace_similarity (name t_r) (trace t_r) (name t_e) (trace t_e) in
         Ok (- s)%Q).
  assert (Hcell' : forall k_r k_e,
             k_r ∈ sorted_keys (thread_info real_obj) ->
             k_e ∈ sorted_keys (thread_info emu_obj) ->
             returns (cell k_r k_e) \/ cell k_r k_e = Raise ZeroDivisionError).
  { intros k_r k_e Hkr Hke.
    apply elem_of_sorted_keys in Hkr as [t_r Htr].
    apply elem_of_sorted_keys in Hke as [t_e Hte].
    unfold cell, dict_get. rewrite Htr, Hte. cbn [rbind].
    destruct (Hcell _ _ _ _ Htr Hte) as [[[s Hs]|Hs] _]; rewrite Hs; cbn [rbind].
    - left. eexists. reflexivity.
    - right. reflexivity. }
  assert (Hbuild : build_sim_matrix (thread_info real_obj) (thread_info emu_obj)
                     (sorted_keys (thread_info real_obj))
                     (sorted_keys (thread_info emu_obj)) = Raise ZeroDivisionError).
  { unfold build_sim_matrix. fold cell. apply rmap_Raise_all.
    - apply Forall_forall. intros k_r Hkr. apply rmap_Raise_or_returns.
      apply Forall_forall. intros k_e Hke. apply Hcell'; assumption.
    - apply Exists_exists. exists tid_r. split.
      + apply elem_of_sorted_keys. eauto.
      + apply rmap_Raise_all.
        * apply Forall_forall. intros k_e Hke. apply Hcell'; [|exact Hke].
          apply elem_of_sorted_keys. eauto.
        * apply Exists_exists. exists tid_e. split.
          -- apply elem_of_sorted_keys. eauto.
          -- unfold cell, dict_get. rewrite Hr, He. cbn [rbind].
             rewrite (proj2 (Hcell _ _ _ _ Hr He) Hnr Hne). reflexivity. }
  unfold compare_trace_objs. rewrite Hbuild. reflexivity.
Qed.

Lemma X19_witness :
  compare_trace_objs assign_swap (trace_obj_of unnamed_real) (trace_obj_of unnamed_emu)
  = Raise ZeroDivisionError.
Proof.
  apply (X19_unnamed_threads_abort assign_swap
           (trace_obj_of unnamed_real) (trace_obj_of unnamed_emu) 2%Z 3%Z
           {| name := EmptyString; trace := ["ent com.app.Job.run ()V Job.java"] |}
           {| name := EmptyString; trace := ["ent com.app.Job.run ()V Job.java"] |}).
  - apply map_Forall_to_list.
    match goal with
    | |- Forall _ ?l => let l' := eval vm_compute in l in change l with l'
    end.
    repeat constructor.
  - apply map_Forall_to_list.
    match goal with
    | |- Forall _ ?l => let l' := eval vm_compute in l in change l with l'
    end.
    repeat constructor.
  - vm_compute. reflexivity.
  - reflexivity.
  - vm_compute. reflexivity.
  - reflexivity.
Defined.

(** X20: a side without threads.  When one of the two trace objects has no
    thread, no similarity is computed: the matrix is built without any
    exception (even for events without identifier), with one empty row per
    real thread, and with a solver result inside the matrix the output list
    is empty. *)
Theorem X20_no_thread_no_record
        (lsa : list (list Q) -> list nat * list nat) (real_obj emu_obj : trace_obj) :
  thread_info real_obj = ∅ \/ thread_info emu_obj = ∅ ->
  Forall (fun x => x < size (thread_info real_obj))
         (lsa (sim_matrix_of real_obj emu_obj)).1 ->
  Forall (fun y => y < size (thread_info emu_obj))
         (lsa (sim_matrix_of real_obj emu_obj)).2 ->
  build_sim_matrix (thread_info real_obj) (thread_info emu_obj)
                   (sorted_keys (thread_info real_obj))
                   (sorted_keys (thread_info emu_obj))
  = Ok (sim_matrix_of real_obj emu_obj)
  /\ length (sim_matrix_of real_obj emu_obj) = size (thread_info real_obj)
  /\ Forall (fun row => length row = size (thread_info emu_obj))
            (sim_matrix_of real_obj emu_obj)
  /\ compare_trace_objs lsa real_obj emu_obj = Ok [].
Proof.
  intros Hempty Hr Hc.
  assert (Hkeys : forall d : gmap Z thread, length (sorted_keys d) = size d).
  { intros d. rewrite sorted_keys_perm, length_fmap, length_map_to_list. reflexivity. }
  assert (Hnil : forall d : gmap Z thread, d = ∅ -> sorted_keys d = []).
  { intros d ->. apply length_zero_iff_nil. rewrite Hkeys. apply map_size_empty. }
  assert (HM : exists sim_matrix,
             build_sim_matrix (thread_info real_obj) (thread_info emu_obj)
                              (sorted_keys (thread_info real_obj))
                              (sorted_keys (thread_info emu_obj)) = Ok sim_matrix).
  { destruct Hempty as [He|He]; rewrite (Hnil _ He); unfold build_sim_matrix.
    - eexists. reflexivity.
    - simpl. induction (sorted_keys (thread_info real_obj)) as [|k ks [M IH]].
      + eexists. reflexivity.
      + simpl. rewrite IH. eexists. reflexivity. }
  destruct HM as [sim_matrix HM].
  assert (sim_matrix_of real_obj emu_obj = sim_matrix) as Heq
      by (unfold sim_matrix_of; rewrite HM; reflexivity).
  rewrite Heq in *.
  destruct (build_sim_matrix_shape _ _ _ _ _ HM) as [Hrows Hcols].
  split; [exact HM|]. split; [rewrite Hrows; apply Hkeys|].
  split; [rewrite <- Hkeys; exact Hcols|].
  unfold compare_trace_objs. rewrite HM. cbn [rbind].
  destruct (lsa sim_matrix) as [rows cols]. cbn [fst snd] in *.
  assert (zip rows cols = []) as ->; [|reflexivity].
  destruct Hempty as [He|He]; rewrite He in *; rewrite map_size_empty in *.
  - destruct rows as [|x rows]; [reflexivity|].
    apply Forall_cons in Hr as [Hx _]. lia.
  - destruct cols as [|y cols]; [destruct rows; reflexivity|].
    apply Forall_cons in Hc as [Hy _]. lia.
Qed.

Lemma X20_witness :
  build_sim_matrix (thread_info (trace_obj_of two_threads_real))
                   (thread_info (trace_obj_of no_events))
                   (sorted_keys (thread_info (trace_obj_of two_threads_real)))
                   (sorted_keys (thread_info (trace_obj_of no_events)))
  = Ok (sim_matrix_of (trace_obj_of two_threads_real) (trace_obj_of no_events))
  /\ length (sim_matrix_of (trace_obj_of two_threads_real) (trace_obj_of no_events))
     = size (thread_info (trace_obj_of two_threads_real))
  /\ Forall (fun row => length row = size (thread_info (trace_obj_of no_events)))
            (sim_matrix_of (trace_obj_of two_threads_real) (trace_obj_of no_events))
  /\ compare_trace_objs assign_none (trace_obj_of two_threads_real)
                        (trace_obj_of no_events) = Ok [].
Proof.
  apply (X20_no_thread_no_record assign_none
           (trace_obj_of two_threads_real) (trace_obj_of no_events)).
  - right. vm_compute. reflexivity.
  - constructor.
  - constructor.
Defined.

(** ** [run]: pairing of the trace files *)

Lemma list_ascii_of_string_app (s1 s2 : string) :
  list_ascii_of_string (s1 +:+ s2) = list_ascii_of_string s1 ++ list_ascii_of_string s2.
Proof. induction s1 as [|c s1 IH]; simpl; [reflexivity | rewrite IH; reflexivity]. Qed.

Lemma list_ascii_of_string_length (s : string) :
  length (list_ascii_of_string s) = String.length s.
Proof. induction s as [|c s IH]; simpl; [reflexivity | rewrite IH; reflexivity]. Qed.

Lemma string_app_length (s1 s2 : string) :
  String.length (s1 +:+ s2) = String.length s1 + String.length s2.
Proof. induction s1 as [|c s1 IH]; simpl; [reflexivity | rewrite IH; reflexivity]. Qed.

Lemma string_app_assoc (s1 s2 s3 : string) :
  (s1 +:+ s2) +:+ s3 = s1 +:+ (s2 +:+ s3).
Proof.
  induction s1 as [|c s1 IH]; [reflexivity|].
  change (String c ((s1 +:+ s2) +:+ s3) = String c (s1 +:+ (s2 +:+ s3))).
  f_equal. exact IH.
Qed.

Lemma str_from_app (s1 s2 : string) : str_from (String.length s1) (s1 +:+ s2) = s2.
Proof. induction s1 as [|c s1 IH]; simpl; [destruct s2; reflexivity | exact IH]. Qed.

Lemma endswith_app (s suffix : string) : endswith (s +:+ suffix) suffix = true.
Proof.
  unfold endswith. rewrite string_app_length.
  replace (String.length s + String.length suffix - String.length suffix)
    with (String.length s) by lia.
  rewrite str_from_app, String.eqb_refl, andb_true_r. apply Nat.leb_le. lia.
Qed.

Lemma trace_tag_roundtrip (tag : string) :
  trace_tag ("event_trace_" +:+ tag +:+ ".trace") = tag.
Proof.
  unfold trace_tag, str_slice, py_slice, slice_bound.
  rewrite !list_ascii_of_string_app, !length_app, !list_ascii_of_string_length.
  set (n := String.length tag).
  change (String.length "event_trace_") with 12.
  change (String.length ".trace") with 6.
  assert (H1 : (Z.of_nat 12 <? 0)%Z = false) by reflexivity.
  assert (H2 : (- Z.of_nat 6 <? 0)%Z = true) by reflexivity.
  rewrite H1, H2.
  replace (Z.to_nat (Z.min (Z.of_nat 12) (Z.of_nat (12 + (n + 6))))) with 12 by lia.
  replace (Z.to_nat (Z.max 0 (- Z.of_nat 6 + Z.of_nat (12 + (n + 6)))
                     - Z.min (Z.of_nat 12) (Z.of_nat (12 + (n + 6)))))
    with n by lia.
  change 12 with (length (list_ascii_of_string "event_trace_")).
  rewrite drop_app_length.
  unfold n. rewrite <- list_ascii_of_string_length, take_app_length.
  apply string_of_list_ascii_of_string.
Qed.

(** X17: the naming of the jobs.  A file named [event_trace_<tag>.trace] is
    taken as a trace file and its tag is [<tag>]; the job for two such files
    reads them from the two events directories and writes to
    [<output_dir>/<app>_<tag of x>_<tag of y>.json]. *)
Theorem X17_job_naming
        (real_device_path emulator_path output_dir app_name x_tag y_tag : string) :
  endswith ("event_trace_" +:+ x_tag +:+ ".trace") ".trace" = true
  /\ trace_tag ("event_trace_" +:+ x_tag +:+ ".trace") = x_tag
  /\ job_args real_device_path emulator_path output_dir app_name
              ("event_trace_" +:+ x_tag +:+ ".trace")
              ("event_trace_" +:+ y_tag +:+ ".trace")
     = (real_device_path +:+ "/event_trace_" +:+ x_tag +:+ ".trace",
        emulator_path +:+ "/event_trace_" +:+ y_tag +:+ ".trace",
        output_dir +:+ "/" +:+ app_name +:+ "_" +:+ x_tag +:+ "_" +:+ y_tag +:+ ".json").
Proof.
  split; [|split].
  - rewrite <- string_app_assoc. apply endswith_app.
  - apply trace_tag_roundtrip.
  - unfold job_args. rewrite !trace_tag_roundtrip. reflexivity.
Qed.

(** X18: the pairing of the trace files of one application.  Only the files
    whose name ends in [.trace] are used; each side is put in lexicographic
    order and the [i]-th file of the device is paired with the [i]-th file of
    the emulator, whatever their tags; the side with more trace files has its
    last ones left out, so there are as many jobs as the shorter side has
    trace files. *)
Theorem X18_app_jobs_pairing
        (real_dir emu_dir output_dir app_name : string)
        (real_files emu_files : list string) :
  let jobs := app_jobs real_dir emu_dir output_dir app_name real_files emu_files in
  Sorted String.le (sorted_traces real_files)
  /\ Sorted String.le (sorted_traces emu_files)
  /\ sorted_traces real_files ≡ₚ filter (fun x => endswith x ".trace" = true) real_files
  /\ sorted_traces emu_files ≡ₚ filter (fun x => endswith x ".trace" = true) emu_files
  /\ length jobs
     = length (filter (fun x => endswith x ".trace" = true) real_files)
       `min` length (filter (fun x => endswith x ".trace" = true) emu_files)
  /\ forall i job,
       jobs !! i = Some job <->
       exists x y,
         sorted_traces real_files !! i = Some x
         /\ sorted_traces emu_files !! i = Some y
         /\ job = job_args (real_dir +:+ "/" +:+ app_name +:+ "/events")
                           (emu_dir +:+ "/" +:+ app_name +:+ "/events")
                           output_dir app_name x y.
Proof.
  cbv zeta. unfold app_jobs.
  split; [apply Sorted_merge_sort; apply _|].
  split; [apply Sorted_merge_sort; apply _|].
  split; [apply merge_sort_Permutation|].
  split; [apply merge_sort_Permutation|].
  split.
  - rewrite length_map, length_zip_with. unfold sorted_traces.
    rewrite !merge_sort_Permutation. reflexivity.
  - intros i job. rewrite list_lookup_fmap. split.
    + intros H. destruct (zip (sorted_traces real_files) (sorted_traces emu_files) !! i)
        as [[x y]|] eqn:Hxy; [|discriminate].
      simpl in H. injection H as <-.
      apply lookup_zip_with_Some in Hxy as (x' & y' & [= -> ->] & Hx & Hy).
      exists x', y'. auto.
    + intros (x & y & Hx & Hy & ->).
      assert (zip (sorted_traces real_files) (sorted_traces emu_files) !! i
              = Some (x, y)) as ->; [|reflexivity].
      apply lookup_zip_with_Some. exists x, y. auto.
Qed.

Example app_jobs_sample :
  app_jobs "/real" "/emu" "/out" "com.app"
           ["event_trace_2.trace"; "notes.txt"; "event_trace_1.trace"]
           ["event_trace_3.trace"; "event_trace_1.trace"; "event_trace_2.trace"]
  = [ ("/real/com.app/events/event_trace_1.trace",
       "/emu/com.app/events/event_trace_1.trace",
       "/out/com.app_1_1.json");
      ("/real/com.app/events/event_trace_2.trace",
       "/emu/com.app/events/event_trace_2.trace",
       "/out/com.app_2_2.json") ].
Proof. vm_compute. reflexivity. Qed.
